(** * albertbf static-site build pipeline (build.js): a shallow embedding

    The build script is modelled function by function.  JavaScript strings
    are sequences of UTF-16 code units, regular expressions are run by a
    small backtracking matcher with the ECMAScript priorities (greedy and
    lazy stars, capture groups, negative lookahead), and the external
    libraries (js-yaml, marked, highlight.js, the engine's date parser) are
    an interface the pipeline is parameterised by.

    Conventions of the model:
    - the frontmatter is a record of the four keys the script reads, each
      absent or holding the value js-yaml gives for it, whatever its
      type: a title that is a number and tags that are a string are
      frontmatters like any other;
    - marked is the release line whose renderer hooks receive the token
      (the code hook reads [code.lang] and [code.text]); it is seen
      through the stream of pieces it renders, in document order: its own
      markup, code tokens and image tokens, the last two going through
      the hooks of the script;
    - the callbacks of [Promise.all] run one after the other in array
      order (each runs without interruption once its file is read), and
      one reading of the clock serves a whole run;
    - the calls that create directories, write and copy are recorded in
      the order they are made and are taken to succeed; what the build
      prints is left out;
    - an object passed to renderTemplate is the map of its own
      properties on top of the members every object inherits from
      [Object.prototype]. *)

From Stdlib Require Import ZArith NArith List Bool Lia Ascii String Sorted.
From stdpp Require Import gmap list.
Import ListNotations.

Local Open Scope list_scope.

(** ** JavaScript strings *)

Module JS.

Abbreviation char := N (only parsing).
Abbreviation jsstring := (list N) (only parsing).

(** An ASCII literal as a JS string. *)
Definition str (s : string) : jsstring :=
  List.map N_of_ascii (list_ascii_of_string s).
Arguments str s%_string.

(** An ASCII literal in which the caret stands for the double quote
    (code unit 34); used for the HTML template literals of the source. *)
Definition html (s : string) : jsstring :=
  List.map (fun c => if N.eqb c 94 then 34%N else c) (str s).
Arguments html s%_string.

Definition char_in (lo hi : N) (c : char) : bool := N.leb lo c && N.leb c hi.

(** [\s]: WhiteSpace and LineTerminator code units. *)
Definition is_space (c : char) : bool :=
  char_in 9 13 c || N.eqb c 32 || N.eqb c 160 || N.eqb c 5760
  || char_in 8192 8202 c || N.eqb c 8232 || N.eqb c 8233
  || N.eqb c 8239 || N.eqb c 8287 || N.eqb c 12288 || N.eqb c 65279.

Definition is_line_terminator (c : char) : bool :=
  N.eqb c 10 || N.eqb c 13 || N.eqb c 8232 || N.eqb c 8233.

Definition is_digit (c : char) : bool := char_in 48 57 c.

(** [\w] *)
Definition is_word (c : char) : bool :=
  char_in 97 122 c || char_in 65 90 c || is_digit c || N.eqb c 95.

Definition jsstring_eqb (a b : jsstring) : bool :=
  if decide (a = b) then true else false.

Fixpoint startsWith (p s : jsstring) : bool :=
  match p, s with
  | [], _ => true
  | c :: p', d :: s' => N.eqb c d && startsWith p' s'
  | _ :: _, [] => false
  end.

Definition endsWith (p s : jsstring) : bool := startsWith (rev p) (rev s).

(** [s.substring(a)] and [s.substring(0, n)] *)
Definition substring_from (a : nat) (s : jsstring) : jsstring := skipn a s.
Definition substring_to (n : nat) (s : jsstring) : jsstring := firstn n s.

Fixpoint trimStart (s : jsstring) : jsstring :=
  match s with
  | c :: t => if is_space c then trimStart t else s
  | [] => []
  end.

Definition trim (s : jsstring) : jsstring := rev (trimStart (rev (trimStart s))).

(** [Array.prototype.join] *)
Fixpoint join (sep : jsstring) (l : list jsstring) : jsstring :=
  match l with
  | [] => []
  | [x] => x
  | x :: rest => x ++ sep ++ join sep rest
  end.

(** [s.split(sep)] for a one-unit separator *)
Fixpoint split_char (sep : char) (s : jsstring) : list jsstring :=
  match s with
  | [] => [[]]
  | c :: t =>
      if N.eqb c sep then [] :: split_char sep t
      else match split_char sep t with
           | w :: ws => (c :: w) :: ws
           | [] => [[c]]
           end
  end.

(** Decimal rendering of a non-negative integer, [String(n)]. *)
Fixpoint digits_fuel (fuel : nat) (n : N) (acc : jsstring) : jsstring :=
  match fuel with
  | O => acc
  | S f =>
      let acc' := (48 + n mod 10)%N :: acc in
      if N.ltb n 10 then acc' else digits_fuel f (n / 10)%N acc'
  end.

Definition String_of_N (n : N) : jsstring := digits_fuel (S (N.to_nat (N.log2 n))) n [].

Definition String_of_Z (z : Z) : jsstring :=
  if Z.ltb z 0 then 45%N :: String_of_N (Z.to_N (- z)) else String_of_N (Z.to_N z).

(** [s.padStart(n, '0')] *)
Definition padStart0 (n : nat) (s : jsstring) : jsstring :=
  repeat 48%N (n - length s) ++ s.

(** *** Regular expressions *)

Inductive re :=
| Eps
| Chr (p : char -> bool)
| Seq (a b : re)
| Alt (a b : re)
| Star (greedy : bool) (a : re)
| Group (n : nat) (a : re)
| NegLook (a : re)
| Bol
| Eol.

Definition captures := list (nat * jsstring).

Fixpoint cap (n : nat) (cs : captures) : jsstring :=
  match cs with
  | [] => []
  | (k, v) :: rest => if Nat.eqb k n then v else cap n rest
  end.

(** A match state: index of the next unit, the units left, the captures. *)
Definition mstate := (nat * jsstring * captures)%type.
Definition cont := nat -> jsstring -> captures -> option mstate.

(** One quantifier loop; an iteration that consumes nothing is rejected,
    as in RepeatMatcher. *)
Fixpoint star_loop (body : nat -> jsstring -> captures -> cont -> option mstate)
    (greedy : bool) (k : cont) (fuel : nat)
    (i : nat) (s : jsstring) (cs : captures) : option mstate :=
  match fuel with
  | O => k i s cs
  | S fuel' =>
      let again :=
        body i s cs (fun i' s' cs' =>
          if Nat.ltb (length s') (length s)
          then star_loop body greedy k fuel' i' s' cs'
          else None) in
      if greedy then
        match again with Some r => Some r | None => k i s cs end
      else
        match k i s cs with Some r => Some r | None => again end
  end.

Fixpoint m (r : re) (i : nat) (s : jsstring) (cs : captures) (k : cont)
  : option mstate :=
  match r with
  | Eps => k i s cs
  | Chr p =>
      match s with
      | c :: t => if p c then k (S i) t cs else None
      | [] => None
      end
  | Seq a b => m a i s cs (fun i' s' cs' => m b i' s' cs' k)
  | Alt a b =>
      match m a i s cs k with
      | Some x => Some x
      | None => m b i s cs k
      end
  | Star g a => star_loop (m a) g k (length s) i s cs
  | Group n a =>
      m a i s cs (fun i' s' cs' => k i' s' ((n, firstn (i' - i) s) :: cs'))
  | NegLook a =>
      match m a i s cs (fun i' s' cs' => Some (i', s', cs')) with
      | Some _ => None
      | None => k i s cs
      end
  | Bol => if Nat.eqb i 0 then k i s cs else None
  | Eol => match s with [] => k i s cs | _ :: _ => None end
  end.

Definition chr (c : char) : re := Chr (N.eqb c).
Definition nl : re := chr 10%N.

Definition lit (c : string) : re :=
  match str c with
  | [x] => Chr (N.eqb x)
  | _ => Eps
  end.
Arguments lit c%_string.

Fixpoint lits (l : jsstring) : re :=
  match l with
  | [] => Eps
  | [c] => Chr (N.eqb c)
  | c :: t => Seq (Chr (N.eqb c)) (lits t)
  end.

Definition word (s : string) : re := lits (str s).
Arguments word s%_string.

Definition Plus (g : bool) (a : re) : re := Seq a (Star g a).
Definition Opt (a : re) : re := Alt a Eps.
Fixpoint seqs (l : list re) : re :=
  match l with
  | [] => Eps
  | [a] => a
  | a :: t => Seq a (seqs t)
  end.

Definition any : re := Chr (fun _ => true).                     (* [\s\S], or . under /s *)
Definition dot : re := Chr (fun c => negb (is_line_terminator c)). (* . *)
Definition space : re := Chr is_space.
Definition not_char (c : string) : re :=
  match str c with
  | [x] => Chr (fun d => negb (N.eqb x d))
  | _ => Eps
  end.
Arguments not_char c%_string.

(** The match attempt at index [i], [s] being the units from [i] on. *)
Definition exec_at (r : re) (i : nat) (s : jsstring) : option mstate :=
  m r i s [] (fun i' s' cs' => Some (i', s', cs')).

(** [r.exec(s)] without the global flag: the leftmost match.  The result
    is the start index and the state at the end of the match. *)
Fixpoint search (r : re) (i : nat) (s : jsstring) : option (nat * mstate) :=
  match exec_at r i s with
  | Some st => Some (i, st)
  | None =>
      match s with
      | [] => None
      | _ :: t => search r (S i) t
      end
  end.

Definition test (r : re) (s : jsstring) : bool :=
  match search r 0 s with Some _ => true | None => false end.

(** [s.replace(r, f)] for a global [r]; [f] receives the matched text and
    the captures. *)
Fixpoint replace_go (fuel : nat) (r : re) (f : jsstring -> captures -> jsstring)
    (i : nat) (s : jsstring) : jsstring :=
  match fuel with
  | O => s
  | S fuel' =>
      let step :=
        match s with
        | [] => []
        | c :: t => c :: replace_go fuel' r f (S i) t
        end in
      match exec_at r i s with
      | Some (e, rest, cs) =>
          let matched := firstn (e - i) s in
          if Nat.eqb e i then f matched cs ++ step
          else f matched cs ++ replace_go fuel' r f e rest
      | None => step
      end
  end.

Definition replace_all (r : re) (f : jsstring -> captures -> jsstring)
    (s : jsstring) : jsstring :=
  replace_go (S (length s)) r f 0 s.

(** Replacement by a fixed string without [$] patterns. *)
Definition replace_with (r : re) (by_ : jsstring) (s : jsstring) : jsstring :=
  replace_all r (fun _ _ => by_) s.

(** [s.split(r)] for a regular expression without capture groups.  [acc]
    holds, reversed, the piece pending since the last split point; a match
    that ends at the split point itself is skipped. *)
Fixpoint split_go (fuel : nat) (r : re) (acc : jsstring)
    (i : nat) (s : jsstring) : list jsstring :=
  match fuel with
  | O => [rev acc ++ s]
  | S fuel' =>
      match s with
      | [] => [rev acc]
      | c :: t =>
          match exec_at r i s with
          | Some (e, rest, _) =>
              if Nat.eqb e i then
                match acc with
                | [] => split_go fuel' r [c] (S i) t
                | _ :: _ => rev acc :: split_go fuel' r [c] (S i) t
                end
              else rev acc :: split_go fuel' r [] e rest
          | None => split_go fuel' r (c :: acc) (S i) t
          end
      end
  end.

Definition split (r : re) (s : jsstring) : list jsstring :=
  match s with
  | [] => match exec_at r 0 [] with Some _ => [] | None => [[]] end
  | _ => split_go (S (length s)) r [] 0 s
  end.

(** The [while ((x = r.exec(s)) !== null)] loop of a global regular
    expression: every match in turn, each search resuming where the
    previous match ended.  The fuel is enough for a regular expression
    whose matches are never empty (on an empty match the source loop
    would not advance). *)
Fixpoint exec_loop (fuel : nat) (r : re) (i : nat) (s : jsstring)
  : list (jsstring * captures) :=
  match fuel with
  | O => []
  | S fuel' =>
      match search r i s with
      | Some (b, (e, rest, cs)) =>
          (firstn (e - b) (skipn (b - i) s), cs) :: exec_loop fuel' r e rest
      | None => []
      end
  end.

Definition exec_all (r : re) (s : jsstring) : list (jsstring * captures) :=
  exec_loop (S (length s)) r 0 s.

End JS.

Import JS.

(** ** Dates: time values in milliseconds since the epoch *)

Module JSDate.

Local Open Scope Z_scope.

(** A Date object: its time value, [None] for NaN (an Invalid Date). *)
Definition t := option Z.

Definition msPerDay : Z := 86400000.

Definition TimeClip (v : Z) : t :=
  if Z.ltb 8640000000000000 (Z.abs v) then None else Some v.

(** Day number of the first of March-based civil date, proleptic Gregorian. *)
Definition days_from_civil (y m d : Z) : Z :=
  let y' := if Z.leb m 2 then y - 1 else y in
  let era := y' / 400 in
  let yoe := y' - era * 400 in
  let mp := if Z.ltb 2 m then m - 3 else m + 9 in
  let doy := (153 * mp + 2) / 5 + d - 1 in
  let doe := yoe * 365 + yoe / 4 - yoe / 100 + doy in
  era * 146097 + doe - 719468.

(** Year, month (1..12) and day of month of a day number. *)
Definition civil_from_days (z : Z) : Z * Z * Z :=
  let z' := z + 719468 in
  let era := z' / 146097 in
  let doe := z' - era * 146097 in
  let yoe := (doe - doe / 1460 + doe / 36524 - doe / 146096) / 365 in
  let doy := doe - (365 * yoe + yoe / 4 - yoe / 100) in
  let mp := (5 * doy + 2) / 153 in
  let d := doy - (153 * mp + 2) / 5 + 1 in
  let mo := if Z.ltb mp 10 then mp + 3 else mp - 9 in
  let y := yoe + era * 400 in
  (if Z.leb mo 2 then y + 1 else y, mo, d).

(** MakeDay: [month] is zero-based and may lie outside 0..11, [date] may
    lie outside the month. *)
Definition MakeDay (year month date : Z) : Z :=
  days_from_civil (year + month / 12) (month mod 12 + 1) 1 + date - 1.

Section Local.
(** Offset of local time from UTC, in milliseconds. *)
Variable tza : Z.

(** [new Date(year, monthIndex, day)] *)
Definition of_components (year month date : Z) : t :=
  let yr := if Z.leb 0 year && Z.leb year 99 then 1900 + year else year in
  TimeClip (MakeDay yr month date * msPerDay - tza).

Definition local_civil (v : Z) : Z * Z * Z := civil_from_days ((v + tza) / msPerDay).

Definition getFullYear (d : t) : option Z :=
  match d with Some v => Some (fst (fst (local_civil v))) | None => None end.
Definition getMonth (d : t) : option Z :=
  match d with Some v => Some (snd (fst (local_civil v)) - 1) | None => None end.
Definition getDate (d : t) : option Z :=
  match d with Some v => Some (snd (local_civil v)) | None => None end.

(** [d.setHours(0, 0, 0, 0)] on a valid date: local midnight of its day. *)
Definition startOfDay (v : Z) : Z := (v + tza) / msPerDay * msPerDay - tza.
End Local.

(** [String(x)] for a number that is an integer or NaN. *)
Definition String_of_number (x : option Z) : jsstring :=
  match x with Some z => String_of_Z z | None => str "NaN" end.

Definition pad (n : nat) (z : Z) : jsstring := padStart0 n (String_of_Z z).

(** [d.toISOString()]; a RangeError ([None]) on an Invalid Date. *)
Definition toISOString (d : t) : option jsstring :=
  match d with
  | None => None
  | Some v =>
      let '(y, mo, dd) := civil_from_days (v / msPerDay) in
      let ms := v mod msPerDay in
      let year :=
        if Z.leb 0 y && Z.leb y 9999 then pad 4 y
        else (if Z.ltb y 0 then str "-" else str "+") ++ pad 6 (Z.abs y) in
      Some (year ++ str "-" ++ pad 2 mo ++ str "-" ++ pad 2 dd ++ str "T"
            ++ pad 2 (ms / 3600000) ++ str ":" ++ pad 2 (ms / 60000 mod 60)
            ++ str ":" ++ pad 2 (ms / 1000 mod 60) ++ str "." ++ pad 3 (ms mod 1000)
            ++ str "Z")
  end.

(** [b - a] on two dates: NaN when either is invalid. *)
Definition diff (b a : t) : option Z :=
  match b, a with Some x, Some y => Some (x - y) | _, _ => None end.

End JSDate.

(** ** POSIX paths (node:path) *)

Module Path.

Definition slash : char := 47%N.

Definition is_dots (n : nat) (seg : jsstring) : bool :=
  jsstring_eqb seg (repeat 46%N n).

(** normalizeString: the segments left after resolving [.] and [..];
    [acc] is the reversed stack. *)
Fixpoint resolve (allowAboveRoot : bool) (acc : list jsstring) (segs : list jsstring)
  : list jsstring :=
  match segs with
  | [] => rev acc
  | seg :: rest =>
      if jsstring_eqb seg [] || is_dots 1 seg then resolve allowAboveRoot acc rest
      else if is_dots 2 seg then
        match acc with
        | top :: below =>
            if is_dots 2 top
            then resolve allowAboveRoot (if allowAboveRoot then seg :: acc else acc) rest
            else resolve allowAboveRoot below rest
        | [] => resolve allowAboveRoot (if allowAboveRoot then [seg] else []) rest
        end
      else resolve allowAboveRoot (seg :: acc) rest
  end.

Definition normalize (path : jsstring) : jsstring :=
  match path with
  | [] => str "."
  | c :: _ =>
      let isAbsolute := N.eqb c slash in
      let trailingSeparator := endsWith [slash] path in
      let p := JS.join [slash] (resolve (negb isAbsolute) [] (split_char slash path)) in
      match p with
      | [] => if isAbsolute then [slash] else if trailingSeparator then str "./" else str "."
      | _ :: _ =>
          let p' := if trailingSeparator then p ++ [slash] else p in
          if isAbsolute then slash :: p' else p'
      end
  end.

(** [join(...parts)] *)
Definition join (parts : list jsstring) : jsstring :=
  match List.filter (fun a => negb (jsstring_eqb a [])) parts with
  | [] => str "."
  | ps => normalize (JS.join [slash] ps)
  end.

Fixpoint drop_slashes (r : jsstring) : jsstring :=
  match r with
  | c :: t => if N.eqb c slash then drop_slashes t else r
  | [] => []
  end.

Fixpoint drop_component (r : jsstring) : jsstring :=
  match r with
  | c :: t => if N.eqb c slash then r else drop_component t
  | [] => []
  end.

Fixpoint take_component (r : jsstring) : jsstring :=
  match r with
  | c :: t => if N.eqb c slash then [] else c :: take_component t
  | [] => []
  end.

(** [dirname(path)]: the scan runs from the last unit down to index 1. *)
Definition dirname (path : jsstring) : jsstring :=
  match path with
  | [] => str "."
  | c :: rest =>
      let hasRoot := N.eqb c slash in
      match drop_component (drop_slashes (rev rest)) with
      | [] => if hasRoot then [slash] else str "."
      | _ :: before =>
          match before with
          | [] => if hasRoot then str "//" else [c]
          | _ :: _ => c :: rev before
          end
      end
  end.

(** [basename(path)] *)
Definition basename (path : jsstring) : jsstring :=
  rev (take_component (drop_slashes (rev path))).

(** [basename(path, suffix)] for a non-empty suffix without slashes. *)
Definition basename_ext (path suffix : jsstring) : jsstring :=
  if jsstring_eqb path suffix then []
  else
    let comp := basename path in
    if endsWith suffix comp && negb (jsstring_eqb comp suffix)
    then firstn (length comp - length suffix) comp
    else comp.

End Path.

(** ** The build script *)

Module Build.

Local Open Scope Z_scope.

(** *** Data model *)

(** A property that holds a string, [null] or [undefined]. *)
Inductive strval := Null | Undefined | Str (s : jsstring).

Definition truthy (v : strval) : bool :=
  match v with Str (_ :: _) => true | _ => false end.

(** [`${v}`] *)
Definition interp (v : strval) : jsstring :=
  match v with Null => str "null" | Undefined => str "undefined" | Str s => s end.

Definition strval_eqb (a b : strval) : bool :=
  match a, b with
  | Null, Null | Undefined, Undefined => true
  | Str x, Str y => jsstring_eqb x y
  | _, _ => false
  end.

(** [x || d] for an optional string property. *)
Definition or_else (x : option jsstring) (d : jsstring) : jsstring :=
  match x with Some (c :: s) => c :: s | _ => d end.

(** A value js-yaml gives for a key of the frontmatter, as far as the
    script looks at it: [null], a string, a sequence, or any other value
    (a number, a boolean, a Date, a mapping), of which the script sees
    whether it is truthy and what it converts to as a string.  A mapping
    is taken to have no key named [length], [map], [join], [toLowerCase]
    or [toString], which would stand in for a member the script looks
    up. *)
#[local] Unset Elimination Schemes.
Inductive value :=
| VNull
| VStr (s : jsstring)
| VArr (items : list value)
| VOther (truthy_ : bool) (text : jsstring).
#[local] Set Elimination Schemes.

Definition truthy_value (v : value) : bool :=
  match v with
  | VNull => false
  | VStr [] => false
  | VStr (_ :: _) => true
  | VArr _ => true
  | VOther b _ => b
  end.

(** [String(v)], which is also [`${v}`]; inside an array [null] is left
    out. *)
Fixpoint ToString (v : value) : jsstring :=
  match v with
  | VNull => str "null"
  | VStr s => s
  | VArr items =>
      JS.join (str ",")
        (List.map (fun x => match x with VNull => [] | _ => ToString x end) items)
  | VOther _ text => text
  end.

(** [arr.join(sep)] *)
Definition Array_join (sep : jsstring) (items : list value) : jsstring :=
  JS.join sep (List.map (fun x => match x with VNull => [] | _ => ToString x end) items).

(** [x || d] for a property that may be absent. *)
Definition or_value (x : option value) (d : value) : value :=
  match x with
  | Some v => if truthy_value v then v else d
  | None => d
  end.

(** The value of the frontmatter [date] key: a string, a Date (js-yaml
    turns a YAML timestamp into one) or a number. *)
Inductive DateInput :=
| DateString (s : jsstring)
| DateObject (d : JSDate.t)
| DateNumber (n : Z).

(** What js-yaml returned, restricted to the keys the build reads, each
    absent or holding a value.  A document that is a scalar or a sequence
    has none of the four. *)
Record Frontmatter := {
  fm_title : option value;
  fm_date : option DateInput;
  fm_description : option value;
  fm_tags : option value
}.

Record Article := {
  content : jsstring;
  title : value;
  date : JSDate.t;
  description : value;
  tags : value;
  filePath : jsstring;
  languages : list jsstring;   (* a Set, in insertion order *)
  images : list jsstring;
  isProject : bool;
  projectName : strval;
  url : jsstring;
  readTime : Z
}.

Definition set_images (a : Article) (imgs : list jsstring) : Article :=
  {| content := content a; title := title a; date := date a;
     description := description a; tags := tags a; filePath := filePath a;
     languages := languages a; images := imgs; isProject := isProject a;
     projectName := projectName a; url := url a; readTime := readTime a |}.

Definition set_languages (a : Article) (ls : list jsstring) : Article :=
  {| content := content a; title := title a; date := date a;
     description := description a; tags := tags a; filePath := filePath a;
     languages := ls; images := images a; isProject := isProject a;
     projectName := projectName a; url := url a; readTime := readTime a |}.

(** One record of search-index.json. *)
Record SearchRecord := {
  sr_title : value;
  sr_description : value;
  sr_url : jsstring;
  sr_date : jsstring;
  sr_readTime : Z;
  sr_projectName : strval;
  sr_content : jsstring;
  sr_languages : list jsstring;
  sr_tags : value
}.

Inductive exn :=
| Error (message : jsstring)
| YAMLException
| TypeError
| RangeError
| IOError.

(** *** The libraries and engine services the script calls *)

Inductive yaml_result :=
| YamlThrows
| YamlNullish                       (* undefined or null: an empty document *)
| YamlMapping (fm : Frontmatter).

(** What marked hands to the renderer, flattened in document order: markup
    it renders itself, a code token, an image token. *)
Inductive token :=
| Markup (h : jsstring)
| CodeTok (lang : option jsstring) (text : jsstring)
| ImageTok (href : jsstring) (title : option jsstring) (text : jsstring).

(** The first argument of the image hook: a target as a string, which is
    what the hook is written for, or the image token, which is what
    marked passes. *)
Inductive image_arg :=
| Href (s : jsstring)
| ImageToken (href : jsstring) (title : option jsstring) (text : jsstring).

(** [String(href)] *)
Definition String_of_arg (href : image_arg) : jsstring :=
  match href with
  | Href s => s
  | ImageToken _ _ _ => str "[object Object]"
  end.

Definition bind {A B} (x : exn + A) (f : A -> exn + B) : exn + B :=
  match x with inl e => inl e | inr a => f a end.

Fixpoint mapM {A B} (f : A -> exn + B) (l : list A) : exn + list B :=
  match l with
  | [] => inr []
  | x :: rest =>
      bind (f x) (fun y => bind (mapM f rest) (fun ys => inr (y :: ys)))
  end.

(** A loop that an exception leaves. *)
Fixpoint foldM {A B} (f : B -> A -> exn + B) (l : list A) (b : B) : exn + B :=
  match l with
  | [] => inr b
  | x :: rest => bind (f b x) (foldM f rest)
  end.

Class Libs := {
  yaml_load : jsstring -> yaml_result;
  marked_tokens : jsstring -> list token;
  (* new marked.Renderer().image(href, title, text) *)
  marked_image : image_arg -> strval -> strval -> exn + jsstring;
  hljs_listLanguages : list jsstring;
  hljs_getLanguage : jsstring -> bool;
  hljs_highlight : jsstring -> jsstring -> option jsstring;  (* None: throws *)
  Date_parse : jsstring -> JSDate.t;
  LocalTZA : Z;
  toLowerCase : jsstring -> jsstring;
  JSON_stringify : list SearchRecord -> jsstring;
  (* String(f) for the built-in function named [name] *)
  Function_toString : jsstring -> jsstring;
  (* arr.sort(compare) when [compare] is not a consistent order, which
     leaves the order to the engine *)
  Array_sort_inconsistent : list Article -> list Article;
  Array_sort_permutation :
    forall arr, Permutation arr (Array_sort_inconsistent arr)
}.

(** The module-level variables of the script. *)
Record Globals := {
  currentArticleLanguages : list jsstring;
  currentArticleForRenderer : option Article
}.

Definition initial_globals : Globals :=
  {| currentArticleLanguages := []; currentArticleForRenderer := None |}.

(** [set.add(x)] *)
Definition set_add (x : jsstring) (s : list jsstring) : list jsstring :=
  if existsb (jsstring_eqb x) s then s else s ++ [x].

Definition ARTICLES_DIR := str "./articles".
Definition TEMPLATES_DIR := str "./templates".
Definition DIST_DIR := str "./dist".

(** *** escapeHtml *)

Definition escapeHtml (s : jsstring) : jsstring :=
  replace_with (lit "'") (str "&#39;")
    (replace_with (chr 34) (str "&quot;")
      (replace_with (lit ">") (str "&gt;")
        (replace_with (lit "<") (str "&lt;")
          (replace_with (lit "&") (str "&amp;") s)))).

Section WithLibs.
Context {L : Libs}.

Definition SUPPORTED_LANGUAGES : list jsstring := hljs_listLanguages.

(** *** renderer.code *)

Definition highlighted_block (language value code : jsstring) : jsstring :=
    html "<div class=^code-block-wrapper^>
          <pre data-language=^"
    ++ language
    ++ html "^><code class=^hljs language-"
    ++ language
    ++ html "^>"
    ++ value
    ++ html "</code></pre>
          <button class=^code-copy-btn^ data-code=^"
    ++ escapeHtml code
    ++ html "^ aria-label=^Copy code^>
            <svg width=^16^ height=^16^ viewBox=^0 0 24 24^ fill=^none^ stroke=^currentColor^ stroke-width=^2^ stroke-linecap=^round^ stroke-linejoin=^round^>
              <rect x=^9^ y=^9^ width=^13^ height=^13^ rx=^2^ ry=^2^></rect>
              <path d=^M5 15H4a2 2 0 0 1-2-2V4a2 2 0 0 1 2-2h9a2 2 0 0 1 2 2v1^></path>
            </svg>
            <span class=^copy-text^>Copy</span>
          </button>
        </div>".

Definition plain_block (language : option jsstring) (code : jsstring) : jsstring :=
  let escapedCode := escapeHtml code in
    html "<div class=^code-block-wrapper^>
    <pre data-language=^"
    ++ or_else language (str "text")
    ++ html "^><code class=^language-"
    ++ or_else language []
    ++ html "^>"
    ++ escapedCode
    ++ html "</code></pre>
    <button class=^code-copy-btn^ data-code=^"
    ++ escapeHtml code
    ++ html "^ aria-label=^Copy code^>
      <svg width=^16^ height=^16^ viewBox=^0 0 24 24^ fill=^none^ stroke=^currentColor^ stroke-width=^2^ stroke-linecap=^round^ stroke-linejoin=^round^>
        <rect x=^9^ y=^9^ width=^13^ height=^13^ rx=^2^ ry=^2^></rect>
        <path d=^M5 15H4a2 2 0 0 1-2-2V4a2 2 0 0 1 2-2h9a2 2 0 0 1 2 2v1^></path>
      </svg>
      <span class=^copy-text^>Copy</span>
    </button>
  </div>".

(** The hook returns the markup and the updated set of used languages. *)
Definition renderer_code (langs : list jsstring) (lang : option jsstring)
    (text : jsstring) : list jsstring * jsstring :=
  match lang with
  | Some (c :: l) =>
      let language := c :: l in
      if existsb (jsstring_eqb language) SUPPORTED_LANGUAGES then
        let langs' := set_add language langs in
        if hljs_getLanguage language then
          match hljs_highlight text language with
          | Some value => (langs', highlighted_block language value text)
          | None => (langs', plain_block lang text)       (* caught, warned *)
          end
        else (langs', plain_block lang text)
      else (langs, plain_block lang text)
  | _ => (langs, plain_block lang text)
  end.

(** *** renderer.image *)

(** The regular expression [ /^(https?:)?\/\// ] *)
Definition absoluteRegex : re :=
  seqs [Bol; Opt (Group 1 (seqs [word "http"; Opt (lit "s"); lit ":"]));
        lit "/"; lit "/"].

(** The pattern is tested on [String(href)]; [startsWith] and
    [substring] are methods of strings only, and calling [startsWith] on
    a token is a TypeError. *)
Definition renderer_image (current : option Article) (href : image_arg)
    (title text : strval) : exn + jsstring :=
  match current with
  | Some article =>
      if negb (test absoluteRegex (String_of_arg href)) then
        match href with
        | Href s =>
            let imageName :=
              if startsWith (str "./") s then substring_from 2 s else s in
            let finalPath := Path.join [url article; imageName] in
            inr (html "<img src=^" ++ finalPath ++ html "^ alt=^" ++ interp text ++ html "^"
                 ++ (if truthy title then html " title=^" ++ interp title ++ html "^" else [])
                 ++ html ">")
        | ImageToken _ _ _ => inl TypeError
        end
      else marked_image href title text
  | None => marked_image href title text
  end.

(** [marked.parse(src)] with the two hooks installed.  Each hook is
    called with the token as its only argument; an exception of a hook
    leaves [marked.parse]. *)
Definition render_token (acc : Globals * jsstring) (tok : token)
  : exn + Globals * jsstring :=
  let '(g, out) := acc in
  match tok with
  | Markup h => inr (g, out ++ h)
  | CodeTok lang text =>
      let '(langs, h) := renderer_code (currentArticleLanguages g) lang text in
      inr ({| currentArticleLanguages := langs;
              currentArticleForRenderer := currentArticleForRenderer g |}, out ++ h)
  | ImageTok href title text =>
      bind (renderer_image (currentArticleForRenderer g) (ImageToken href title text)
              Undefined Undefined)
        (fun h => inr (g, out ++ h))
  end.

Definition marked_parse (g : Globals) (src : jsstring) : exn + Globals * jsstring :=
  foldM render_token (marked_tokens src) (g, []).

(** *** formatDateEuro *)

Definition formatDateEuro (d : JSDate.t) : jsstring :=
  let day := padStart0 2 (JSDate.String_of_number (JSDate.getDate LocalTZA d)) in
  let month :=
    padStart0 2 (JSDate.String_of_number
                   (option_map (fun mo => mo + 1) (JSDate.getMonth LocalTZA d))) in
  let year := JSDate.String_of_number (JSDate.getFullYear LocalTZA d) in
  day ++ str "-" ++ month ++ str "-" ++ year.

(** *** class Article *)

(** The regular expression [ /^\d{2}-\d{2}-\d{4}$/ ] *)
Definition euroDateRegex : re :=
  let d := Chr is_digit in
  seqs [Bol; d; d; lit "-"; d; d; lit "-"; d; d; d; d; Eol].

(** ToNumber on a string of decimal digits. *)
Definition number_of_digits (s : jsstring) : Z :=
  fold_left (fun acc c => 10 * acc + (Z.of_N c - 48)) s 0.

Definition parse_date (now : Z) (input : option DateInput) : JSDate.t :=
  let fromNow := JSDate.TimeClip now in
  match input with
  | Some (DateString []) | None => fromNow
  | Some (DateString s) =>
      if test euroDateRegex s then
        match split_char 45%N s with
        | [day; month; year] =>
            JSDate.of_components LocalTZA (number_of_digits year)
              (number_of_digits month - 1) (number_of_digits day)
        | _ => None
        end
      else Date_parse s
  | Some (DateNumber n) => if Z.eqb n 0 then fromNow else JSDate.TimeClip n
  | Some (DateObject d) => d
  end.

(** The regular expression [ /\s+/ ] *)
Definition whitespaceRegex : re := Plus true space.

Definition wordCount (content : jsstring) : nat :=
  length (List.filter (fun w => negb (jsstring_eqb w [])) (split whitespaceRegex content)).

(** [Math.ceil(a / b)] for integers [a >= 0], [b > 0]; at the sizes of a
    string length the float quotient rounds to the exact ceiling. *)
Definition ceil_div (a b : Z) : Z := - (- a / b).

(** [arr.indexOf(x)] *)
Fixpoint indexOf (x : jsstring) (l : list jsstring) : option nat :=
  match l with
  | [] => None
  | y :: rest =>
      if jsstring_eqb x y then Some O else option_map S (indexOf x rest)
  end.

Definition new_Article (now : Z) (content : jsstring) (frontmatter : Frontmatter)
    (filePath : jsstring) : Article :=
  let date := parse_date now (fm_date frontmatter) in
  let pathParts := split_char Path.slash filePath in
  let isProject := existsb (jsstring_eqb (str "projects")) pathParts in
  let projectName :=
    if isProject then
      match indexOf (str "projects") pathParts with
      | Some i => match nth_error pathParts (S i) with
                  | Some p => Str p
                  | None => Undefined
                  end
      | None => Undefined
      end
    else Null in
  let fileName := Path.basename_ext filePath (str ".md") in
  let url :=
    if isProject then
      str "/articles/projects/" ++ interp projectName ++ str "/" ++ fileName
    else
      let year := JSDate.getFullYear LocalTZA date in
      str "/articles/" ++ JSDate.String_of_number year ++ str "/" ++ fileName in
  {| content := content;
     title := or_value (fm_title frontmatter) (VStr (str "Untitled"));
     date := date;
     description := or_value (fm_description frontmatter) (VStr []);
     tags := or_value (fm_tags frontmatter) (VArr []);
     filePath := filePath;
     languages := [];
     images := [];
     isProject := isProject;
     projectName := projectName;
     url := url;
     readTime := ceil_div (Z.of_nat (wordCount content)) 200 |}.

(** *** parseMarkdownFile *)

(** The regular expression [ /^---\s*\n(.*?)\n---\s*\n(REST)/s ], where
    REST, the second group, is a greedy dot-star. *)
Definition frontmatterRegex : re :=
  seqs [Bol; word "---"; Star true space; nl; Group 1 (Star false any); nl;
        word "---"; Star true space; nl; Group 2 (Star true any)].

(** The regular expression [ /!\[.*?\]\((?!https?:\/\/)(.*?)\)/g ] *)
Definition imageRegex : re :=
  seqs [lit "!"; lit "["; Star false dot; lit "]"; lit "(";
        NegLook (seqs [word "http"; Opt (lit "s"); word "://"]);
        Group 1 (Star false dot); lit ")"].

(** The loop that pushes [imageMatch[1]] for every match. *)
Definition extract_images (markdownContent : jsstring) : list jsstring :=
  List.map (fun mt => cap 1 (snd mt)) (exec_all imageRegex markdownContent).

Definition no_frontmatter (filePath : jsstring) : exn :=
  Error (str "No frontmatter found in " ++ filePath).

(** [file] is what [readFile(filePath, 'utf-8')] resolves to, [None] when
    it rejects.  [now] is the reading of [Date.now()]. *)
Definition parseMarkdownFile (now : Z) (g : Globals) (filePath : jsstring)
    (file : option jsstring) : exn + Globals * Article :=
  match file with
  | None => inl IOError
  | Some content_ =>
      match search frontmatterRegex 0 content_ with
      | None => inl (no_frontmatter filePath)
      | Some (_, (_, _, cs)) =>
          match yaml_load (cap 1 cs) with
          | YamlThrows => inl YAMLException
          | YamlNullish => inl TypeError      (* frontmatter.title *)
          | YamlMapping frontmatter =>
              let markdownContent := cap 2 cs in
              let article := new_Article now markdownContent frontmatter filePath in
              let article := set_images article (extract_images markdownContent) in
              let g1 := {| currentArticleLanguages := [];
                           currentArticleForRenderer := Some article |} in
              bind (marked_parse g1 (content article)) (fun parsed =>
                let g2 := fst parsed in
                let g3 := {| currentArticleLanguages := currentArticleLanguages g2;
                             currentArticleForRenderer := None |} in
                inr (g3, set_languages article (currentArticleLanguages g3)))
          end
      end
  end.

(** *** renderTemplate *)

(** The regular expression [ /\{\{(\w+)\}\}/g ] *)
Definition tokenRegex : re :=
  seqs [lit "{"; lit "{"; Group 1 (Plus true (Chr is_word)); lit "}"; lit "}"].

(** The functions an object literal inherits from [Object.prototype]:
    the name of the property and the name of the function. *)
Definition Object_prototype_functions : list (jsstring * jsstring) :=
  [ (str "constructor", str "Object");
    (str "hasOwnProperty", str "hasOwnProperty");
    (str "isPrototypeOf", str "isPrototypeOf");
    (str "propertyIsEnumerable", str "propertyIsEnumerable");
    (str "toLocaleString", str "toLocaleString");
    (str "toString", str "toString");
    (str "valueOf", str "valueOf");
    (str "__defineGetter__", str "__defineGetter__");
    (str "__defineSetter__", str "__defineSetter__");
    (str "__lookupGetter__", str "__lookupGetter__");
    (str "__lookupSetter__", str "__lookupSetter__") ].

Fixpoint assoc {A} (key : jsstring) (table : list (jsstring * A)) : option A :=
  match table with
  | [] => None
  | (k, v) :: rest => if jsstring_eqb key k then Some v else assoc key rest
  end.

(** What an object literal without own property [key] gives for
    [data[key]]: a function of [Object.prototype], the prototype itself
    for [__proto__], [undefined] otherwise. *)
Definition inherited (key : jsstring) : option value :=
  if jsstring_eqb key (str "__proto__") then Some (VOther true (str "[object Object]"))
  else option_map (fun name => VOther true (Function_toString name))
         (assoc key Object_prototype_functions).

(** [data[key]], [data] being the own properties of the object. *)
Definition get (data : gmap jsstring value) (key : jsstring) : option value :=
  match data !! key with
  | Some v => Some v
  | None => inherited key
  end.

(** What the callback returns, [data[key] || ''], as [replace] inserts
    it. *)
Definition inserted (data : gmap jsstring value) (key : jsstring) : jsstring :=
  ToString (or_value (get data key) (VStr [])).

Definition renderTemplate (template : jsstring) (data : gmap jsstring value)
  : jsstring :=
  replace_all tokenRegex (fun _ cs => inserted data (cap 1 cs)) template.

Record Templates := {
  t_layout : jsstring;
  t_index : jsstring;
  t_article : jsstring;
  t_projects : jsstring;
  t_404 : jsstring
}.

Definition layout_page (templates : Templates) (title description : value)
    (content styles : jsstring) : jsstring :=
  renderTemplate (t_layout templates)
    (<[str "title" := title]> (<[str "description" := description]>
      (<[str "content" := VStr content]> (<[str "styles" := VStr styles]> ∅)))).

(** [tags.length > 0 ? `<div ...>${tags.map(...).join('')}</div>` : ''],
    shared by the article page and the index card.  A string has a length
    and no [map]; a number, a boolean, a Date or a mapping has no length,
    and [undefined > 0] is false. *)
Definition tag_badges (ts : value) : exn + jsstring :=
  match ts with
  | VArr [] => inr []
  | VArr items =>
      inr (html "<div class=^tags-container^>"
           ++ JS.join [] (List.map (fun tag => html "<span class=^tag-badge^>"
                                                ++ ToString tag ++ html "</span>") items)
           ++ html "</div>")
  | VStr [] => inr []
  | VStr (_ :: _) => inl TypeError
  | VNull => inl TypeError
  | VOther _ _ => inr []
  end.

(** *** generateArticleHTML *)

Definition generateArticleHTML (g : Globals) (article : Article)
    (templates : Templates) (styles : jsstring) : exn + Globals * jsstring :=
  let formattedDate := formatDateEuro (date article) in
  let g1 := {| currentArticleLanguages := currentArticleLanguages g;
               currentArticleForRenderer := Some article |} in
  bind (marked_parse g1 (content article)) (fun parsed =>
  let '(g2, htmlContent) := parsed in
  let g3 := {| currentArticleLanguages := currentArticleLanguages g2;
               currentArticleForRenderer := None |} in
  let projectBadge :=
    if truthy (projectName article)
    then html "<span class=^project-badge^>" ++ interp (projectName article) ++ html "</span>"
    else [] in
  bind (tag_badges (tags article)) (fun tagsBlock =>
  let descriptionBlock :=
    if truthy_value (description article)
    then html "<p class=^article-description^>" ++ ToString (description article)
         ++ html "</p>"
    else [] in
  let articleContent :=
    renderTemplate (t_article templates)
      (<[str "title" := title article]> (<[str "content" := VStr htmlContent]>
        (<[str "date" := VStr formattedDate]>
          (<[str "readTime" := VStr (String_of_Z (readTime article) ++ str " min read")]>
            (<[str "projectBadge" := VStr projectBadge]>
              (<[str "tagsBlock" := VStr tagsBlock]>
                (<[str "descriptionBlock" := VStr descriptionBlock]> ∅))))))) in
  inr (g3, layout_page templates (title article) (description article) articleContent
             styles))).

End WithLibs.


(** *** Array.prototype.sort *)

(** The comparator of the source, [(a, b) => b.date - a.date]; the
    difference is NaN when either date is invalid. *)
Definition byDateDesc (a b : Article) : option Z := JSDate.diff (date b) (date a).

(** With valid dates the comparator is a consistent order and the sort,
    which is stable, returns the array a stable insertion sort
    returns. *)
Fixpoint sort_insert (x : Article) (sorted : list Article) : list Article :=
  match sorted with
  | [] => [x]
  | y :: rest =>
      match byDateDesc y x with
      | Some v => if Z.ltb 0 v then x :: sorted else y :: sort_insert x rest
      | None => y :: sort_insert x rest
      end
  end.

Definition stable_sort (arr : list Article) : list Article :=
  fold_left (fun sorted x => sort_insert x sorted) arr [].

Definition has_valid_date (a : Article) : bool :=
  match date a with Some _ => true | None => false end.

(** [arr.sort((a, b) => b.date - a.date)].  With an Invalid Date in the
    array the comparator need not be a consistent order (the difference
    with an Invalid Date is NaN, which counts as equal); the result is
    then the engine's, of which only that it is a permutation is
    known. *)
Definition sort_articles {L : Libs} (arr : list Article) : list Article :=
  if forallb has_valid_date arr then stable_sort arr else Array_sort_inconsistent arr.

(** *** Exceptions *)

Definition toISOString (d : JSDate.t) : exn + jsstring :=
  match JSDate.toISOString d with Some s => inr s | None => inl RangeError end.

(** Bounded repetition [a{1,n+1}], greedy. *)
Fixpoint upto (n : nat) (a : re) : re :=
  match n with
  | O => Eps
  | S n' => Opt (Seq a (upto n' a))
  end.

Definition fenceRegex : re := seqs [word "```"; Star false any; word "```"].
Definition imageSyntaxRegex : re :=
  seqs [lit "!"; lit "["; Star false dot; lit "]"; lit "("; Star false dot; lit ")"].
Definition tagRegex : re := seqs [lit "<"; Star true (not_char ">"); lit ">"].

Section Pages.
Context {L : Libs}.

(** *** generateIndexHTML *)

Definition cleanContent (content : jsstring) : jsstring :=
  let group1 := fun (_ : jsstring) (cs : captures) => cap 1 cs in
  let s := replace_with fenceRegex [] content in
  let s := replace_with imageSyntaxRegex [] s in
  let s := replace_with (seqs [lit "`"; Star true (not_char "`"); lit "`"]) [] s in
  let s := replace_with (seqs [lit "#"; upto 5 (lit "#"); Plus true space]) [] s in
  let s := replace_all (seqs [lit "*"; lit "*"; Group 1 (Plus true (not_char "*"));
                              lit "*"; lit "*"]) group1 s in
  let s := replace_all (seqs [lit "*"; Group 1 (Plus true (not_char "*")); lit "*"])
             group1 s in
  let s := replace_all (seqs [lit "["; Group 1 (Plus true (not_char "]")); lit "]";
                              lit "("; Plus true (not_char ")"); lit ")"]) group1 s in
  let s := replace_with
             (Chr (fun c => N.eqb c 62 || N.eqb c 45 || N.eqb c 42 || N.eqb c 43)) [] s in
  let s := replace_with (Plus true nl) (str " ") s in
  let s := replace_with (Plus true space) (str " ") s in
  substring_to 100 (trim s).

Definition escapeAttr (s : jsstring) : jsstring :=
  replace_with (chr 34) (str "&quot;") s.

(** [article.title.toLowerCase()]: a method of strings only. *)
Definition title_toLowerCase (t : value) : exn + jsstring :=
  match t with
  | VStr s => inr (toLowerCase s)
  | _ => inl TypeError
  end.

(** [article.tags.join(' ')]: a method of arrays only. *)
Definition tags_join (ts : value) : exn + jsstring :=
  match ts with
  | VArr items => inr (Array_join (str " ") items)
  | _ => inl TypeError
  end.

(** The card of one article.  The template literal is evaluated from left
    to right: the title in lower case, the tags joined, the date in ISO
    form. *)
Definition article_card (article : Article) : exn + jsstring :=
  let formattedDate := formatDateEuro (date article) in
  let readTime_ := String_of_Z (readTime article) ++ str " min read" in
  let projectBadge :=
    if isProject article
    then html "<span class=^project-badge^>" ++ interp (projectName article) ++ html "</span>"
    else [] in
  bind (tag_badges (tags article)) (fun tagsList =>
  let cleanContent_ := cleanContent (content article) in
  bind (title_toLowerCase (title article)) (fun lowerTitle =>
  bind (tags_join (tags article)) (fun joinedTags =>
  bind (toISOString (date article)) (fun iso => inr (
    html "
      <article class=^article-card^
               data-title=^"
    ++ escapeAttr lowerTitle
    ++ html "^
               data-content=^"
    ++ escapeAttr (toLowerCase cleanContent_)
    ++ html "^
               data-project=^"
    ++ escapeAttr (if truthy (projectName article) then interp (projectName article) else [])
    ++ html "^
               data-tags=^"
    ++ escapeAttr (toLowerCase joinedTags)
    ++ html "^>
        <div class=^article-meta^>
          <time datetime=^"
    ++ iso
    ++ html "^>"
    ++ formattedDate
    ++ html "</time>
          <span class=^meta-separator^>"
    ++ [183%N]
    ++ html "</span>
          <span class=^read-time^>"
    ++ readTime_
    ++ html "</span>
          "
    ++ projectBadge
    ++ html "
        </div>
        <h2><a href=^"
    ++ url article
    ++ html "^>"
    ++ ToString (title article)
    ++ html "</a></h2>
        <p class=^article-description^>"
    ++ ToString (description article)
    ++ html "</p>
        "
    ++ tagsList
    ++ html "
      </article>
    "))))).

(** The array is sorted in place: the first component is the array the
    caller holds afterwards. *)
Definition generateIndexHTML (articles : list Article) (templates : Templates)
    (styles : jsstring) : list Article * (exn + jsstring) :=
  let sortedArticles := sort_articles articles in
  (sortedArticles,
   bind (mapM article_card sortedArticles) (fun cards =>
     let articlesList := JS.join [] cards in
     let indexContent :=
       renderTemplate (t_index templates) (<[str "articles" := VStr articlesList]> ∅) in
     inr (layout_page templates (VStr (str "Albert BF's Blog"))
            (VStr (str "My personal minimalist technical blog")) indexContent styles))).

(** *** generateProjectsHTML *)

(** The Map of the source, in insertion order. *)
Fixpoint map_push (k : strval) (a : Article) (mp : list (strval * list Article))
  : list (strval * list Article) :=
  match mp with
  | [] => [(k, [a])]
  | (k', l) :: rest =>
      if strval_eqb k k' then (k', l ++ [a]) :: rest
      else (k', l) :: map_push k a rest
  end.

Definition project_article (article : Article) : exn + jsstring :=
  let formattedDate := formatDateEuro (date article) in
  let readTime_ := String_of_Z (readTime article) ++ str " min read" in
  bind (toISOString (date article)) (fun iso => inr (
    html "
        <li class=^project-article^>
          <a href=^"
    ++ url article
    ++ html "^>"
    ++ ToString (title article)
    ++ html "</a>
          <div class=^project-article-meta^>
            <time datetime=^"
    ++ iso
    ++ html "^>"
    ++ formattedDate
    ++ html "</time>
            <span class=^meta-separator^>"
    ++ [183%N]
    ++ html "</span>
            <span class=^read-time^>"
    ++ readTime_
    ++ html "</span>
          </div>
        </li>
      ")).

Definition project_section (entry : strval * list Article) : exn + jsstring :=
  let '(projectName_, articles) := entry in
  bind (mapM project_article articles) (fun items =>
    let articlesList := JS.join [] items in
    inr (
    html "
      <div class=^project-section minimal-card^>
        <h2>"
    ++ interp projectName_
    ++ html "</h2>
        <ul class=^project-articles^>
          "
    ++ articlesList
    ++ html "
        </ul>
      </div>
    ")).

Definition generateProjectsHTML (articles : list Article) (templates : Templates)
    (styles : jsstring) : exn + jsstring :=
  let projectArticles := List.filter isProject articles in
  let projectsMap :=
    fold_left (fun mp a => map_push (projectName a) a mp) projectArticles [] in
  let projectsMap := List.map (fun e => (fst e, sort_articles (snd e))) projectsMap in
  bind (mapM project_section projectsMap) (fun sections =>
    let projectsList := JS.join [] sections in
    let projectsContent :=
      renderTemplate (t_projects templates) (<[str "projects" := VStr projectsList]> ∅) in
    inr (layout_page templates (VStr (str "Albert BF's Projects"))
           (VStr (str "A collection of my projects and their related articles"))
           projectsContent styles)).

Definition generate404HTML (templates : Templates) (styles : jsstring) : jsstring :=
  layout_page templates (VStr (str "404 - Not Found"))
    (VStr (str "The page you were looking for could not be found."))
    (t_404 templates) styles.

(** *** generateSearchIndex *)

Definition excerpt (content : jsstring) : jsstring :=
  substring_to 300
    (trim (replace_with (Plus true space) (str " ")
             (replace_with tagRegex []
                (replace_with imageSyntaxRegex []
                   (replace_with fenceRegex [] content))))).

Definition search_record (article : Article) : exn + SearchRecord :=
  bind (toISOString (date article)) (fun iso => inr
    {| sr_title := title article;
       sr_description := description article;
       sr_url := url article;
       sr_date := iso;
       sr_readTime := readTime article;
       sr_projectName := projectName article;
       sr_content := excerpt (content article);
       sr_languages := languages article;
       sr_tags := or_value (Some (tags article)) (VArr []) |}).

Definition generateSearchIndex (articles : list Article) : exn + list SearchRecord :=
  mapM search_record articles.

(** *** The file system and the build *)

(** An entry of the articles tree; a file carries what reading it gives,
    [None] when the read fails. *)
#[local] Unset Elimination Schemes.
Inductive node :=
| File (data : option jsstring)
| Dir (entries : list (jsstring * node)).
#[local] Set Elimination Schemes.

Fixpoint walk (fullPath entry : jsstring) (n : node) : list (jsstring * option jsstring) :=
  match n with
  | Dir entries =>
      (fix each (es : list (jsstring * node)) :=
         match es with
         | [] => []
         | (name, child) :: rest => walk (Path.join [fullPath; name]) name child ++ each rest
         end) entries
  | File data => if endsWith (str ".md") entry then [(fullPath, data)] else []
  end.

(** Every markdown file under [dir], depth first, with its content. *)
Definition findMarkdownFiles (dir : jsstring) (entries : list (jsstring * node))
  : list (jsstring * option jsstring) :=
  flat_map (fun e => walk (Path.join [dir; fst e]) (fst e) (snd e)) entries.

(** What the build reads.  Writing and creating directories are taken to
    succeed; console output is not modelled. *)
Record World := {
  styles_css : option jsstring;                 (* ./src/styles.css *)
  template_file : jsstring -> option jsstring;  (* ./templates/<name> *)
  articles_tree : option (list (jsstring * node))  (* readdir of ./articles *)
}.

Definition loadTemplates (w : World) : exn + Templates :=
  let read := fun (name : jsstring) =>
    match template_file w name with Some t => inr t | None => inl IOError end in
  bind (read (str "layout.html")) (fun layout =>
  bind (read (str "index.html")) (fun index =>
  bind (read (str "article.html")) (fun article =>
  bind (read (str "projects.html")) (fun projects =>
  bind (read (str "404.html")) (fun notFound =>
  inr {| t_layout := layout; t_index := index; t_article := article;
         t_projects := projects; t_404 := notFound |}))))).

(** The calls that change the output tree, in order.  [Cp] records the
    call; a failing per-article copy is logged and the build goes on. *)
Inductive effect :=
| Mkdir (dir : jsstring)
| WriteFile (path data : jsstring)
| Cp (src dst : jsstring)
| CpRecursive (src dst : jsstring).

Inductive status := Completed | Exit (code : Z).

Record Outcome := { effects : list effect; final : status }.

(** [Promise.all(markdownFiles.map(async file => ...))]: what follows the
    read of a file runs without interruption, so the files are taken in
    array order; the first failure calls [process.exit(1)]. *)
Fixpoint parse_all (now : Z) (g : Globals) (files : list (jsstring * option jsstring))
  : exn + Globals * list Article :=
  match files with
  | [] => inr (g, [])
  | (path, data) :: rest =>
      bind (parseMarkdownFile now g path data) (fun ga =>
      bind (parse_all now (fst ga) rest) (fun gas =>
      inr (fst gas, snd ga :: snd gas)))
  end.

Definition outputPath (article : Article) : jsstring :=
  Path.join [DIST_DIR; substring_from 1 (url article); str "index.html"].

Definition copy_image (article : Article) (imagePath : jsstring) : effect :=
  let articleSrcDir := Path.dirname (filePath article) in
  let srcImagePath := Path.join [articleSrcDir; imagePath] in
  let destImagePath := Path.join [Path.dirname (outputPath article); Path.basename imagePath] in
  Cp srcImagePath destImagePath.

(** One round of the loop over the articles.  The state is the calls
    made so far and the globals, or the exception that has left the
    loop. *)
Definition write_article (templates : Templates) (styles : jsstring)
    (acc : list effect * (exn + Globals)) (article : Article)
  : list effect * (exn + Globals) :=
  match acc with
  | (fx, inl e) => (fx, inl e)
  | (fx, inr g) =>
      match generateArticleHTML g article templates styles with
      | inl e => (fx, inl e)
      | inr (g', articleHTML) =>
          (fx ++ [Mkdir (Path.dirname (outputPath article));
                  WriteFile (outputPath article) articleHTML]
              ++ List.map (copy_image article) (images article),
           inr g')
      end
  end.

Definition failed (fx : list effect) : Outcome := {| effects := fx; final := Exit 1 |}.

Definition build (w : World) (now : Z) : Outcome :=
  let fx := [Mkdir DIST_DIR] in
  match styles_css w with
  | None => failed fx
  | Some styles =>
  match loadTemplates w with
  | inl _ => failed fx
  | inr templates =>
  match articles_tree w with
  | None => failed fx
  | Some entries =>
  let markdownFiles := findMarkdownFiles ARTICLES_DIR entries in
  match parse_all now initial_globals markdownFiles with
  | inl _ => failed fx
  | inr (g, articles) =>
  match fold_left (write_article templates styles) articles (fx, inr g) with
  | (fx, inl _) => failed fx
  | (fx, inr _) =>
  let '(articles, indexHTML) := generateIndexHTML articles templates styles in
  match indexHTML with
  | inl _ => failed fx
  | inr indexHTML =>
  let fx := fx ++ [WriteFile (Path.join [DIST_DIR; str "index.html"]) indexHTML] in
  match generateProjectsHTML articles templates styles with
  | inl _ => failed fx
  | inr projectsHTML =>
  let fx := fx ++ [Mkdir (Path.join [DIST_DIR; str "projects"]);
                   WriteFile (Path.join [DIST_DIR; str "projects"; str "index.html"])
                     projectsHTML] in
  let destImagesDir := Path.join [DIST_DIR; str "images"] in
  let fx := fx ++ [Mkdir destImagesDir; CpRecursive (str "./src/images") destImagesDir] in
  match generateSearchIndex articles with
  | inl _ => failed fx
  | inr searchIndex =>
  let fx := fx ++ [WriteFile (Path.join [DIST_DIR; str "search-index.json"])
                     (JSON_stringify searchIndex)] in
  let notFoundHTML := generate404HTML templates styles in
  {| effects := fx ++ [WriteFile (Path.join [DIST_DIR; str "404.html"]) notFoundHTML];
     final := Completed |}
  end end end end end end end end.

End Pages.

End Build.

(** * Specification-level notions the properties are stated with *)

Module Spec.

Import Build.

(** Length of the longest prefix whose units satisfy [p]. *)
Fixpoint run (p : char -> bool) (s : jsstring) : nat :=
  match s with
  | c :: t => if p c then S (run p t) else O
  | [] => O
  end.

(** What a greedy, resp. lazy, star over one character class does: the
    continuation is tried after the longest run first, resp. the shortest. *)
Fixpoint pick_greedy (p : char -> bool) (k : cont) (i : nat) (s : jsstring)
    (cs : captures) : option mstate :=
  match s with
  | c :: t =>
      if p c then
        match pick_greedy p k (S i) t cs with
        | Some r => Some r
        | None => k i s cs
        end
      else k i s cs
  | [] => k i s cs
  end.

Fixpoint pick_lazy (p : char -> bool) (k : cont) (i : nat) (s : jsstring)
    (cs : captures) : option mstate :=
  match k i s cs with
  | Some r => Some r
  | None =>
      match s with
      | c :: t => if p c then pick_lazy p k (S i) t cs else None
      | [] => None
      end
  end.

(** Whitespace-delimited tokens: the maximal runs of non-whitespace units.
    [inword] tells whether the preceding unit belongs to a token. *)
Fixpoint count_tokens (inword : bool) (s : jsstring) : nat :=
  match s with
  | [] => O
  | c :: t =>
      if is_space c then count_tokens false t
      else (if inword then O else 1%nat) + count_tokens true t
  end.

Definition tokens (s : jsstring) : nat := count_tokens false s.

(** [x] occurs in [s] as a contiguous piece. *)
Definition infix_of (x s : jsstring) : Prop := exists a b, s = a ++ x ++ b.

Fixpoint is_infix (x s : jsstring) : bool :=
  startsWith x s || match s with [] => false | _ :: t => is_infix x t end.


Definition nonempty (w : jsstring) : bool := negb (jsstring_eqb w []).

(** What escapeHtml does to one unit. *)
Definition escape_unit (c : char) : jsstring :=
  if N.eqb c 38 then str "&amp;"
  else if N.eqb c 60 then str "&lt;"
  else if N.eqb c 62 then str "&gt;"
  else if N.eqb c 34 then str "&quot;"
  else if N.eqb c 39 then str "&#39;"
  else [c].

(** No angle bracket and no quote: nothing that opens a tag or closes
    the attribute the text sits in. *)
Definition markup_free (s : jsstring) : Prop :=
  Forall (fun c => c <> 60%N /\ c <> 62%N /\ c <> 34%N /\ c <> 39%N) s.

Definition spaces (n : nat) : jsstring := repeat 32%N n.

(** The shape shared by the two code blocks: an opening part with the
    code, the button that carries the text to copy, a closing part.
    [base] is the indentation of the closing line. *)
Definition code_open (base : nat) (dataLanguage codeClass inner : jsstring) : jsstring :=
  html "<div class=^code-block-wrapper^>" ++ [10%N]
  ++ spaces (base + 2) ++ html "<pre data-language=^" ++ dataLanguage
  ++ html "^><code class=^" ++ codeClass ++ html "^>" ++ inner
  ++ html "</code></pre>" ++ [10%N]
  ++ spaces (base + 2).

Definition copy_button (copyText : jsstring) : jsstring :=
  html "<button class=^code-copy-btn^ data-code=^" ++ copyText
  ++ html "^ aria-label=^Copy code^>".

Definition code_close (base : nat) : jsstring :=
  [10%N] ++ spaces (base + 4)
  ++ html "<svg width=^16^ height=^16^ viewBox=^0 0 24 24^ fill=^none^ stroke=^currentColor^ stroke-width=^2^ stroke-linecap=^round^ stroke-linejoin=^round^>"
  ++ [10%N]
  ++ spaces (base + 6)
  ++ html "<rect x=^9^ y=^9^ width=^13^ height=^13^ rx=^2^ ry=^2^></rect>" ++ [10%N]
  ++ spaces (base + 6)
  ++ html "<path d=^M5 15H4a2 2 0 0 1-2-2V4a2 2 0 0 1 2-2h9a2 2 0 0 1 2 2v1^></path>"
  ++ [10%N]
  ++ spaces (base + 4) ++ html "</svg>" ++ [10%N]
  ++ spaces (base + 4) ++ html "<span class=^copy-text^>Copy</span>" ++ [10%N]
  ++ spaces (base + 2) ++ html "</button>" ++ [10%N]
  ++ spaces base ++ html "</div>".

Definition code_wrapper (base : nat) (dataLanguage codeClass inner copyText : jsstring)
  : jsstring :=
  code_open base dataLanguage codeClass inner ++ copy_button copyText ++ code_close base.

(** The element that carries the text to copy. *)
Definition copy_marker (code : jsstring) : jsstring := copy_button (escapeHtml code).

(** Index of the first place where [x] occurs in [s]. *)
Fixpoint find (x s : jsstring) : option nat :=
  if startsWith x s then Some O
  else match s with
       | [] => None
       | _ :: t => option_map S (find x t)
       end.

(** One pass over a text, from left to right.  Where [span] finds a
    stretch (its length and what it holds), the stretch is replaced by
    what [f] makes of it and the pass goes on behind it; every other unit
    is kept.  [skip] counts the units of a stretch still to be passed. *)
Fixpoint pass {T} (span : jsstring -> option (nat * T)) (f : T -> jsstring)
    (skip : nat) (s : jsstring) : jsstring :=
  match s with
  | [] => []
  | c :: t =>
      match skip with
      | S k => pass span f k t
      | O =>
          match span s with
          | Some (n, x) => f x ++ pass span f (n - 1) t
          | None => c :: pass span f 0 t
          end
      end
  end.







(** A code fence a text begins with: three backticks and everything up to
    the next three. *)
Definition fence_at (s : jsstring) : option (nat * unit) :=
  if startsWith (str "```") s
  then option_map (fun j => ((6 + j)%nat, tt)) (find (str "```") (skipn 3 s))
  else None.

(** The rest of the line a text begins with. *)
Definition line_of (s : jsstring) : jsstring :=
  firstn (run (fun c => negb (is_line_terminator c)) s) s.

(** Image syntax a text begins with, within one line: an exclamation
    mark, an alternative text in brackets up to the first [](], a target
    up to the first closing parenthesis. *)
Definition image_at (s : jsstring) : option (nat * unit) :=
  if startsWith (str "![") s then
    let line := line_of (skipn 2 s) in
    match find (str "](") line with
    | Some j =>
        option_map (fun k => ((5 + j + k)%nat, tt))
          (find (str ")") (skipn (j + 2) line))
    | None => None
    end
  else None.

(** A tag a text begins with: an opening angle bracket and everything up
    to the next closing one. *)
Definition tag_at (s : jsstring) : option (nat * unit) :=
  if startsWith (str "<") s
  then option_map (fun j => ((2 + j)%nat, tt)) (find (str ">") (skipn 1 s))
  else None.

(** The run of white space a text begins with. *)
Definition blank_at (s : jsstring) : option (nat * unit) :=
  match run is_space s with
  | O => None
  | S n => Some (S n, tt)
  end.

(** The excerpt of the search index, in the words of its contract: code
    fences are taken out, then image syntax, then tags; every run of
    white space becomes one space; the text is trimmed and cut to 300
    units. *)
Definition plain_excerpt (body : jsstring) : jsstring :=
  let without := fun (_ : unit) => @nil N in
  firstn 300
    (trim (pass blank_at (fun _ => str " ") 0
             (pass tag_at without 0
                (pass image_at without 0
                   (pass fence_at without 0 body))))).

(** The frontmatter layout: a line of three dashes, the metadata block,
    a second line of three dashes, the body; white space may follow the
    dashes. *)
Definition has_frontmatter (file : jsstring) : Prop :=
  exists ws metadata ws' body,
    file = str "---" ++ ws ++ [10%N] ++ metadata ++ [10%N] ++ str "---" ++ ws'
           ++ [10%N] ++ body
    /\ Forall (fun c => is_space c = true) ws
    /\ Forall (fun c => is_space c = true) ws'.

(** The lookahead [(?!https?:\/\/)] as a pattern. *)
Definition schemeRegex : re :=
  Seq (chr 104) (Seq (chr 116) (Seq (chr 116) (Seq (chr 112)
    (Seq (Alt (chr 115) Eps) (Seq (chr 58) (Seq (chr 47) (chr 47))))))).

(** The continuation a match attempt ends with. *)
Definition kid : cont := fun i' s' cs' => Some (i', s', cs').

(** No opening angle bracket is followed, anywhere later, by a closing
    one: nothing of the form of a tag. *)
Fixpoint tagfree (s : jsstring) : bool :=
  match s with
  | [] => true
  | c :: t => if N.eqb c 60 then forallb (fun d => negb (N.eqb d 62)) t else tagfree t
  end.


(** The angle brackets of a string, in order. *)
Definition angles (s : jsstring) : jsstring :=
  List.filter (fun c => N.eqb c 60 || N.eqb c 62) s.

(** Every white-space unit is a space, and no two spaces are adjacent;
    [after_space] tells that the preceding unit is a space. *)
Fixpoint single_spaced (after_space : bool) (s : jsstring) : bool :=
  match s with
  | [] => true
  | c :: t =>
      if N.eqb c 32 then negb after_space && single_spaced true t
      else negb (is_space c) && single_spaced false t
  end.

(** What a record of the search index holds for an article. *)
Definition record_of (a : Article) (r : SearchRecord) : Prop :=
  sr_title r = title a
  /\ sr_description r = description a
  /\ sr_url r = url a
  /\ JSDate.toISOString (date a) = Some (sr_date r)
  /\ sr_readTime r = readTime a
  /\ sr_projectName r = projectName a
  /\ sr_languages r = languages a
  /\ sr_tags r = or_value (Some (tags a)) (VArr [])
  /\ sr_content r = plain_excerpt (content a).

(** No closing angle bracket at all. *)
Definition no_close (s : jsstring) : Prop := forallb (fun d => negb (N.eqb d 62)) s = true.

(** The publication rule, in the words of the specification: an article
    is published iff its publish date, cut to the start of its calendar
    day, is not strictly after the day of the build, cut the same way. *)
Definition spec_published (tza now : Z) (a : Article) : bool :=
  match date a with
  | Some v => Z.leb (JSDate.startOfDay tza v) (JSDate.startOfDay tza now)
  | None => true
  end.

(** What the build last wrote at a path. *)
Definition file_written (o : Outcome) (path : jsstring) : option jsstring :=
  fold_left (fun found e =>
               match e with
               | WriteFile p data => if jsstring_eqb p path then Some data else found
               | _ => found
               end) (effects o) None.

(** The frontmatter gives a date the constructor takes (a truthy one). *)
Definition dated (fm : Frontmatter) : bool :=
  match fm_date fm with
  | Some (DateString (_ :: _)) | Some (DateObject _) => true
  | Some (DateNumber n) => negb (Z.eqb n 0)
  | _ => false
  end.

(** A file that parses has a dated frontmatter. *)
Definition file_dated {L : Libs} (file : jsstring) : bool :=
  match search frontmatterRegex 0 file with
  | Some (_, (_, _, cs)) =>
      match yaml_load (cap 1 cs) with
      | YamlMapping fm => dated fm
      | _ => true
      end
  | None => true
  end.

(** The five units escapeHtml replaces. *)
Definition is_special (c : char) : bool :=
  N.eqb c 38 || N.eqb c 60 || N.eqb c 62 || N.eqb c 34 || N.eqb c 39.

(** A path segment: no slash in it. *)
Definition slashfree (seg : jsstring) : bool :=
  forallb (fun c => negb (N.eqb c Path.slash)) seg.

(** A name as readdir gives it: not empty, without a slash, neither [.]
    nor [..]. *)
Definition clean (seg : jsstring) : bool :=
  nonempty seg && slashfree seg && negb (Path.is_dots 1 seg) && negb (Path.is_dots 2 seg).

(** The relative path made of a list of names. *)
Definition path_of (segs : list jsstring) : jsstring := JS.join [Path.slash] segs.

(** The tree holds a file with this content under this chain of names. *)
Inductive file_at : list (jsstring * node) -> list jsstring -> option jsstring -> Prop :=
| file_here entries name data :
    In (name, File data) entries -> file_at entries [name] data
| file_below entries name sub names data :
    In (name, Dir sub) entries -> file_at sub names data ->
    file_at entries (name :: names) data.

(** Every name in the tree is one readdir can give. *)
Fixpoint clean_tree (n : node) : bool :=
  match n with
  | File _ => true
  | Dir entries =>
      (fix each (es : list (jsstring * node)) : bool :=
         match es with
         | [] => true
         | (name, child) :: rest => clean name && clean_tree child && each rest
         end) entries
  end.

(** The test of the scan, [entry.endsWith('.md')]. *)
Definition is_markdown (name : jsstring) : bool := endsWith (str ".md") name.

(** Induction on a tree, with the property known of every child. *)
Fixpoint node_induction (P : node -> Prop)
    (HF : forall data, P (File data))
    (HD : forall entries, Forall (fun e => P (snd e)) entries -> P (Dir entries))
    (n : node) : P n :=
  match n with
  | File data => HF data
  | Dir entries =>
      HD entries
        ((fix each (es : list (jsstring * node)) : Forall (fun e => P (snd e)) es :=
            match es with
            | [] => @List.Forall_nil _ (fun e => P (snd e))
            | (name, child) :: rest =>
                @List.Forall_cons _ (fun e => P (snd e)) (name, child) rest
                  (node_induction P HF HD child) (each rest)
            end) entries)
  end.

(** The Gregorian calendar: leap years and the lengths of the months. *)
Definition is_leap (y : Z) : bool :=
  (Z.eqb (y mod 4) 0 && (negb (Z.eqb (y mod 100) 0) || Z.eqb (y mod 400) 0))%Z.

Definition days_in_month (y m : Z) : Z :=
  (if Z.eqb m 2 then (if is_leap y then 29 else 28)
   else if Z.eqb m 4 || Z.eqb m 6 || Z.eqb m 9 || Z.eqb m 11 then 30
   else 31)%Z.

(** [a] may stand before [b] in a list that runs from new to old. *)
Definition not_older (a b : Article) : Prop :=
  match date a, date b with
  | Some x, Some y => (y <= x)%Z
  | _, _ => False
  end.

(** The article has the time value [v]. *)
Definition dated_at (v : Z) (a : Article) : bool :=
  match date a with Some x => Z.eqb x v | None => false end.

(** The date is not an Invalid Date. *)
Definition valid_date (a : Article) : Prop := date a <> None.

(** The values of a list in the order of their first occurrence. *)
Fixpoint firsts (l : list strval) : list strval :=
  match l with
  | [] => []
  | x :: t => x :: List.filter (fun y => negb (strval_eqb y x)) (firsts t)
  end.

(** The article belongs to the project named [k]. *)
Definition in_project (k : strval) (a : Article) : bool := strval_eqb (projectName a) k.

(** The token is an image. *)
Definition is_image (tok : token) : bool :=
  match tok with ImageTok _ _ _ => true | _ => false end.

(** The language a token adds to the set of used languages. *)
Definition token_language {L : Libs} (tok : token) (l : jsstring) : Prop :=
  l <> [] /\ In l SUPPORTED_LANGUAGES /\ exists text, tok = CodeTok (Some l) text.


(** A line feed and three dashes: what opens the closing delimiter. *)
Definition delimiter : jsstring := [10%N; 45%N; 45%N; 45%N].

(** Empty, or beginning with a unit that is not white space. *)
Definition starts_black (s : jsstring) : Prop :=
  match s with c :: _ => is_space c = false | [] => True end.

(** The frontmatter pattern from its three line feeds on: the body, the
    closing line of dashes, the metadata. *)
Definition bodyPattern : re := Seq (chr 10) (Group 2 (Star true (Chr (fun _ => true)))).
Definition closingPattern : re :=
  Seq (chr 10) (Seq (chr 45) (Seq (chr 45) (Seq (chr 45)
    (Seq (Star true (Chr is_space)) bodyPattern)))).
Definition metadataPattern : re :=
  Seq (chr 10) (Seq (Group 1 (Star false (Chr (fun _ => true)))) closingPattern).




End Spec.

Import Build Spec.

(** * A sample instantiation of the libraries

    Enough of js-yaml, marked, highlight.js and the engine to run the
    script on the small sites of the examples below. *)

Module Sample.

Local Open Scope Z_scope.

Definition mapping (title : jsstring) (date : option DateInput) : yaml_result :=
  YamlMapping {| fm_title := Some (VStr title); fm_date := date;
                 fm_description := None; fm_tags := None |}.

(** The metadata blocks the loader knows, with what js-yaml returns for
    them; an empty document loads as [undefined]. *)
Definition documents : list (jsstring * yaml_result) :=
  [ ([], YamlNullish);
    (str "title: Next
date: '31-12-2099'", mapping (str "Next") (Some (DateString (str "31-12-2099"))));
    (str "title: Old
date: '01-01-2024'", mapping (str "Old") (Some (DateString (str "01-01-2024"))));
    (str "title: New
date: '01-01-2025'", mapping (str "New") (Some (DateString (str "01-01-2025"))));
    (str "title: Hello
date: 2025-01-15", mapping (str "Hello") (Some (DateObject (Some 1736899200000))));
    (str "title: Undated", mapping (str "Undated") None);
    (str "title: [", YamlThrows) ].

Fixpoint lookup {A} (key : jsstring) (table : list (jsstring * A)) : option A :=
  match table with
  | [] => None
  | (k, v) :: rest => if jsstring_eqb key k then Some v else lookup key rest
  end.

Definition load (s : jsstring) : yaml_result :=
  match lookup s documents with Some r => r | None => YamlThrows end.

(** Inline image syntax, with the alternative text and the target
    captured: [ !\[(.*?)\]\((.*?)\) ]. *)
Definition inlineImage : re :=
  seqs [lit "!"; lit "["; Group 1 (Star false dot); lit "]"; lit "(";
        Group 2 (Star false dot); lit ")"].

(** The inline pieces of a line: text, and an image token for each image
    reference. *)
Fixpoint inline (fuel : nat) (i : nat) (s : jsstring) : list token :=
  match fuel with
  | O => [Markup s]
  | S fuel' =>
      match search inlineImage i s with
      | Some (b, (e, rest, cs)) =>
          Markup (firstn (b - i) s) :: ImageTok (cap 2 cs) None (cap 1 cs)
          :: inline fuel' e rest
      | None => [Markup s]
      end
  end.

(** A body that is one line of text is one paragraph; the image
    references in it are image tokens. *)
Definition paragraph (src : jsstring) : list token :=
  [Markup (str "<p>")] ++ inline (length src) 0 src ++ [Markup (str "</p>" ++ [10%N])].

(** The default image renderer of marked, which reads the fields of the
    token it is given; a string has none of them. *)
Definition image (href : image_arg) (title text : strval) : exn + jsstring :=
  match href with
  | ImageToken target title_ text_ =>
      inr (html "<img src=^" ++ target ++ html "^ alt=^" ++ text_ ++ html "^"
           ++ match title_ with
              | Some (c :: t) => html " title=^" ++ (c :: t) ++ html "^"
              | _ => []
              end
           ++ html ">")
  | Href _ => inr (html "<img src=^undefined^ alt=^undefined^>")
  end.

Definition languages : list jsstring := [str "go"; str "javascript"].

(** Highlighted markup for the snippets of the examples; a grammar that
    fails is played by the snippet [boom]. *)
Definition highlight (code language : jsstring) : option jsstring :=
  if jsstring_eqb code (str "boom") then None
  else if jsstring_eqb code (str "package main")
  then Some (html "<span class=^hljs-keyword^>package</span> main")
  else Some (escapeHtml code).

(** ISO dates [YYYY-MM-DD], read as UTC midnight; anything else is an
    Invalid Date. *)
Definition parse_iso (s : jsstring) : JSDate.t :=
  let d := Chr is_digit in
  if test (seqs [Bol; d; d; d; d; lit "-"; d; d; lit "-"; d; d; Eol]) s then
    match split_char 45%N s with
    | [y; mo; dd] =>
        JSDate.TimeClip
          (JSDate.MakeDay (number_of_digits y) (number_of_digits mo - 1)
             (number_of_digits dd) * JSDate.msPerDay)
    | _ => None
    end
  else None.

Definition lower (s : jsstring) : jsstring :=
  List.map (fun c => if char_in 65 90 c then (c + 32)%N else c) s.

(** JSON.stringify(records, null, 2) *)
Definition hex_digit (n : N) : N := if N.ltb n 10 then (48 + n)%N else (87 + n)%N.

Definition unicode_escape (c : N) : jsstring :=
  (str "\u" ++ [hex_digit (c / 4096 mod 16); hex_digit (c / 256 mod 16);
                hex_digit (c / 16 mod 16); hex_digit (c mod 16)])%N.

Definition is_high (c : N) : bool := char_in 55296 56319 c.
Definition is_low (c : N) : bool := char_in 56320 57343 c.

(** QuoteJSONString; [after_high] tells that the previous unit opened a
    surrogate pair. *)
Fixpoint quote_units (after_high : bool) (s : jsstring) : jsstring :=
  match s with
  | [] => []
  | c :: t =>
      let next_low := match t with d :: _ => is_low d | [] => false end in
      (if N.eqb c 34 then [92; 34]%N
       else if N.eqb c 92 then [92; 92]%N
       else if N.eqb c 8 then str "\b"
       else if N.eqb c 12 then str "\f"
       else if N.eqb c 10 then str "\n"
       else if N.eqb c 13 then str "\r"
       else if N.eqb c 9 then str "\t"
       else if N.ltb c 32 then unicode_escape c
       else if is_high c then (if next_low then [c] else unicode_escape c)
       else if is_low c then (if after_high then [c] else unicode_escape c)
       else [c])
      ++ quote_units (is_high c && next_low) t
  end.

Definition quote (s : jsstring) : jsstring := [34%N] ++ quote_units false s ++ [34%N].

Definition json_array (indent : jsstring) (items : list jsstring) : jsstring :=
  match items with
  | [] => str "[]"
  | _ :: _ =>
      str "[" ++ [10%N]
      ++ JS.join (str "," ++ [10%N]) (List.map (fun x => indent ++ str "  " ++ x) items)
      ++ [10%N] ++ indent ++ str "]"
  end.

Definition json_object (indent : jsstring) (props : list (jsstring * jsstring)) : jsstring :=
  match props with
  | [] => str "{}"
  | _ :: _ =>
      str "{" ++ [10%N]
      ++ JS.join (str "," ++ [10%N])
           (List.map (fun kv => indent ++ str "  " ++ quote (fst kv) ++ str ": " ++ snd kv)
              props)
      ++ [10%N] ++ indent ++ str "}"
  end.

(** A value: a string is quoted, the text of a number or a boolean is
    its JSON form. *)
Fixpoint json_value (indent : jsstring) (v : value) : jsstring :=
  match v with
  | VNull => str "null"
  | VStr s => quote s
  | VArr items => json_array indent (List.map (json_value (indent ++ str "  ")) items)
  | VOther _ text => text
  end.

Definition json_record (r : SearchRecord) : jsstring :=
  let ind := str "    " in
  json_object (str "  ")
    ([ (str "title", json_value ind (sr_title r));
       (str "description", json_value ind (sr_description r));
       (str "url", quote (sr_url r));
       (str "date", quote (sr_date r));
       (str "readTime", String_of_Z (sr_readTime r)) ]
     ++ match sr_projectName r with
        | Null => [(str "projectName", str "null")]
        | Undefined => []
        | Str s => [(str "projectName", quote s)]
        end
     ++ [ (str "content", quote (sr_content r));
          (str "languages", json_array ind (List.map quote (sr_languages r)));
          (str "tags", json_value ind (sr_tags r)) ]).

Definition stringify (records : list SearchRecord) : jsstring :=
  json_array [] (List.map json_record records).

(** The text of a built-in function, in the layout of JavaScriptCore. *)
Definition native (name : jsstring) : jsstring :=
  str "function " ++ name ++ str "() {
    [native code]
}".

#[export] Instance libs : Libs := {|
  yaml_load := load;
  marked_tokens := paragraph;
  marked_image := image;
  hljs_listLanguages := languages;
  hljs_getLanguage := fun l => existsb (jsstring_eqb l) languages;
  hljs_highlight := highlight;
  Date_parse := parse_iso;
  LocalTZA := 0;
  toLowerCase := lower;
  JSON_stringify := stringify;
  Function_toString := native;
  Array_sort_inconsistent := fun arr => arr;
  Array_sort_permutation := fun arr => Permutation_refl arr
|}.

(** Templates that consist of their placeholders. *)
Definition templates (name : jsstring) : option jsstring :=
  if jsstring_eqb name (str "layout.html") then Some (str "{{content}}")
  else if jsstring_eqb name (str "index.html") then Some (str "{{articles}}")
  else if jsstring_eqb name (str "article.html") then Some (str "{{content}}")
  else if jsstring_eqb name (str "projects.html") then Some (str "{{projects}}")
  else if jsstring_eqb name (str "404.html") then Some (str "Not found")
  else None.

Definition site (tree : list (jsstring * node)) : World :=
  {| styles_css := Some []; template_file := templates; articles_tree := Some tree |}.

(** A site with one article, [articles/2025/foo.md], dated 2025-01-15. *)
Definition foo_tree (body : jsstring) : list (jsstring * node) :=
  [(str "2025", Dir [(str "foo.md", File (Some (str "---
title: Hello
date: 2025-01-15
---
" ++ body)))])].

(** A project article dated 31 December 2099. *)
Definition next_tree : list (jsstring * node) :=
  [(str "projects", Dir [(str "demo", Dir [(str "next.md", File (Some (str "---
title: Next
date: '31-12-2099'
---
Coming soon.")))])])].

(** Two articles, the older one listed first. *)
Definition two_tree : list (jsstring * node) :=
  [(str "old.md", File (Some (str "---
title: Old
date: '01-01-2024'
---
Old news.")));
   (str "new.md", File (Some (str "---
title: New
date: '01-01-2025'
---
Fresh news.")))].

(** An article without a date. *)
Definition undated_tree : list (jsstring * node) :=
  [(str "undated.md", File (Some (str "---
title: Undated
---
Some text.")))].

(** 1 November 2025, 20:46:40.123 UTC. *)
Definition build_time : Z := 1762030000123.

End Sample.

(** * A second instantiation of the libraries

    The sample libraries, with a lexer that knows fenced code blocks and
    a loader that knows a document whose date no parser accepts. *)

Module Sample2.

Definition documents : list (jsstring * yaml_result) :=
  [ (str "title: Later
date: soon", Sample.mapping (str "Later") (Some (DateString (str "soon")))) ].

Definition load (s : jsstring) : yaml_result :=
  match Sample.lookup s documents with Some r => r | None => Sample.load s end.

(** Bodies the lexer splits into code tokens, with what marked gives. *)
Definition lexed : list (jsstring * list token) :=
  [ (str "```go
package main
```
```rust
fn main() {}
```
```go
func f() {}
```",
     [CodeTok (Some (str "go")) (str "package main");
      CodeTok (Some (str "rust")) (str "fn main() {}");
      CodeTok (Some (str "go")) (str "func f() {}")]);
    (str "```md
![Diagram](img/pic.png)
![Logo](./logo.png)
```",
     [CodeTok (Some (str "md")) (str "![Diagram](img/pic.png)
![Logo](./logo.png)")]) ].

Definition lexer (src : jsstring) : list token :=
  match Sample.lookup src lexed with Some ts => ts | None => Sample.paragraph src end.

#[export] Instance libs : Libs := {|
  yaml_load := load;
  marked_tokens := lexer;
  marked_image := Sample.image;
  hljs_listLanguages := Sample.languages;
  hljs_getLanguage := fun l => existsb (jsstring_eqb l) Sample.languages;
  hljs_highlight := Sample.highlight;
  Date_parse := Sample.parse_iso;
  LocalTZA := 0;
  toLowerCase := Sample.lower;
  JSON_stringify := Sample.stringify;
  Function_toString := Sample.native;
  Array_sort_inconsistent := fun arr => arr;
  Array_sort_permutation := fun arr => Permutation_refl arr
|}.


(** An article with three code blocks. *)
Definition code_file : jsstring :=
  str "---
title: Hello
date: 2025-01-15
---
```go
package main
```
```rust
fn main() {}
```
```go
func f() {}
```".

Definition plain_frontmatter : Frontmatter :=
  {| fm_title := None; fm_date := Some (DateObject (Some 1736899200000%Z));
     fm_description := None; fm_tags := None |}.

End Sample2.

(** * Facts about the matcher *)

Section Matcher.

Lemma star_loop_greedy p k fuel : forall i s cs,
  (length s <= fuel)%nat ->
  star_loop (m (Chr p)) true k fuel i s cs = pick_greedy p k i s cs.
Proof.
  induction fuel as [|fuel IH]; intros i s cs Hlen.
  - destruct s; [reflexivity | simpl in Hlen; lia].
  - destruct s as [|c t]; [reflexivity|].
    simpl. destruct (p c); [|reflexivity].
    replace (length t <? S (length t))%nat with true
      by (symmetry; apply Nat.ltb_lt; lia).
    rewrite IH by (simpl in Hlen; lia). reflexivity.
Qed.

Lemma star_loop_lazy p k fuel : forall i s cs,
  (length s <= fuel)%nat ->
  star_loop (m (Chr p)) false k fuel i s cs = pick_lazy p k i s cs.
Proof.
  induction fuel as [|fuel IH]; intros i s cs Hlen.
  - destruct s; [|simpl in Hlen; lia].
    simpl. destruct (k i [] cs); reflexivity.
  - destruct s as [|c t].
    + simpl. destruct (k i [] cs); reflexivity.
    + simpl. destruct (k i (c :: t) cs); [reflexivity|].
      destruct (p c); [|reflexivity].
      replace (length t <? S (length t))%nat with true
        by (symmetry; apply Nat.ltb_lt; lia).
      apply IH. simpl in Hlen; lia.
Qed.

Lemma m_star_greedy p k i s cs :
  m (Star true (Chr p)) i s cs k = pick_greedy p k i s cs.
Proof. simpl. apply star_loop_greedy. lia. Qed.

Lemma m_star_lazy p k i s cs :
  m (Star false (Chr p)) i s cs k = pick_lazy p k i s cs.
Proof. simpl. apply star_loop_lazy. lia. Qed.

Lemma run_le p s : (run p s <= length s)%nat.
Proof. induction s as [|c t IH]; simpl; [lia|]. destruct (p c); simpl; lia. Qed.

Lemma run_app p a b :
  Forall (fun c => p c = true) a -> run p (a ++ b) = (length a + run p b)%nat.
Proof.
  induction 1 as [|c t Hc _ IH]; simpl; [reflexivity|]. rewrite Hc, IH. reflexivity.
Qed.

Lemma pick_greedy_none p k : forall s i cs,
  pick_greedy p k i s cs = None ->
  forall n, (n <= run p s)%nat -> k (i + n)%nat (skipn n s) cs = None.
Proof.
  induction s as [|c t IH]; intros i cs H n Hn; simpl in *.
  - assert (n = O) by lia. subst. simpl. rewrite Nat.add_0_r. assumption.
  - destruct (p c) eqn:Hc.
    + destruct (pick_greedy p k (S i) t cs) eqn:Hrec; [discriminate|].
      destruct n as [|n]; simpl.
      * rewrite Nat.add_0_r. assumption.
      * replace (i + S n)%nat with (S i + n)%nat by lia. apply IH; [assumption|lia].
    + assert (n = O) by lia. subst. simpl. rewrite Nat.add_0_r. assumption.
Qed.

(** A greedy star succeeds with the result of its continuation at some
    point of the run, the furthest one that succeeds. *)
Lemma pick_greedy_some p k : forall s i cs r,
  pick_greedy p k i s cs = Some r ->
  exists n, (n <= run p s)%nat /\ k (i + n)%nat (skipn n s) cs = Some r
    /\ forall n', (n < n' <= run p s)%nat -> k (i + n')%nat (skipn n' s) cs = None.
Proof.
  induction s as [|c t IH]; intros i cs r H; simpl in H.
  - exists O. simpl. rewrite Nat.add_0_r. repeat split; [lia|assumption|intros; lia].
  - destruct (p c) eqn:Hc.
    + destruct (pick_greedy p k (S i) t cs) eqn:Hrec.
      * injection H as <-. destruct (IH _ _ _ Hrec) as (n & Hn & Hk & Hmax).
        exists (S n). simpl. rewrite Hc.
        replace (i + S n)%nat with (S i + n)%nat by lia.
        repeat split; [lia|assumption|].
        intros n' Hn'. destruct n' as [|n']; [lia|].
        replace (i + S n')%nat with (S i + n')%nat by lia.
        simpl. apply Hmax. lia.
      * exists O. simpl. rewrite Hc, Nat.add_0_r. repeat split; [lia|assumption|].
        intros n' Hn'. destruct n' as [|n']; [lia|].
        replace (i + S n')%nat with (S i + n')%nat by lia. simpl.
        apply (pick_greedy_none p k t (S i) cs Hrec). lia.
    + exists O. simpl. rewrite Hc, Nat.add_0_r. repeat split; [lia|assumption|intros; lia].
Qed.

Lemma pick_greedy_complete p k s i cs n :
  (n <= run p s)%nat -> k (i + n)%nat (skipn n s) cs <> None ->
  pick_greedy p k i s cs <> None.
Proof.
  intros Hn Hk Hnone. apply Hk. eapply pick_greedy_none; eassumption.
Qed.

(** A lazy star succeeds at the nearest point of the run where its
    continuation does. *)
Lemma pick_lazy_some p k : forall s i cs r,
  pick_lazy p k i s cs = Some r ->
  exists n, (n <= run p s)%nat /\ k (i + n)%nat (skipn n s) cs = Some r
    /\ forall n', (n' < n)%nat -> k (i + n')%nat (skipn n' s) cs = None.
Proof.
  induction s as [|c t IH]; intros i cs r H; simpl in H.
  - destruct (k i [] cs) eqn:Hk; [|discriminate]. injection H as <-.
    exists O. simpl. rewrite Nat.add_0_r. repeat split; [lia|assumption|intros; lia].
  - destruct (k i (c :: t) cs) eqn:Hk.
    + injection H as <-. exists O. simpl. rewrite Nat.add_0_r.
      repeat split; [lia|assumption|intros; lia].
    + destruct (p c) eqn:Hc; [|discriminate].
      destruct (IH _ _ _ H) as (n & Hn & Hkn & Hmin).
      exists (S n). simpl. rewrite Hc.
      replace (i + S n)%nat with (S i + n)%nat by lia.
      repeat split; [lia|assumption|].
      intros n' Hn'. destruct n' as [|n']; simpl.
      * rewrite Nat.add_0_r. assumption.
      * replace (i + S n')%nat with (S i + n')%nat by lia. apply Hmin. lia.
Qed.

Lemma pick_lazy_none p k : forall s i cs,
  pick_lazy p k i s cs = None ->
  forall n, (n <= run p s)%nat -> k (i + n)%nat (skipn n s) cs = None.
Proof.
  induction s as [|c t IH]; intros i cs H n Hn; simpl in *.
  - assert (n = O) by lia. subst. simpl. rewrite Nat.add_0_r.
    destruct (k i [] cs); [discriminate|reflexivity].
  - destruct (k i (c :: t) cs) eqn:Hk; [discriminate|].
    destruct n as [|n]; simpl.
    + rewrite Nat.add_0_r. assumption.
    + replace (i + S n)%nat with (S i + n)%nat by lia.
      destruct (p c) eqn:Hc; [|lia]. apply IH; [assumption|lia].
Qed.

End Matcher.

(** * Word count and read time *)

Section ReadTime.

Lemma pick_greedy_final p : forall s i cs,
  pick_greedy p (fun i' s' cs' => Some (i', s', cs')) i s cs
  = Some ((i + run p s)%nat, skipn (run p s) s, cs).
Proof.
  induction s as [|c t IH]; intros i cs; simpl.
  - rewrite Nat.add_0_r. reflexivity.
  - destruct (p c); simpl.
    + rewrite IH. do 3 f_equal. lia.
    + rewrite Nat.add_0_r. reflexivity.
Qed.

(** [\s+] at a given index: the whole run of whitespace, if any. *)
Lemma exec_whitespace i s :
  exec_at whitespaceRegex i s =
  match s with
  | c :: t =>
      if is_space c
      then Some ((S i + run is_space t)%nat, skipn (run is_space t) t, [])
      else None
  | [] => None
  end.
Proof.
  unfold exec_at, whitespaceRegex, Plus, space.
  destruct s as [|c t]; [reflexivity|].
  change (m (Seq (Chr is_space) (Star true (Chr is_space))) i (c :: t) []
            (fun i' s' cs' => Some (i', s', cs')))
    with (if is_space c
          then m (Star true (Chr is_space)) (S i) t []
                 (fun i' s' cs' => Some (i', s', cs'))
          else None).
  destruct (is_space c); [|reflexivity].
  rewrite m_star_greedy. apply pick_greedy_final.
Qed.

Lemma count_tokens_after_space : forall s,
  count_tokens false (skipn (run is_space s) s) = count_tokens false s.
Proof.
  induction s as [|c t IH]; simpl; [reflexivity|].
  destruct (is_space c) eqn:Hc; simpl.
  - exact IH.
  - rewrite Hc. reflexivity.
Qed.

Lemma nonempty_rev acc : nonempty (rev acc) = nonempty acc.
Proof.
  destruct acc as [|c t]; [reflexivity|].
  unfold nonempty, jsstring_eqb. simpl.
  destruct (decide (rev t ++ [c] = [])) as [E|_]; [|reflexivity].
  destruct (rev t); discriminate.
Qed.

Lemma split_go_tokens : forall fuel acc i s,
  (length s < fuel)%nat ->
  length (List.filter nonempty (split_go fuel whitespaceRegex acc i s))
  = ((if nonempty acc then 1 else 0) + count_tokens (nonempty acc) s)%nat.
Proof.
  induction fuel as [|fuel IH]; intros acc i s Hlen; [lia|].
  destruct s as [|c t].
  - simpl. rewrite nonempty_rev. destruct (nonempty acc); reflexivity.
  - cbn [split_go]. rewrite exec_whitespace.
    destruct (is_space c) eqn:Hc.
    + replace (S i + run is_space t =? i)%nat with false
        by (symmetry; apply Nat.eqb_neq; lia).
      cbn [List.filter length]. rewrite nonempty_rev.
      assert (Hr : (length (skipn (run is_space t) t) < fuel)%nat).
      { rewrite length_skipn. simpl in Hlen. lia. }
      cbn [count_tokens]. rewrite Hc.
      destruct (nonempty acc); cbn [length]; rewrite IH by exact Hr;
        cbn; rewrite count_tokens_after_space; reflexivity.
    + rewrite IH by (simpl in Hlen; lia).
      cbn [count_tokens]. rewrite Hc.
      destruct (nonempty acc); reflexivity.
Qed.

Lemma wordCount_tokens content : wordCount content = tokens content.
Proof.
  unfold wordCount, tokens, split.
  destruct content as [|c t]; [reflexivity|].
  change (fun w : jsstring => negb (jsstring_eqb w [])) with nonempty.
  rewrite split_go_tokens by lia. reflexivity.
Qed.

Lemma ceil_div_bounds a : (0 <= a)%Z ->
  (200 * (ceil_div a 200 - 1) < a <= 200 * ceil_div a 200)%Z.
Proof.
  intros Ha. unfold ceil_div.
  pose proof (Z.div_mod (- a) 200 ltac:(lia)) as Hdm.
  pose proof (Z.mod_pos_bound (- a) 200 ltac:(lia)) as Hb.
  lia.
Qed.

End ReadTime.

(** C3 (amended).  For every article, [readTime] is the ceiling of
    [wordCount / 200], where [wordCount] is the number of
    whitespace-delimited tokens of the raw body; it is at least 1 exactly
    when the body has a token, and it is 0 for a body without one. *)
Theorem readTime_is_ceiling {L : Libs} (now : Z) (body : jsstring)
    (frontmatter : Frontmatter) (path : jsstring) :
  let a := new_Article now body frontmatter path in
  wordCount body = tokens body
  /\ (200 * (readTime a - 1) < Z.of_nat (tokens body) <= 200 * readTime a)%Z
  /\ ((1 <= readTime a)%Z <-> (1 <= tokens body)%nat)
  /\ (tokens body = O -> readTime a = 0%Z).
Proof.
  intros a.
  assert (Hrt : readTime a = ceil_div (Z.of_nat (tokens body)) 200).
  { unfold a, new_Article. cbn [readTime]. rewrite wordCount_tokens. reflexivity. }
  pose proof (ceil_div_bounds (Z.of_nat (tokens body)) ltac:(lia)) as Hb.
  rewrite <- Hrt in Hb.
  repeat split; try apply wordCount_tokens; try lia.
Qed.

(** C3, as stated, fails: the article built from an empty body has read
    time 0, not at least 1. *)
Lemma readTime_empty_body :
  ~ (1 <= readTime (new_Article (L := Sample.libs) 0 []
                      {| fm_title := Some (VStr (str "Hello"));
                         fm_date := Some (DateObject (Some 1736899200000%Z));
                         fm_description := None; fm_tags := None |}
                      (str "articles/hello.md")))%Z.
Proof.
  assert (H : readTime (new_Article (L := Sample.libs) 0 []
                      {| fm_title := Some (VStr (str "Hello"));
                         fm_date := Some (DateObject (Some 1736899200000%Z));
                         fm_description := None; fm_tags := None |}
                      (str "articles/hello.md")) = 0%Z) by reflexivity.
  rewrite H. lia.
Qed.

(** * escapeHtml and the code blocks *)

Section CodeBlocks.

Lemma replace_go_chr p by_ : forall fuel i s,
  (length s < fuel)%nat ->
  replace_go fuel (Chr p) (fun _ _ => by_) i s
  = flat_map (fun c => if p c then by_ else [c]) s.
Proof.
  induction fuel as [|fuel IH]; intros i s Hlen; [lia|].
  destruct s as [|c t]; [reflexivity|].
  cbn [replace_go flat_map]. unfold exec_at. cbn [m].
  destruct (p c).
  - replace (S i =? i)%nat with false by (symmetry; apply Nat.eqb_neq; lia).
    rewrite IH by (simpl in Hlen; lia). reflexivity.
  - rewrite IH by (simpl in Hlen; lia). reflexivity.
Qed.

Lemma replace_with_chr p by_ s :
  replace_with (Chr p) by_ s = flat_map (fun c => if p c then by_ else [c]) s.
Proof. unfold replace_with, replace_all. apply replace_go_chr. lia. Qed.

Lemma flat_map_flat_map (f g : char -> jsstring) s :
  flat_map g (flat_map f s) = flat_map (fun c => flat_map g (f c)) s.
Proof.
  induction s as [|c t IH]; [reflexivity|].
  cbn [flat_map]. rewrite flat_map_app, IH. reflexivity.
Qed.

Lemma escapeHtml_units s : escapeHtml s = flat_map escape_unit s.
Proof.
  unfold escapeHtml, lit, chr. cbn [str list_ascii_of_string List.map].
  rewrite !replace_with_chr, !flat_map_flat_map.
  apply flat_map_ext. intros c. unfold escape_unit.
  change (N_of_ascii "&") with 38%N. change (N_of_ascii "<") with 60%N.
  change (N_of_ascii ">") with 62%N. change (N_of_ascii "'") with 39%N.
  destruct (N.eqb_spec 38 c) as [<-|H38]; [reflexivity|].
  replace (N.eqb c 38) with false by (symmetry; apply N.eqb_neq; congruence).
  cbn [flat_map app].
  destruct (N.eqb_spec 60 c) as [<-|H60]; [reflexivity|].
  replace (N.eqb c 60) with false by (symmetry; apply N.eqb_neq; congruence).
  cbn [flat_map app].
  destruct (N.eqb_spec 62 c) as [<-|H62]; [reflexivity|].
  replace (N.eqb c 62) with false by (symmetry; apply N.eqb_neq; congruence).
  cbn [flat_map app].
  destruct (N.eqb_spec 34 c) as [<-|H34]; [reflexivity|].
  replace (N.eqb c 34) with false by (symmetry; apply N.eqb_neq; congruence).
  cbn [flat_map app].
  destruct (N.eqb_spec 39 c) as [<-|H39]; [reflexivity|].
  replace (N.eqb c 39) with false by (symmetry; apply N.eqb_neq; congruence).
  reflexivity.
Qed.

Lemma escape_unit_markup_free c : markup_free (escape_unit c).
Proof.
  unfold escape_unit, markup_free.
  destruct (N.eqb_spec c 38); [repeat constructor; discriminate|].
  destruct (N.eqb_spec c 60); [repeat constructor; discriminate|].
  destruct (N.eqb_spec c 62); [repeat constructor; discriminate|].
  destruct (N.eqb_spec c 34); [repeat constructor; discriminate|].
  destruct (N.eqb_spec c 39); [repeat constructor; discriminate|].
  repeat constructor; assumption.
Qed.

Lemma escapeHtml_markup_free s : markup_free (escapeHtml s).
Proof.
  rewrite escapeHtml_units. unfold markup_free.
  induction s as [|c t IH]; [constructor|].
  cbn [flat_map]. apply Forall_app. split; [apply escape_unit_markup_free|exact IH].
Qed.

End CodeBlocks.

Section CodeBlockShape.
Context {L : Libs}.

Lemma highlighted_block_shape language value code :
  highlighted_block language value code
  = code_wrapper 8 language (str "hljs language-" ++ language) value (escapeHtml code).
Proof.
  unfold highlighted_block, code_wrapper, code_open, copy_button, code_close.
  rewrite <- !app_assoc. reflexivity.
Qed.

Lemma plain_block_shape lang code :
  plain_block lang code
  = code_wrapper 2 (or_else lang (str "text")) (str "language-" ++ or_else lang [])
      (escapeHtml code) (escapeHtml code).
Proof.
  unfold plain_block, code_wrapper, code_open, copy_button, code_close.
  rewrite <- !app_assoc. reflexivity.
Qed.

Lemma existsb_eqb_In x l : existsb (jsstring_eqb x) l = true <-> In x l.
Proof.
  rewrite existsb_exists. unfold jsstring_eqb. split.
  - intros (y & Hy & E). destruct (decide (x = y)); [subst; assumption|discriminate].
  - intros H. exists x. split; [assumption|]. destruct (decide (x = x)); congruence.
Qed.

Lemma code_wrapper_marker base dl cc inner code :
  infix_of (copy_marker code) (code_wrapper base dl cc inner (escapeHtml code)).
Proof. exists (code_open base dl cc inner), (code_close base). reflexivity. Qed.

End CodeBlockShape.

(** C6.  A fenced block whose language is in the supported set and whose
    highlighting succeeds is emitted with the highlighter's markup inside
    the wrapper, and its language is recorded.  Every other block (no
    language, an unsupported one, or a highlighter that throws) is emitted
    in the same wrapper with the entity-escaped code, which holds no angle
    bracket and no quote.  Both carry the copy button with the escaped
    code, and the hook returns in every case.  The supported set is
    highlight.js's own list, whose members it can look up. *)
Theorem renderer_code_blocks {L : Libs} (langs : list jsstring)
    (lang : option jsstring) (text : jsstring) :
  (forall l, In l SUPPORTED_LANGUAGES -> hljs_getLanguage l = true) ->
  let out := snd (renderer_code langs lang text) in
  (forall language value,
      lang = Some language -> language <> [] -> In language SUPPORTED_LANGUAGES ->
      hljs_highlight text language = Some value ->
      out = code_wrapper 8 language (str "hljs language-" ++ language) value
              (escapeHtml text)
      /\ fst (renderer_code langs lang text) = set_add language langs)
  /\ ((forall language,
         lang = Some language -> language <> [] -> In language SUPPORTED_LANGUAGES ->
         hljs_highlight text language = None) ->
      out = code_wrapper 2 (or_else lang (str "text"))
              (str "language-" ++ or_else lang []) (escapeHtml text) (escapeHtml text))
  /\ escapeHtml text = flat_map escape_unit text
  /\ markup_free (escapeHtml text)
  /\ infix_of (copy_marker text) out.
Proof.
  intros Hreg out. subst out. unfold renderer_code.
  split; [|split; [|split; [|split]]].
  - intros language value E Hne Hin Hhl. subst lang.
    destruct language as [|c l]; [congruence|].
    apply existsb_eqb_In in Hin as Hex. rewrite Hex.
    rewrite (Hreg _ Hin), Hhl. split; [apply highlighted_block_shape|reflexivity].
  - intros Hnone. destruct lang as [[|c l]|]; try apply plain_block_shape.
    destruct (existsb (jsstring_eqb (c :: l)) SUPPORTED_LANGUAGES) eqn:Hex;
      [|apply plain_block_shape].
    apply existsb_eqb_In in Hex.
    rewrite (Hreg _ Hex), (Hnone (c :: l) eq_refl ltac:(discriminate) Hex).
    apply plain_block_shape.
  - apply escapeHtml_units.
  - apply escapeHtml_markup_free.
  - destruct lang as [[|c l]|];
      try (cbn [snd]; rewrite plain_block_shape; apply code_wrapper_marker).
    destruct (existsb (jsstring_eqb (c :: l)) SUPPORTED_LANGUAGES);
      [|cbn [snd]; rewrite plain_block_shape; apply code_wrapper_marker].
    destruct (hljs_getLanguage (c :: l));
      [|cbn [snd]; rewrite plain_block_shape; apply code_wrapper_marker].
    destruct (hljs_highlight text (c :: l)); cbn [snd];
      [rewrite highlighted_block_shape|rewrite plain_block_shape];
      apply code_wrapper_marker.
Qed.

Lemma renderer_code_blocks_witness :
  snd (renderer_code (L := Sample.libs) [] (Some (str "go")) (str "package main"))
  = code_wrapper 8 (str "go") (str "hljs language-go")
      (html "<span class=^hljs-keyword^>package</span> main") (str "package main")
  /\ snd (renderer_code (L := Sample.libs) [] (Some (str "go")) (str "boom"))
     = code_wrapper 2 (str "go") (str "language-go") (str "boom") (str "boom").
Proof.
  assert (Hreg : forall l, In l (SUPPORTED_LANGUAGES (L := Sample.libs)) ->
                           hljs_getLanguage (Libs := Sample.libs) l = true).
  { intros l [<-|[<-|[]]]; reflexivity. }
  split.
  - destruct (renderer_code_blocks (L := Sample.libs) [] (Some (str "go"))
                (str "package main") Hreg) as (H & _).
    destruct (H (str "go") (html "<span class=^hljs-keyword^>package</span> main")
                eq_refl ltac:(discriminate) ltac:(simpl; auto) eq_refl) as (E & _).
    exact E.
  - destruct (renderer_code_blocks (L := Sample.libs) [] (Some (str "go"))
                (str "boom") Hreg) as (_ & H & _).
    apply H. intros language E _ _. injection E as <-. reflexivity.
Defined.

(** * Passes over a text *)

Section Passes.

Lemma pick_greedy_max p k : forall s i cs r,
  k (i + run p s)%nat (skipn (run p s) s) cs = Some r ->
  pick_greedy p k i s cs = Some r.
Proof.
  induction s as [|c t IH]; intros i cs r H; simpl in *.
  - rewrite Nat.add_0_r in H. exact H.
  - destruct (p c).
    + simpl in H. replace (i + S (run p t))%nat with (S i + run p t)%nat in H by lia.
      rewrite (IH _ _ _ H). reflexivity.
    + simpl in H. rewrite Nat.add_0_r in H. exact H.
Qed.

Lemma pick_greedy_all_fail p k i s cs :
  (forall n, (n <= run p s)%nat -> k (i + n)%nat (skipn n s) cs = None) ->
  pick_greedy p k i s cs = None.
Proof.
  intros H. destruct (pick_greedy p k i s cs) as [r|] eqn:E; [|reflexivity].
  destruct (pick_greedy_some _ _ _ _ _ _ E) as (n & Hn & Hk & _).
  rewrite (H n Hn) in Hk. discriminate.
Qed.

Lemma pick_lazy_all_fail p k i s cs :
  (forall n, (n <= run p s)%nat -> k (i + n)%nat (skipn n s) cs = None) ->
  pick_lazy p k i s cs = None.
Proof.
  intros H. destruct (pick_lazy p k i s cs) as [r|] eqn:E; [|reflexivity].
  destruct (pick_lazy_some _ _ _ _ _ _ E) as (n & Hn & Hk & _).
  rewrite (H n Hn) in Hk. discriminate.
Qed.

Lemma pick_greedy_at p k i s cs n :
  (n <= run p s)%nat ->
  k (i + n)%nat (skipn n s) cs <> None ->
  (forall n', (n < n' <= run p s)%nat -> k (i + n')%nat (skipn n' s) cs = None) ->
  pick_greedy p k i s cs = k (i + n)%nat (skipn n s) cs.
Proof.
  intros Hn Hk Hlater.
  destruct (pick_greedy p k i s cs) as [r|] eqn:E.
  - destruct (pick_greedy_some _ _ _ _ _ _ E) as (n0 & Hn0 & Hk0 & Hmax).
    destruct (Nat.lt_trichotomy n0 n) as [Hlt|[->|Hgt]].
    + rewrite (Hmax n) in Hk by lia. congruence.
    + symmetry. exact Hk0.
    + rewrite (Hlater n0) in Hk0 by lia. discriminate.
  - exfalso. apply Hk. eapply pick_greedy_none; eassumption.
Qed.

Lemma pick_lazy_at p k i s cs n :
  (n <= run p s)%nat ->
  k (i + n)%nat (skipn n s) cs <> None ->
  (forall n', (n' < n)%nat -> k (i + n')%nat (skipn n' s) cs = None) ->
  pick_lazy p k i s cs = k (i + n)%nat (skipn n s) cs.
Proof.
  intros Hn Hk Hearlier.
  destruct (pick_lazy p k i s cs) as [r|] eqn:E.
  - destruct (pick_lazy_some _ _ _ _ _ _ E) as (n0 & Hn0 & Hk0 & Hmin).
    destruct (Nat.lt_trichotomy n0 n) as [Hlt|[->|Hgt]].
    + rewrite (Hearlier n0) in Hk0 by lia. discriminate.
    + symmetry. exact Hk0.
    + rewrite (Hmin n) in Hk by lia. congruence.
  - exfalso. apply Hk. eapply pick_lazy_none; eassumption.
Qed.

Lemma skipn_run_head p s :
  match skipn (run p s) s with c :: _ => p c = false | [] => True end.
Proof.
  induction s as [|c t IH]; simpl; [exact I|].
  destruct (p c) eqn:E; simpl; [exact IH|exact E].
Qed.

Lemma skipn_in_run p : forall s n,
  (n < run p s)%nat -> exists c t, skipn n s = c :: t /\ p c = true.
Proof.
  induction s as [|c t IH]; intros n Hn; simpl in Hn; [lia|].
  destruct (p c) eqn:E; [|lia].
  destruct n as [|n]; [exists c, t; split; [reflexivity|exact E]|].
  simpl. apply IH. lia.
Qed.

Lemma run_all_true s : run (fun _ => true) s = length s.
Proof. induction s as [|c t IH]; [reflexivity|]. cbn [run length]. rewrite IH. reflexivity. Qed.

Lemma startsWith_prefix p s : startsWith p (p ++ s) = true.
Proof. induction p as [|c p IH]; [reflexivity|]. cbn. rewrite N.eqb_refl. exact IH. Qed.

Lemma startsWith_app p : forall s, startsWith p s = true -> exists t, s = p ++ t.
Proof.
  induction p as [|c p IH]; intros s H.
  - exists s. reflexivity.
  - destruct s as [|d s]; [discriminate|]. cbn in H.
    apply andb_prop in H as [E H]. apply N.eqb_eq in E. subst d.
    destruct (IH _ H) as (t & ->). exists t. reflexivity.
Qed.

(** [find]: the first occurrence. *)
Lemma find_some x : forall s j,
  find x s = Some j ->
  startsWith x (skipn j s) = true /\ (j <= length s)%nat
  /\ forall j', (j' < j)%nat -> startsWith x (skipn j' s) = false.
Proof.
  induction s as [|c t IH]; intros j H; cbn [find] in H.
  - destruct (startsWith x []) eqn:E; [|discriminate]. injection H as <-.
    repeat split; [exact E|cbn; lia|intros; lia].
  - destruct (startsWith x (c :: t)) eqn:E.
    + injection H as <-. repeat split; [exact E|lia|intros; lia].
    + destruct (find x t) as [j0|] eqn:F; [|discriminate]. injection H as <-.
      destruct (IH j0 eq_refl) as (H1 & H2 & H3).
      repeat split; [exact H1|cbn; lia|].
      intros [|j'] Hj; [exact E|]. cbn [skipn]. apply H3. lia.
Qed.

Lemma find_none x : forall s, find x s = None -> forall j, startsWith x (skipn j s) = false.
Proof.
  induction s as [|c t IH]; intros H j; cbn [find] in H.
  - destruct (startsWith x []) eqn:E; [discriminate|]. destruct j; exact E.
  - destruct (startsWith x (c :: t)) eqn:E; [discriminate|].
    destruct (find x t) eqn:F; [discriminate|].
    destruct j as [|j]; [exact E|]. cbn [skipn]. apply IH. reflexivity.
Qed.

Lemma find_first x s j :
  startsWith x (skipn j s) = true -> (j <= length s)%nat ->
  (forall j', (j' < j)%nat -> startsWith x (skipn j' s) = false) ->
  find x s = Some j.
Proof.
  intros H1 H2 H3. destruct (find x s) as [j0|] eqn:F.
  - destruct (find_some _ _ _ F) as (G1 & G2 & G3).
    destruct (Nat.lt_trichotomy j0 j) as [Hlt|[->|Hgt]]; [|reflexivity|].
    + rewrite (H3 _ Hlt) in G1. discriminate.
    + rewrite (G3 _ Hgt) in H1. discriminate.
  - rewrite (find_none _ _ F) in H1. discriminate.
Qed.

Lemma pass_skip {T} (span : jsstring -> option (nat * T)) f : forall s k,
  (k <= length s)%nat -> pass span f k s = pass span f 0 (skipn k s).
Proof.
  induction s as [|c t IH]; intros k Hk.
  - destruct k; [reflexivity|cbn in Hk; lia].
  - destruct k as [|k]; [reflexivity|]. cbn [pass skipn]. apply IH. cbn in Hk. lia.
Qed.

(** A global replace by a pattern whose matches are the stretches of
    [span] is the pass of [span]. *)
Lemma replace_pass {T} (r : re) (span : jsstring -> option (nat * T))
    (cs_of : T -> captures) (F : jsstring -> captures -> jsstring) (h : T -> jsstring) :
  (forall i s, exec_at r i s
               = match span s with
                 | Some (n, x) => Some ((i + n)%nat, skipn n s, cs_of x)
                 | None => None
                 end) ->
  (forall s n x, span s = Some (n, x) -> (1 <= n <= length s)%nat) ->
  (forall matched x, F matched (cs_of x) = h x) ->
  forall s, replace_all r F s = pass span h 0 s.
Proof.
  intros Hexec Hbound HF s. unfold replace_all.
  assert (Hgo : forall fuel s i, (length s < fuel)%nat ->
                  replace_go fuel r F i s = pass span h 0 s); [|apply Hgo; lia].
  clear s. induction fuel as [|fuel IH]; intros s i Hlen; [lia|].
  cbn [replace_go]. rewrite Hexec. destruct s as [|c t].
  - destruct (span []) as [[n x]|] eqn:E; [|reflexivity].
    apply Hbound in E. cbn in E. lia.
  - cbn [pass]. destruct (span (c :: t)) as [[n x]|] eqn:E.
    + destruct (Hbound _ _ _ E) as [H1 H2].
      replace (i + n =? i)%nat with false by (symmetry; apply Nat.eqb_neq; lia).
      rewrite HF. f_equal. destruct n as [|n]; [lia|].
      cbn [skipn]. replace (S n - 1)%nat with n by lia.
      cbn in H2, Hlen. rewrite (pass_skip span h t n) by lia.
      apply IH. rewrite length_skipn. lia.
    + f_equal. apply IH. cbn in Hlen. lia.
Qed.

End Passes.

(** * renderTemplate *)

Section Templates.
Context {L : Libs}.




















End Templates.




(** * The frontmatter pattern *)

Section Frontmatter.

Lemma firstn_run p : forall s n,
  (n <= run p s)%nat -> Forall (fun c => p c = true) (firstn n s).
Proof.
  induction s as [|c t IH]; intros n Hn.
  - rewrite firstn_nil. constructor.
  - destruct n as [|n]; [constructor|]. simpl in Hn.
    destruct (p c) eqn:Hc; [|lia]. cbn [firstn]. constructor; [exact Hc|].
    apply IH. lia.
Qed.

(** A point within the run is a split of the string after a prefix in
    the class. *)
Lemma run_split p (Q : nat -> jsstring -> Prop) i s :
  (exists n, (n <= run p s)%nat /\ Q (i + n)%nat (skipn n s))
  <-> (exists a b, s = a ++ b /\ Forall (fun c => p c = true) a
                   /\ Q (i + length a)%nat b).
Proof.
  split.
  - intros (n & Hn & HQ). exists (firstn n s), (skipn n s).
    split; [symmetry; apply firstn_skipn|]. split; [apply firstn_run; exact Hn|].
    rewrite length_firstn. pose proof (run_le p s).
    replace (Nat.min n (length s)) with n by lia. exact HQ.
  - intros (a & b & -> & Ha & HQ). exists (length a).
    split; [rewrite run_app by exact Ha; lia|].
    rewrite skipn_app, skipn_all, Nat.sub_diag. exact HQ.
Qed.

Lemma pick_greedy_ok p k i s cs :
  pick_greedy p k i s cs <> None
  <-> exists n, (n <= run p s)%nat /\ k (i + n)%nat (skipn n s) cs <> None.
Proof.
  split.
  - intros H. destruct (pick_greedy p k i s cs) as [r|] eqn:E; [|congruence].
    destruct (pick_greedy_some _ _ _ _ _ _ E) as (n & Hn & Hk & _).
    exists n. split; [exact Hn|congruence].
  - intros (n & Hn & Hk). eapply pick_greedy_complete; eassumption.
Qed.

Lemma pick_lazy_ok p k i s cs :
  pick_lazy p k i s cs <> None
  <-> exists n, (n <= run p s)%nat /\ k (i + n)%nat (skipn n s) cs <> None.
Proof.
  split.
  - intros H. destruct (pick_lazy p k i s cs) as [r|] eqn:E; [|congruence].
    destruct (pick_lazy_some _ _ _ _ _ _ E) as (n & Hn & Hk & _).
    exists n. split; [exact Hn|congruence].
  - intros (n & Hn & Hk) E. apply Hk. eapply pick_lazy_none; eassumption.
Qed.

(** Success of a pattern, one leading element at a time. *)
Lemma ok_chr x r i s cs k :
  m (Seq (chr x) r) i s cs k <> None
  <-> exists t, s = x :: t /\ m r (S i) t cs k <> None.
Proof.
  change (m (Seq (chr x) r) i s cs k)
    with (match s with
          | c :: t => if N.eqb x c then m r (S i) t cs k else None
          | [] => None
          end).
  split.
  - destruct s as [|c t]; [congruence|].
    destruct (N.eqb_spec x c) as [<-|]; [|congruence].
    intros H. exists t. split; [reflexivity|exact H].
  - intros (t & -> & H). rewrite N.eqb_refl. exact H.
Qed.

Lemma ok_star_greedy p r i s cs k :
  m (Seq (Star true (Chr p)) r) i s cs k <> None
  <-> exists a b, s = a ++ b /\ Forall (fun c => p c = true) a
                  /\ m r (i + length a)%nat b cs k <> None.
Proof.
  change (m (Seq (Star true (Chr p)) r) i s cs k)
    with (m (Star true (Chr p)) i s cs (fun i' s' cs' => m r i' s' cs' k)).
  rewrite m_star_greedy, pick_greedy_ok.
  apply (run_split p (fun i' s' => m r i' s' cs k <> None)).
Qed.

Lemma ok_group_lazy n p r i s cs k :
  m (Seq (Group n (Star false (Chr p))) r) i s cs k <> None
  <-> exists a b, s = a ++ b /\ Forall (fun c => p c = true) a
                  /\ m r (i + length a)%nat b ((n, a) :: cs) k <> None.
Proof.
  change (m (Seq (Group n (Star false (Chr p))) r) i s cs k)
    with (m (Star false (Chr p)) i s cs
            (fun i' s' cs' => m r i' s' ((n, firstn (i' - i) s) :: cs') k)).
  rewrite m_star_lazy, pick_lazy_ok.
  rewrite (run_split p
             (fun i' s' => m r i' s' ((n, firstn (i' - i) s) :: cs) k <> None)).
  split; intros (a & b & -> & Ha & H); exists a, b;
    (split; [reflexivity|]); (split; [exact Ha|]);
    replace (i + length a - i)%nat with (length a) in * by lia;
    rewrite firstn_app, firstn_all, Nat.sub_diag in *; cbn [firstn] in *;
    rewrite app_nil_r in *; exact H.
Qed.

Lemma ok_rest n i s cs :
  m (Group n (Star true (Chr (fun _ => true)))) i s cs
    (fun i' s' cs' => Some (i', s', cs')) <> None.
Proof.
  change (m (Group n (Star true (Chr (fun _ => true)))) i s cs
            (fun i' s' cs' => Some (i', s', cs')))
    with (m (Star true (Chr (fun _ => true))) i s cs
            (fun i' s' cs' => Some (i', s', (n, firstn (i' - i) s) :: cs'))).
  rewrite m_star_greedy. apply pick_greedy_ok. exists O. split; [lia|discriminate].
Qed.

Lemma frontmatter_exec_unfold i file :
  exec_at frontmatterRegex i file
  = m (Seq Bol (Seq (chr 45) (Seq (chr 45) (Seq (chr 45)
        (Seq (Star true (Chr is_space)) (Seq (chr 10)
          (Seq (Group 1 (Star false (Chr (fun _ => true)))) (Seq (chr 10)
            (Seq (chr 45) (Seq (chr 45) (Seq (chr 45)
              (Seq (Star true (Chr is_space)) (Seq (chr 10)
                (Group 2 (Star true (Chr (fun _ => true)))))))))))))))))
      i file [] (fun i' s' cs' => Some (i', s', cs')).
Proof. reflexivity. Qed.

Lemma frontmatter_exec_ok file :
  exec_at frontmatterRegex 0 file <> None <-> has_frontmatter file.
Proof.
  rewrite frontmatter_exec_unfold.
  match goal with
  | |- m (Seq Bol ?r) 0 ?s ?cs ?k <> None <-> _ =>
      change (m (Seq Bol r) 0 s cs k) with (m r 0 s cs k)
  end.
  unfold has_frontmatter. change (str "---") with [45%N; 45%N; 45%N].
  split.
  - intros H.
    apply ok_chr in H as (t1 & -> & H). apply ok_chr in H as (t2 & -> & H).
    apply ok_chr in H as (t3 & -> & H).
    apply ok_star_greedy in H as (ws & t4 & -> & Hws & H).
    apply ok_chr in H as (t5 & -> & H).
    apply ok_group_lazy in H as (metadata & t6 & -> & _ & H).
    apply ok_chr in H as (t7 & -> & H). apply ok_chr in H as (t8 & -> & H).
    apply ok_chr in H as (t9 & -> & H). apply ok_chr in H as (t10 & -> & H).
    apply ok_star_greedy in H as (ws' & t11 & -> & Hws' & H).
    apply ok_chr in H as (body & -> & H).
    exists ws, metadata, ws', body. split; [reflexivity|]. split; assumption.
  - intros (ws & metadata & ws' & body & -> & Hws & Hws'). cbn [app].
    apply ok_chr. eexists. split; [reflexivity|].
    apply ok_chr. eexists. split; [reflexivity|].
    apply ok_chr. eexists. split; [reflexivity|].
    apply ok_star_greedy. exists ws. eexists. split; [reflexivity|]. split; [exact Hws|].
    apply ok_chr. eexists. split; [reflexivity|].
    apply ok_group_lazy. exists metadata. eexists. split; [reflexivity|].
    split; [apply Forall_forall; reflexivity|].
    apply ok_chr. eexists. split; [reflexivity|].
    apply ok_chr. eexists. split; [reflexivity|].
    apply ok_chr. eexists. split; [reflexivity|].
    apply ok_chr. eexists. split; [reflexivity|].
    apply ok_star_greedy. exists ws'. eexists. split; [reflexivity|]. split; [exact Hws'|].
    apply ok_chr. eexists. split; [reflexivity|].
    apply ok_rest.
Qed.

Lemma search_bol_later r : forall s i,
  search (Seq Bol r) (S i) s = None.
Proof.
  induction s as [|c t IH]; intros i; [reflexivity|].
  cbn [search]. unfold exec_at. cbn [m Nat.eqb]. apply IH.
Qed.

Lemma frontmatter_search_none file :
  search frontmatterRegex 0 file = None <-> ~ has_frontmatter file.
Proof.
  rewrite <- frontmatter_exec_ok.
  assert (E : search frontmatterRegex 0 file
              = match exec_at frontmatterRegex 0 file with
                | Some st => Some (O, st)
                | None => None
                end).
  { destruct file as [|c t]; cbn [search]; destruct (exec_at frontmatterRegex 0 _);
      try reflexivity.
    apply (search_bol_later _ t O). }
  rewrite E. destruct (exec_at frontmatterRegex 0 file); split; intros H; try congruence.
  exfalso. apply H. discriminate.
Qed.

End Frontmatter.

(** * Rendering with the hooks *)

Section Rendering.
Context {L : Libs}.

(** With an article being rendered, the image hook throws on every
    token: the pattern is tested on the text of the token object. *)
Lemma renderer_image_token a href title text t x :
  renderer_image (Some a) (ImageToken href title text) t x = inl TypeError.
Proof. reflexivity. Qed.

Lemma render_token_current g out tok g' out' :
  render_token (g, out) tok = inr (g', out') ->
  currentArticleForRenderer g' = currentArticleForRenderer g.
Proof.
  destruct tok as [h|lang text|href title text]; cbn [render_token].
  - intros H. injection H as <- _. reflexivity.
  - destruct (renderer_code (currentArticleLanguages g) lang text) as [langs h].
    intros H. injection H as <- _. reflexivity.
  - destruct (renderer_image _ _ _ _); cbn [bind]; [discriminate|].
    intros H. injection H as <- _. reflexivity.
Qed.

Lemma render_token_image g out a href title text :
  currentArticleForRenderer g = Some a ->
  render_token (g, out) (ImageTok href title text) = inl TypeError.
Proof. intros H. cbn [render_token]. rewrite H. reflexivity. Qed.

Lemma render_token_other g out tok :
  is_image tok = false -> exists g' out', render_token (g, out) tok = inr (g', out').
Proof.
  destruct tok as [h|lang text|href title text]; [| |discriminate]; intros _; cbn [render_token].
  - eauto.
  - destruct (renderer_code (currentArticleLanguages g) lang text) as [langs h]. eauto.
Qed.

(** Rendering for an article succeeds exactly when marked meets no image
    token; when it meets one, the exception is the TypeError of the image
    hook. *)
Lemma foldM_render a : forall toks g out,
  currentArticleForRenderer g = Some a ->
  if existsb is_image toks
  then foldM render_token toks (g, out) = inl TypeError
  else exists g' out', foldM render_token toks (g, out) = inr (g', out')
                       /\ currentArticleForRenderer g' = Some a.
Proof.
  induction toks as [|tok toks IH]; intros g out Hg.
  - cbn. eauto.
  - cbn [existsb foldM]. destruct (is_image tok) eqn:Ei.
    + destruct tok as [h|lang text|href title text]; try discriminate.
      rewrite (render_token_image g out a href title text Hg). reflexivity.
    + destruct (render_token_other g out tok Ei) as (g1 & out1 & E).
      rewrite E. cbn [orb bind].
      apply IH. rewrite (render_token_current _ _ _ _ _ E). exact Hg.
Qed.

Lemma marked_parse_images g a src :
  currentArticleForRenderer g = Some a ->
  existsb is_image (marked_tokens src) = true ->
  marked_parse g src = inl TypeError.
Proof.
  intros Hg Hi. unfold marked_parse.
  pose proof (foldM_render a (marked_tokens src) g [] Hg) as H.
  rewrite Hi in H. exact H.
Qed.

Lemma marked_parse_plain g a src :
  currentArticleForRenderer g = Some a ->
  existsb is_image (marked_tokens src) = false ->
  exists g' out, marked_parse g src = inr (g', out)
                 /\ currentArticleForRenderer g' = Some a.
Proof.
  intros Hg Hi. unfold marked_parse.
  pose proof (foldM_render a (marked_tokens src) g [] Hg) as H.
  rewrite Hi in H. exact H.
Qed.

Lemma marked_parse_error g a src e :
  currentArticleForRenderer g = Some a ->
  marked_parse g src = inl e ->
  e = TypeError /\ existsb is_image (marked_tokens src) = true.
Proof.
  intros Hg He. unfold marked_parse in He.
  pose proof (foldM_render a (marked_tokens src) g [] Hg) as H.
  destruct (existsb is_image (marked_tokens src)).
  - split; [congruence|reflexivity].
  - destruct H as (g' & out & E & _). congruence.
Qed.


End Rendering.

(** * Parse failures and the build *)

Section ParseFailure.
Context {L : Libs}.

(** What a successful parse went through. *)
Lemma parseMarkdownFile_inr now g path data g' a :
  parseMarkdownFile now g path data = inr (g', a) ->
  exists file cs fm g2 out,
    data = Some file
    /\ (exists b e rest, search frontmatterRegex 0 file = Some (b, (e, rest, cs)))
    /\ yaml_load (cap 1 cs) = YamlMapping fm
    /\ marked_parse
         {| currentArticleLanguages := [];
            currentArticleForRenderer :=
              Some (set_images (new_Article now (cap 2 cs) fm path)
                      (extract_images (cap 2 cs))) |}
         (cap 2 cs) = inr (g2, out)
    /\ a = set_languages
             (set_images (new_Article now (cap 2 cs) fm path) (extract_images (cap 2 cs)))
             (currentArticleLanguages g2)
    /\ g' = {| currentArticleLanguages := currentArticleLanguages g2;
               currentArticleForRenderer := None |}.
Proof.
  unfold parseMarkdownFile. destruct data as [file|]; [|discriminate].
  destruct (search frontmatterRegex 0 file) as [[b [[e rest] cs]]|] eqn:Es; [|discriminate].
  destruct (yaml_load (cap 1 cs)) as [| |fm] eqn:Ey; try discriminate.
  cbv zeta.
  change (content (set_images (new_Article now (cap 2 cs) fm path)
                     (extract_images (cap 2 cs)))) with (cap 2 cs).
  destruct (marked_parse _ (cap 2 cs)) as [err|[g2 out]] eqn:Em; [discriminate|].
  cbn [bind fst currentArticleLanguages]. intros H. injection H as <- <-.
  exists file, cs, fm, g2, out. repeat split; try assumption; eauto.
Qed.

Lemma parse_all_fails now path data e : forall files g,
  In (path, data) files ->
  parseMarkdownFile now initial_globals path data = inl e ->
  exists e', parse_all now g files = inl e'.
Proof.
  induction files as [|[p d] rest IH]; intros g Hin Hfail; [destruct Hin|].
  cbn [parse_all].
  destruct (parseMarkdownFile now g p d) as [e0|[g' a]] eqn:Hp.
  - exists e0. reflexivity.
  - destruct Hin as [Heq|Hin].
    + injection Heq as -> ->.
      change (parseMarkdownFile now g path data)
        with (parseMarkdownFile now initial_globals path data) in Hp.
      congruence.
    + destruct (IH g' Hin Hfail) as (e' & E). exists e'.
      cbn [bind fst]. rewrite E. reflexivity.
Qed.

End ParseFailure.

(** C2 (amended).  parseMarkdownFile throws its "No frontmatter found"
    error exactly when the file does not start with the frontmatter
    layout (three dashes, optional white space, a line feed, the metadata,
    a line feed, three dashes, optional white space, a line feed).  A file
    that fails to parse, for this or any other reason, makes the build
    exit with code 1 after it has created the output directory and before
    it writes anything. *)
Theorem parse_failure_is_fatal {L : Libs} :
  (forall now g path file,
      parseMarkdownFile now g path (Some file) = inl (no_frontmatter path)
      <-> ~ has_frontmatter file)
  /\ (forall w now entries path data e,
        articles_tree w = Some entries ->
        In (path, data) (findMarkdownFiles ARTICLES_DIR entries) ->
        parseMarkdownFile now initial_globals path data = inl e ->
        build w now = {| effects := [Mkdir DIST_DIR]; final := Exit 1 |}).
Proof.
  split.
  - intros now g path file. rewrite <- frontmatter_search_none.
    unfold parseMarkdownFile.
    destruct (search frontmatterRegex 0 file) as [[b [[e rest] cs]]|].
    + split; [|discriminate].
      destruct (yaml_load (cap 1 cs)); try discriminate.
      cbv zeta. destruct (marked_parse _ _) as [err|r] eqn:Em; cbn [bind]; [|discriminate].
      eapply marked_parse_error in Em as [-> _]; [discriminate|reflexivity].
    + split; reflexivity.
  - intros w now entries path data e Htree Hin Hfail.
    unfold build. destruct (styles_css w); [|reflexivity].
    destruct (loadTemplates w); [reflexivity|].
    rewrite Htree.
    destruct (parse_all_fails now path data e _ initial_globals Hin Hfail) as (e' & E).
    rewrite E. reflexivity.
Qed.

Lemma parse_failure_is_fatal_witness :
  build (L := Sample.libs)
    (Sample.site [(str "bad.md", File (Some (str "# No frontmatter")))]) 0
  = {| effects := [Mkdir DIST_DIR]; final := Exit 1 |}.
Proof.
  apply (proj2 (parse_failure_is_fatal (L := Sample.libs)) _ 0%Z
           [(str "bad.md", File (Some (str "# No frontmatter")))]
           (str "articles/bad.md") (Some (str "# No frontmatter"))
           (no_frontmatter (str "articles/bad.md"))).
  - reflexivity.
  - vm_compute. left. reflexivity.
  - reflexivity.
Defined.

(** C2, as stated, fails: a file whose metadata block is empty has the
    delimiter pair at its very start, and parseMarkdownFile still fails
    on it, with the TypeError of reading [title] from what the loader
    returned; so does a file whose metadata the loader rejects. *)
Lemma empty_metadata_fails :
  has_frontmatter (str "---

---
body")
  /\ parseMarkdownFile (L := Sample.libs) 0 initial_globals (str "articles/empty.md")
       (Some (str "---

---
body"))
     = inl TypeError
  /\ has_frontmatter (str "---
title: [
---
body")
  /\ parseMarkdownFile (L := Sample.libs) 0 initial_globals (str "articles/broken.md")
       (Some (str "---
title: [
---
body"))
     = inl YAMLException.
Proof.
  split; [|split; [reflexivity|split; [|reflexivity]]].
  - exists [], [], [], (str "body"). repeat split; constructor.
  - exists [], (str "title: ["), [], (str "body"). repeat split; constructor.
Qed.

(** * The image pattern *)

Section Images.

(** What a successful match went through, one leading element at a time. *)
Lemma some_chr x r i s cs k st :
  m (Seq (chr x) r) i s cs k = Some st ->
  exists t, s = x :: t /\ m r (S i) t cs k = Some st.
Proof.
  change (m (Seq (chr x) r) i s cs k)
    with (match s with
          | c :: t => if N.eqb x c then m r (S i) t cs k else None
          | [] => None
          end).
  destruct s as [|c t]; [discriminate|].
  destruct (N.eqb_spec x c) as [<-|]; [|discriminate].
  intros H. exists t. split; [reflexivity|exact H].
Qed.

Lemma some_star_lazy p r i s cs k st :
  m (Seq (Star false (Chr p)) r) i s cs k = Some st ->
  exists a b, s = a ++ b /\ Forall (fun c => p c = true) a
              /\ m r (i + length a)%nat b cs k = Some st.
Proof.
  change (m (Seq (Star false (Chr p)) r) i s cs k)
    with (m (Star false (Chr p)) i s cs (fun i' s' cs' => m r i' s' cs' k)).
  rewrite m_star_lazy. intros H.
  destruct (pick_lazy_some _ _ _ _ _ _ H) as (n & Hn & Hk & _).
  apply (run_split p (fun i' s' => m r i' s' cs k = Some st)).
  exists n. split; assumption.
Qed.

Lemma some_group_lazy n p r i s cs k st :
  m (Seq (Group n (Star false (Chr p))) r) i s cs k = Some st ->
  exists a b, s = a ++ b /\ Forall (fun c => p c = true) a
              /\ m r (i + length a)%nat b ((n, a) :: cs) k = Some st.
Proof.
  change (m (Seq (Group n (Star false (Chr p))) r) i s cs k)
    with (m (Star false (Chr p)) i s cs
            (fun i' s' cs' => m r i' s' ((n, firstn (i' - i) s) :: cs') k)).
  rewrite m_star_lazy. intros H.
  destruct (pick_lazy_some _ _ _ _ _ _ H) as (j & Hj & Hk & _).
  assert (Hs : exists a b, s = a ++ b /\ Forall (fun c => p c = true) a
                /\ m r (i + length a)%nat b
                     ((n, firstn (i + length a - i) s) :: cs) k = Some st).
  { apply (run_split p
             (fun i' s' => m r i' s' ((n, firstn (i' - i) s) :: cs) k = Some st)).
    exists j. split; assumption. }
  destruct Hs as (a & b & -> & Ha & Hm). exists a, b.
  split; [reflexivity|]. split; [exact Ha|].
  replace (i + length a - i)%nat with (length a) in Hm by lia.
  rewrite firstn_app, firstn_all, Nat.sub_diag in Hm. cbn [firstn] in Hm.
  rewrite app_nil_r in Hm. exact Hm.
Qed.

Lemma some_neglook a r i s cs k st :
  m (Seq (NegLook a) r) i s cs k = Some st ->
  m a i s cs (fun i' s' cs' => Some (i', s', cs')) = None
  /\ m r i s cs k = Some st.
Proof.
  change (m (Seq (NegLook a) r) i s cs k)
    with (match m a i s cs (fun i' s' cs' => Some (i', s', cs')) with
          | Some _ => None
          | None => m r i s cs k
          end).
  destruct (m a i s cs (fun i' s' cs' => Some (i', s', cs'))); [discriminate|].
  intros H. split; [reflexivity|exact H].
Qed.

Lemma some_last_chr x i s cs st :
  m (chr x) i s cs (fun i' s' cs' => Some (i', s', cs')) = Some st ->
  exists t, s = x :: t /\ st = (S i, t, cs).
Proof.
  cbn [m chr]. destruct s as [|c t]; [discriminate|].
  destruct (N.eqb_spec x c) as [<-|]; [|discriminate].
  intros H. injection H as <-. exists t. split; reflexivity.
Qed.

Lemma image_exec_unfold i s :
  exec_at imageRegex i s
  = m (Seq (chr 33) (Seq (chr 91) (Seq (Star false (Chr (fun c => negb (is_line_terminator c))))
        (Seq (chr 93) (Seq (chr 40) (Seq (NegLook schemeRegex)
          (Seq (Group 1 (Star false (Chr (fun c => negb (is_line_terminator c)))))
             (chr 41))))))))
      i s [] (fun i' s' cs' => Some (i', s', cs')).
Proof. reflexivity. Qed.

Lemma scheme_matches i t rest cs :
  startsWith (str "http://") t = true \/ startsWith (str "https://") t = true ->
  m schemeRegex i (t ++ rest) cs (fun i' s' cs' => Some (i', s', cs')) <> None.
Proof.
  intros [H|H].
  - destruct t as [|c1 [|c2 [|c3 [|c4 [|c5 [|c6 [|c7 t]]]]]]]; cbn in H;
      repeat (apply andb_prop in H; destruct H as [E H]; apply N.eqb_eq in E; subst);
      try discriminate H.
    cbn. discriminate.
  - destruct t as [|c1 [|c2 [|c3 [|c4 [|c5 [|c6 [|c7 [|c8 t]]]]]]]]; cbn in H;
      repeat (apply andb_prop in H; destruct H as [E H]; apply N.eqb_eq in E; subst);
      try discriminate H.
    cbn. discriminate.
Qed.

(** Whatever the pattern captures is not an http or https URL. *)
Lemma image_capture_not_http i s st :
  exec_at imageRegex i s = Some st ->
  startsWith (str "http://") (cap 1 (snd st)) = false
  /\ startsWith (str "https://") (cap 1 (snd st)) = false.
Proof.
  rewrite image_exec_unfold. intros H.
  apply some_chr in H as (t1 & -> & H). apply some_chr in H as (t2 & -> & H).
  apply some_star_lazy in H as (alt & t3 & -> & _ & H).
  apply some_chr in H as (t4 & -> & H). apply some_chr in H as (t5 & -> & H).
  apply some_neglook in H as (Hlook & H).
  apply some_group_lazy in H as (target & t6 & -> & _ & H).
  apply some_last_chr in H as (t7 & -> & ->). cbn [snd cap Nat.eqb].
  pose proof (scheme_matches (S (S (S (S i)) + length alt)) target (41%N :: t7) []) as Hs.
  destruct (startsWith (str "http://") target) eqn:E1.
  - exfalso. apply Hs; [left; reflexivity|].
    rewrite <- Hlook. f_equal; lia.
  - destruct (startsWith (str "https://") target) eqn:E2; [|split; reflexivity].
    exfalso. apply Hs; [right; reflexivity|].
    rewrite <- Hlook. f_equal; lia.
Qed.

Lemma search_some r : forall s i b st,
  search r i s = Some (b, st) -> exists s', exec_at r b s' = Some st.
Proof.
  induction s as [|c t IH]; intros i b st H; cbn [search] in H.
  - destruct (exec_at r i []) eqn:E; [|discriminate].
    injection H as <- <-. exists []. exact E.
  - destruct (exec_at r i (c :: t)) eqn:E.
    + injection H as <- <-. exists (c :: t). exact E.
    + apply (IH _ _ _ H).
Qed.

Lemma exec_loop_captures r (P : captures -> Prop) :
  (forall i s st, exec_at r i s = Some st -> P (snd st)) ->
  forall fuel i s, Forall (fun mt => P (snd mt)) (exec_loop fuel r i s).
Proof.
  intros HP. induction fuel as [|fuel IH]; intros i s; [constructor|].
  cbn [exec_loop]. destruct (search r i s) as [[b [[e rest] cs]]|] eqn:E; [|constructor].
  constructor; [|apply IH].
  destruct (search_some _ _ _ _ _ E) as (s' & Hs'). apply (HP _ _ _ Hs').
Qed.

Lemma extract_images_not_http markdownContent :
  Forall (fun target => startsWith (str "http://") target = false
                        /\ startsWith (str "https://") target = false)
    (extract_images markdownContent).
Proof.
  unfold extract_images, exec_all. apply Forall_map.
  apply (exec_loop_captures imageRegex
           (fun cs => startsWith (str "http://") (cap 1 cs) = false
                      /\ startsWith (str "https://") (cap 1 cs) = false)).
  intros i s st. apply image_capture_not_http.
Qed.

End Images.

Section ImageReference.

(** How a match is reached, one leading element at a time. *)
Lemma fwd_chr x r i t cs k st :
  m r (S i) t cs k = Some st -> m (Seq (chr x) r) i (x :: t) cs k = Some st.
Proof.
  intros H.
  change (m (Seq (chr x) r) i (x :: t) cs k)
    with (if N.eqb x x then m r (S i) t cs k else None).
  rewrite N.eqb_refl. exact H.
Qed.

Lemma pick_lazy_skip p k b cs : forall a i,
  Forall (fun c => p c = true /\ forall i' t cs', k i' (c :: t) cs' = None) a ->
  pick_lazy p k i (a ++ b) cs = pick_lazy p k (i + length a)%nat b cs.
Proof.
  induction a as [|c a IH]; intros i Ha.
  - simpl. rewrite Nat.add_0_r. reflexivity.
  - inversion Ha as [|? ? [Hc Hk] Ha']; subst.
    cbn [app pick_lazy]. rewrite Hk, Hc, (IH (S i) Ha').
    f_equal. simpl. lia.
Qed.

Lemma pick_lazy_now p k i s cs st :
  k i s cs = Some st -> pick_lazy p k i s cs = Some st.
Proof. intros H. destruct s; cbn [pick_lazy]; rewrite H; reflexivity. Qed.

Lemma fwd_lazy_until p x r a t i cs k st :
  Forall (fun c => p c = true /\ c <> x) a ->
  m r (S (i + length a)) t cs k = Some st ->
  m (Seq (Star false (Chr p)) (Seq (chr x) r)) i (a ++ x :: t) cs k = Some st.
Proof.
  intros Ha H.
  change (m (Seq (Star false (Chr p)) (Seq (chr x) r)) i (a ++ x :: t) cs k)
    with (m (Star false (Chr p)) i (a ++ x :: t) cs
            (fun i' s' cs' => m (Seq (chr x) r) i' s' cs' k)).
  rewrite m_star_lazy, pick_lazy_skip.
  - apply pick_lazy_now. apply fwd_chr. exact H.
  - eapply Forall_impl; [exact Ha|]. intros c [Hc Hx]. split; [exact Hc|].
    intros i' t' cs'.
    change (m (Seq (chr x) r) i' (c :: t') cs' k)
      with (if N.eqb x c then m r (S i') t' cs' k else None).
    replace (N.eqb x c) with false by (symmetry; apply N.eqb_neq; congruence).
    reflexivity.
Qed.

Lemma fwd_group_lazy_last n p x a t i cs :
  Forall (fun c => p c = true /\ c <> x) a ->
  m (Seq (Group n (Star false (Chr p))) (chr x)) i (a ++ x :: t) cs kid
  = Some (S (i + length a), t, (n, a) :: cs).
Proof.
  intros Ha.
  change (m (Seq (Group n (Star false (Chr p))) (chr x)) i (a ++ x :: t) cs kid)
    with (m (Star false (Chr p)) i (a ++ x :: t) cs
            (fun i' s' cs' =>
               m (chr x) i' s' ((n, firstn (i' - i) (a ++ x :: t)) :: cs') kid)).
  rewrite m_star_lazy, pick_lazy_skip.
  - apply pick_lazy_now. cbn [m chr]. rewrite N.eqb_refl. unfold kid.
    replace (i + length a - i)%nat with (length a) by lia.
    rewrite firstn_app, firstn_all, Nat.sub_diag. cbn [firstn].
    rewrite app_nil_r. reflexivity.
  - eapply Forall_impl; [exact Ha|]. intros c [Hc Hx]. split; [exact Hc|].
    intros i' t' cs'. cbn [m chr].
    replace (N.eqb x c) with false by (symmetry; apply N.eqb_neq; congruence).
    reflexivity.
Qed.

Lemma fwd_neglook a r i s cs k st :
  m a i s cs kid = None -> m r i s cs k = Some st ->
  m (Seq (NegLook a) r) i s cs k = Some st.
Proof.
  intros Ha H.
  change (m (Seq (NegLook a) r) i s cs k)
    with (match m a i s cs kid with Some _ => None | None => m r i s cs k end).
  rewrite Ha. exact H.
Qed.

Lemma scheme_fails i s cs :
  match s with c :: _ => c <> 104%N | [] => True end ->
  m schemeRegex i s cs kid = None.
Proof.
  destruct s as [|c t]; [reflexivity|]. intros Hc. cbn [schemeRegex m chr].
  replace (N.eqb 104 c) with false by (symmetry; apply N.eqb_neq; congruence).
  reflexivity.
Qed.

(** An image reference whose alternative text and target hold no closing
    delimiter of their own, and whose target does not begin with an [h]:
    the pattern matches it at once and captures the target. *)
Lemma image_exec_reference i alt target rest :
  Forall (fun c => negb (is_line_terminator c) = true /\ c <> 93%N) alt ->
  Forall (fun c => negb (is_line_terminator c) = true /\ c <> 41%N) target ->
  match target with c :: _ => c <> 104%N | [] => True end ->
  exists e,
    exec_at imageRegex i
      (str "![" ++ alt ++ str "](" ++ target ++ str ")" ++ rest)
    = Some (e, rest, [(1%nat, target)]).
Proof.
  intros Halt Htarget Hhead. eexists.
  rewrite image_exec_unfold.
  change (str "![" ++ alt ++ str "](" ++ target ++ str ")" ++ rest)
    with (33%N :: 91%N :: alt ++ 93%N :: 40%N :: target ++ 41%N :: rest).
  apply fwd_chr, fwd_chr, fwd_lazy_until; [exact Halt|].
  apply fwd_chr, fwd_neglook.
  - apply scheme_fails. destruct target; [discriminate|exact Hhead].
  - apply fwd_group_lazy_last. exact Htarget.
Qed.

Lemma image_exec_other i c t : c <> 33%N -> exec_at imageRegex i (c :: t) = None.
Proof.
  intros Hc. rewrite image_exec_unfold. cbn [m chr].
  replace (N.eqb 33 c) with false by (symmetry; apply N.eqb_neq; congruence).
  reflexivity.
Qed.

Lemma image_search_skip s : forall pre i,
  Forall (fun c => c <> 33%N) pre -> s <> [] ->
  search imageRegex i (pre ++ s) = search imageRegex (i + length pre)%nat s.
Proof.
  induction pre as [|c pre IH]; intros i Hpre Hs.
  - simpl. rewrite Nat.add_0_r. reflexivity.
  - inversion Hpre as [|? ? Hc Hpre']; subst.
    cbn [app search]. rewrite (image_exec_other i c _ Hc), (IH (S i) Hpre' Hs).
    f_equal. simpl. lia.
Qed.

Lemma extract_images_reference pre alt target rest :
  Forall (fun c => c <> 33%N) pre ->
  Forall (fun c => negb (is_line_terminator c) = true /\ c <> 93%N) alt ->
  Forall (fun c => negb (is_line_terminator c) = true /\ c <> 41%N) target ->
  match target with c :: _ => c <> 104%N | [] => True end ->
  exists others,
    extract_images (pre ++ str "![" ++ alt ++ str "](" ++ target ++ str ")" ++ rest)
    = target :: others.
Proof.
  intros Hpre Halt Htarget Hhead.
  unfold extract_images, exec_all. cbn [exec_loop].
  rewrite image_search_skip by (assumption || discriminate).
  destruct (image_exec_reference (0 + length pre) alt target rest Halt Htarget Hhead)
    as (e & E).
  assert (Hs : search imageRegex (0 + length pre)
                 (str "![" ++ alt ++ str "](" ++ target ++ str ")" ++ rest)
               = Some ((0 + length pre)%nat, (e, rest, [(1%nat, target)]))).
  { change (str "![" ++ alt ++ str "](" ++ target ++ str ")" ++ rest)
      with (33%N :: 91%N :: alt ++ str "](" ++ target ++ str ")" ++ rest) in *.
    cbn [search]. rewrite E. reflexivity. }
  rewrite Hs. cbn [List.map snd cap Nat.eqb]. eexists. reflexivity.
Qed.

End ImageReference.

Section ImageHook.
Context {L : Libs}.

Lemma parse_article now g path file g' a :
  parseMarkdownFile now g path (Some file) = inr (g', a) ->
  images a = extract_images (content a) /\ filePath a = path.
Proof.
  intros H.
  apply parseMarkdownFile_inr in H as (f & cs & fm & g2 & out & _ & _ & _ & _ & -> & _).
  split; reflexivity.
Qed.

(** A file whose body gives marked an image to render does not parse:
    the image hook throws. *)
Lemma image_aborts_parse now g path file b e rest cs fm :
  search frontmatterRegex 0 file = Some (b, (e, rest, cs)) ->
  yaml_load (cap 1 cs) = YamlMapping fm ->
  existsb is_image (marked_tokens (cap 2 cs)) = true ->
  parseMarkdownFile now g path (Some file) = inl TypeError.
Proof.
  intros Hs Hy Hi. unfold parseMarkdownFile. rewrite Hs, Hy. cbv zeta.
  change (content (set_images (new_Article now (cap 2 cs) fm path)
                     (extract_images (cap 2 cs)))) with (cap 2 cs).
  erewrite marked_parse_images; [reflexivity|reflexivity|exact Hi].
Qed.

End ImageHook.

(** C8.  The round trip does not take place: a build whose articles hold
    an image reference does not complete.  marked passes the image hook
    the token; the hook tests its pattern on the text of the token
    object, takes the target for relative whatever it is and calls
    [startsWith] on the token, a TypeError.  On a site with one article,
    at [/articles/2025/foo], whose body is the image reference
    [./pic.png]: the parse pass has recorded the target, it would be
    copied to [dist/articles/2025/foo/pic.png], and the hook, given the
    target as a string, would render an [img] with the source
    [/articles/2025/foo/pic.png]; but the file does not parse and the
    build exits with code 1 having only created [dist]: no page is
    written and nothing is copied. *)
Theorem image_reference_aborts_build :
  (forall (L : Libs) a href title text t x,
      renderer_image (Some a) (ImageToken href title text) t x = inl TypeError)
  /\ (forall (L : Libs) g a src,
        currentArticleForRenderer g = Some a ->
        existsb is_image (marked_tokens src) = true ->
        marked_parse g src = inl TypeError)
  /\ let body := str "![A picture](./pic.png)" in
     let a := set_images
                (new_Article (L := Sample.libs) 0 body
                   {| fm_title := Some (VStr (str "Hello"));
                      fm_date := Some (DateObject (Some 1736899200000%Z));
                      fm_description := None; fm_tags := None |}
                   (str "articles/2025/foo.md"))
                (extract_images body) in
     url a = str "/articles/2025/foo"
     /\ images a = [str "./pic.png"]
     /\ copy_image a (str "./pic.png")
        = Cp (str "articles/2025/pic.png") (str "dist/articles/2025/foo/pic.png")
     /\ renderer_image (L := Sample.libs) (Some a) (Href (str "./pic.png")) Null
          (Str (str "A picture"))
        = inr (html "<img src=^/articles/2025/foo/pic.png^ alt=^A picture^>")
     /\ In (ImageTok (str "./pic.png") None (str "A picture"))
           (@marked_tokens Sample.libs body)
     /\ parseMarkdownFile (L := Sample.libs) 0 initial_globals (str "articles/2025/foo.md")
          (Some (str "---
title: Hello
date: 2025-01-15
---
![A picture](./pic.png)"))
        = inl TypeError
     /\ build (L := Sample.libs) (Sample.site (Sample.foo_tree body)) 0
        = {| effects := [Mkdir DIST_DIR]; final := Exit 1 |}.
Proof.
  split; [intros; reflexivity|]. split; [intros L g a src; apply marked_parse_images|].
  cbv zeta. repeat split; try (vm_compute; reflexivity).
  vm_compute. right. right. left. reflexivity.
Qed.

(** C10.  A target that begins with [//] is recorded by the parse pass,
    whose lookahead excludes only [http://] and [https://], and the
    pattern of the image hook would take it for absolute; but marked
    passes the hook the token, the pattern is tested on the text of the
    token object and fails, and the hook throws on [startsWith].  The
    file does not parse and the build exits with code 1 having only
    created [dist]: no copy is attempted and no [img] is written. *)
Theorem protocol_relative_image_aborts_build :
  let target := str "//cdn.example.com/x.png" in
  let body := str "![Logo](//cdn.example.com/x.png)" in
  extract_images body = [target]
  /\ test absoluteRegex target = true
  /\ test absoluteRegex (String_of_arg (ImageToken target None (str "Logo"))) = false
  /\ In (ImageTok target None (str "Logo")) (@marked_tokens Sample.libs body)
  /\ (forall a t x,
        renderer_image (L := Sample.libs) (Some a) (ImageToken target None (str "Logo")) t x
        = inl TypeError)
  /\ parseMarkdownFile (L := Sample.libs) 0 initial_globals (str "articles/2025/foo.md")
       (Some (str "---
title: Hello
date: 2025-01-15
---
![Logo](//cdn.example.com/x.png)"))
     = inl TypeError
  /\ build (L := Sample.libs) (Sample.site (Sample.foo_tree body)) 0
     = {| effects := [Mkdir DIST_DIR]; final := Exit 1 |}.
Proof.
  cbv zeta. repeat split; try (vm_compute; reflexivity).
  vm_compute. right. right. left. reflexivity.
Qed.

(** * The search index *)

Section Excerpt.

Lemma tagRegex_exec i s :
  exec_at tagRegex i s
  = m (Seq (chr 60) (Seq (Star true (Chr (fun d => negb (N.eqb 62 d)))) (chr 62)))
      i s [] kid.
Proof. reflexivity. Qed.

(** [<[^>]*>] at an opening bracket: up to the first closing bracket. *)
Lemma tag_exec_open i t :
  exec_at tagRegex i (60%N :: t)
  = match skipn (run (fun d => negb (N.eqb 62 d)) t) t with
    | _ :: b => Some (S (S (i + run (fun d => negb (N.eqb 62 d)) t)), b, [])
    | [] => None
    end.
Proof.
  rewrite tagRegex_exec.
  change (m (Seq (chr 60) (Seq (Star true (Chr (fun d => negb (N.eqb 62 d)))) (chr 62)))
            i (60%N :: t) [] kid)
    with (m (Star true (Chr (fun d => negb (N.eqb 62 d)))) (S i) t []
            (fun i' s' cs' => m (chr 62) i' s' cs' kid)).
  rewrite m_star_greedy.
  set (p := fun d => negb (N.eqb 62 d)).
  pose proof (skipn_run_head p t) as Hhead.
  destruct (skipn (run p t) t) as [|c b] eqn:E.
  - apply pick_greedy_all_fail. intros n Hn.
    destruct (Nat.eq_dec n (run p t)) as [->|Hne]; [rewrite E; reflexivity|].
    destruct (skipn_in_run p t n ltac:(lia)) as (c & u & -> & Hc).
    cbn [m chr]. unfold p in Hc. destruct (N.eqb 62 c); [discriminate|reflexivity].
  - apply pick_greedy_max. rewrite E. cbn [m chr].
    unfold p in Hhead. destruct (N.eqb 62 c); [|discriminate].
    reflexivity.
Qed.

Lemma tag_exec_other i c t : c <> 60%N -> exec_at tagRegex i (c :: t) = None.
Proof.
  intros Hc. rewrite tagRegex_exec. cbn [m chr].
  replace (N.eqb 60 c) with false by (symmetry; apply N.eqb_neq; congruence).
  reflexivity.
Qed.

Lemma run_no_close t :
  skipn (run (fun d => negb (N.eqb 62 d)) t) t = [] -> no_close t.
Proof.
  unfold no_close. induction t as [|c t IH]; [reflexivity|].
  cbn [run skipn forallb]. rewrite (N.eqb_sym c 62).
  destruct (N.eqb 62 c); cbn [negb skipn andb]; intros H; [discriminate H|].
  apply IH. exact H.
Qed.

Lemma no_close_skipn n : forall t, no_close t -> no_close (skipn n t).
Proof.
  unfold no_close. induction n as [|n IH]; intros t H; [exact H|].
  destruct t as [|c t]; [reflexivity|]. simpl in H. apply andb_prop in H as [_ H].
  simpl. apply IH. exact H.
Qed.

Lemma strip_tags_go : forall fuel i s,
  (length s < fuel)%nat ->
  tagfree (replace_go fuel tagRegex (fun _ _ => []) i s) = true
  /\ (no_close s -> no_close (replace_go fuel tagRegex (fun _ _ => []) i s)).
Proof.
  induction fuel as [|fuel IH]; intros i s Hlen; [lia|].
  destruct s as [|c t]; [split; reflexivity|].
  cbn [replace_go].
  destruct (N.eqb_spec c 60) as [->|Hc].
  - rewrite tag_exec_open.
    set (n := run (fun d => negb (N.eqb 62 d)) t).
    destruct (skipn n t) as [|d b] eqn:E.
    + destruct (IH (S i) t ltac:(simpl in Hlen; lia)) as [_ Hno].
      pose proof (Hno (run_no_close t E)) as Hout.
      split; [exact Hout|]. intros _. exact Hout.
    + replace (S (S (i + n)) =? i)%nat with false
        by (symmetry; apply Nat.eqb_neq; lia).
      cbn [app].
      assert (Hb : (length b < fuel)%nat).
      { assert (Hl : length (skipn n t) = S (length b)) by (rewrite E; reflexivity).
        rewrite length_skipn in Hl. simpl in Hlen. lia. }
      destruct (IH (S (S (i + n))) b Hb) as [Htf Hno].
      split; [exact Htf|]. intros Hs. apply Hno.
      unfold no_close in Hs. simpl in Hs.
      assert (Ht : no_close t) by exact Hs.
      pose proof (no_close_skipn n t Ht) as Hsk. rewrite E in Hsk.
      unfold no_close in Hsk. simpl in Hsk. apply andb_prop in Hsk as [_ Hsk]. exact Hsk.
  - rewrite (tag_exec_other i c t Hc).
    destruct (IH (S i) t ltac:(simpl in Hlen; lia)) as [Htf Hno].
    split.
    + cbn [tagfree]. replace (N.eqb c 60) with false
        by (symmetry; apply N.eqb_neq; congruence). exact Htf.
    + unfold no_close. simpl. intros Hs. apply andb_prop in Hs as [Hc2 Hs].
      rewrite Hc2. apply Hno. exact Hs.
Qed.

Lemma strip_tags_tagfree s : tagfree (replace_with tagRegex [] s) = true.
Proof. apply strip_tags_go. lia. Qed.

End Excerpt.

Section Collapse.

Lemma space_not_angle c : is_space c = true -> N.eqb c 60 || N.eqb c 62 = false.
Proof.
  intros H. destruct (N.eqb_spec c 60) as [->|_]; [discriminate H|].
  destruct (N.eqb_spec c 62) as [->|_]; [discriminate H|]. reflexivity.
Qed.

Lemma angles_skip_spaces : forall t,
  angles (skipn (run is_space t) t) = angles t.
Proof.
  induction t as [|c t IH]; [reflexivity|]. cbn [run].
  destruct (is_space c) eqn:E; [|reflexivity].
  cbn [skipn angles List.filter]. rewrite (space_not_angle c E). exact IH.
Qed.

Lemma collapse_go : forall fuel i s after_space,
  (length s < fuel)%nat ->
  angles (replace_go fuel whitespaceRegex (fun _ _ => str " ") i s) = angles s
  /\ (match s with c :: _ => after_space = true -> is_space c = false | [] => True end ->
      single_spaced after_space
        (replace_go fuel whitespaceRegex (fun _ _ => str " ") i s) = true).
Proof.
  induction fuel as [|fuel IH]; intros i s after_space Hlen; [lia|].
  destruct s as [|c t]; [split; reflexivity|].
  cbn [replace_go]. rewrite exec_whitespace.
  destruct (is_space c) eqn:Hc.
  - replace (S i + run is_space t =? i)%nat with false
      by (symmetry; apply Nat.eqb_neq; lia).
    assert (Hr : (length (skipn (run is_space t) t) < fuel)%nat).
    { rewrite length_skipn. simpl in Hlen. lia. }
    destruct (IH (S i + run is_space t)%nat _ true Hr) as [Ha Hs].
    split.
    + change (str " " ++ ?x) with (32%N :: x).
      cbn [angles List.filter N.eqb Pos.eqb orb].
      change (List.filter (fun c0 => N.eqb c0 60 || N.eqb c0 62) ?x) with (angles x).
      rewrite Ha, (space_not_angle c Hc). apply angles_skip_spaces.
    + intros Hprev. change (str " " ++ ?x) with (32%N :: x).
      cbn [single_spaced N.eqb Pos.eqb].
      destruct after_space; [specialize (Hprev eq_refl); congruence|].
      cbn [negb andb]. apply Hs.
      pose proof (skipn_run_head is_space t) as Hh.
      destruct (skipn (run is_space t) t); [exact I|]. intros _. exact Hh.
  - destruct (IH (S i) t false ltac:(simpl in Hlen; lia)) as [Ha Hs].
    split.
    + cbn [angles List.filter].
      change (List.filter (fun c0 => N.eqb c0 60 || N.eqb c0 62) ?x) with (angles x).
      rewrite Ha. reflexivity.
    + intros _. cbn [single_spaced].
      destruct (N.eqb_spec c 32) as [->|_]; [discriminate Hc|].
      rewrite Hc. cbn [negb andb]. apply Hs.
      destruct t; [exact I|]. discriminate.
Qed.

Lemma forallb_angles : forall s,
  forallb (fun d => negb (N.eqb d 62)) (angles s) = forallb (fun d => negb (N.eqb d 62)) s.
Proof.
  induction s as [|c t IH]; [reflexivity|].
  cbn [angles List.filter forallb].
  change (List.filter (fun c0 => N.eqb c0 60 || N.eqb c0 62) t) with (angles t).
  destruct (N.eqb c 60) eqn:E60; cbn [orb].
  - cbn [forallb]. rewrite IH. reflexivity.
  - destruct (N.eqb c 62) eqn:E62; cbn [forallb negb andb].
    + rewrite E62. reflexivity.
    + exact IH.
Qed.

Lemma tagfree_angles : forall s, tagfree (angles s) = tagfree s.
Proof.
  induction s as [|c t IH]; [reflexivity|].
  cbn [angles List.filter tagfree].
  change (List.filter (fun c0 => N.eqb c0 60 || N.eqb c0 62) t) with (angles t).
  destruct (N.eqb c 60) eqn:E60; cbn [orb].
  - cbn [tagfree]. rewrite E60. apply forallb_angles.
  - destruct (N.eqb c 62) eqn:E62.
    + cbn [tagfree]. rewrite E60. exact IH.
    + exact IH.
Qed.

Lemma forallb_firstn (q : char -> bool) n : forall s,
  forallb q s = true -> forallb q (firstn n s) = true.
Proof.
  induction n as [|n IH]; intros s H; [reflexivity|].
  destruct s as [|c t]; [reflexivity|]. cbn [firstn forallb] in *.
  apply andb_prop in H as [Hc H]. rewrite Hc. apply IH. exact H.
Qed.

Lemma tagfree_firstn n : forall s, tagfree s = true -> tagfree (firstn n s) = true.
Proof.
  induction n as [|n IH]; intros s H; [reflexivity|].
  destruct s as [|c t]; [reflexivity|]. cbn [firstn tagfree] in *.
  destruct (N.eqb c 60); [apply forallb_firstn; exact H|apply IH; exact H].
Qed.

Lemma tagfree_trimStart : forall s, tagfree s = true -> tagfree (trimStart s) = true.
Proof.
  induction s as [|c t IH]; intros H; [reflexivity|].
  cbn [trimStart]. destruct (is_space c) eqn:E; [|exact H].
  apply IH. cbn [tagfree] in H.
  pose proof (space_not_angle c E) as Hn. apply orb_false_elim in Hn as [Hn _].
  rewrite Hn in H. exact H.
Qed.

Lemma trimStart_skipn : forall s, trimStart s = skipn (run is_space s) s.
Proof.
  induction s as [|c t IH]; [reflexivity|].
  cbn [trimStart run]. destruct (is_space c); [exact IH|reflexivity].
Qed.

(** [trim] keeps a prefix of what [trimStart] leaves. *)
Lemma trim_prefix s : exists k, trim s = firstn k (trimStart s).
Proof.
  unfold trim. set (u := trimStart s).
  rewrite trimStart_skipn, List.skipn_rev, rev_involutive.
  eexists. reflexivity.
Qed.

Lemma single_spaced_weaken : forall s,
  single_spaced true s = true -> single_spaced false s = true.
Proof.
  destruct s as [|c t]; [reflexivity|]. cbn [single_spaced].
  destruct (N.eqb c 32); [discriminate|]. intros H. exact H.
Qed.

Lemma single_spaced_firstn n : forall s b,
  single_spaced b s = true -> single_spaced b (firstn n s) = true.
Proof.
  induction n as [|n IH]; intros s b H; [reflexivity|].
  destruct s as [|c t]; [reflexivity|]. cbn [firstn single_spaced] in *.
  destruct (N.eqb c 32); apply andb_prop in H as [H1 H2]; rewrite H1;
    apply IH; exact H2.
Qed.

Lemma single_spaced_trimStart : forall s b,
  single_spaced b s = true -> single_spaced false (trimStart s) = true.
Proof.
  induction s as [|c t IH]; intros b H; [reflexivity|].
  cbn [trimStart]. destruct (is_space c) eqn:E.
  - cbn [single_spaced] in H. destruct (N.eqb c 32).
    + apply andb_prop in H as [_ H]. apply (IH _ H).
    + rewrite E in H. discriminate.
  - destruct b; [apply single_spaced_weaken|]; exact H.
Qed.

Lemma trimStart_head s :
  match trimStart s with c :: _ => is_space c = false | [] => True end.
Proof.
  induction s as [|c t IH]; [exact I|].
  cbn [trimStart]. destruct (is_space c) eqn:E; [exact IH|exact E].
Qed.

(** The excerpt: at most 300 units, nothing of the form of a tag, white
    space only as single spaces, none in front. *)
Lemma excerpt_facts body :
  (length (excerpt body) <= 300)%nat
  /\ tagfree (excerpt body) = true
  /\ single_spaced false (excerpt body) = true
  /\ match excerpt body with c :: _ => is_space c = false | [] => True end.
Proof.
  unfold excerpt, substring_to.
  set (x := replace_with tagRegex []
              (replace_with imageSyntaxRegex [] (replace_with fenceRegex [] body))).
  set (y := replace_with (Plus true space) (str " ") x).
  assert (Hx : tagfree x = true) by apply strip_tags_tagfree.
  destruct (collapse_go (S (length x)) 0 x false ltac:(lia)) as [Ha Hs].
  fold whitespaceRegex in y.
  change (replace_go (S (length x)) whitespaceRegex (fun _ _ => str " ") 0 x)
    with y in Ha, Hs.
  assert (Hy : tagfree y = true) by (rewrite <- tagfree_angles, Ha, tagfree_angles; exact Hx).
  assert (Hy2 : single_spaced false y = true).
  { apply Hs. destruct x; [exact I|]. discriminate. }
  destruct (trim_prefix y) as (k & Hk). rewrite Hk.
  split; [apply firstn_le_length|]. split; [|split].
  - apply tagfree_firstn, tagfree_firstn, tagfree_trimStart. exact Hy.
  - apply single_spaced_firstn, single_spaced_firstn.
    apply (single_spaced_trimStart y false Hy2).
  - pose proof (trimStart_head y) as Hh.
    destruct (trimStart y) as [|c t]; [rewrite firstn_nil; exact I|].
    destruct k; [exact I|]. exact Hh.
Qed.

End Collapse.

(** The passes of the excerpt, one by one. *)

Section ExcerptPasses.

(** A literal in a pattern. *)
Lemma m_lits : forall x, x <> [] -> forall i s cs k,
  m (lits x) i s cs k
  = if startsWith x s then k (i + length x)%nat (skipn (length x) s) cs else None.
Proof.
  induction x as [|c x IH]; intros Hne i s cs k; [congruence|].
  destruct x as [|c' x].
  - cbn [lits m length]. destruct s as [|d t]; [reflexivity|].
    cbn [startsWith skipn]. rewrite andb_true_r, Nat.add_1_r. reflexivity.
  - change (lits (c :: c' :: x)) with (Seq (Chr (N.eqb c)) (lits (c' :: x))).
    cbn [m]. destruct s as [|d t]; [reflexivity|].
    change (startsWith (c :: c' :: x) (d :: t)) with (N.eqb c d && startsWith (c' :: x) t).
    destruct (N.eqb c d); [|reflexivity]. cbn [andb].
    rewrite IH by discriminate.
    destruct (startsWith (c' :: x) t); [|reflexivity].
    change (length (c :: c' :: x)) with (S (length (c' :: x))).
    rewrite Nat.add_succ_r. reflexivity.
Qed.

Lemma exec_fence i s :
  exec_at fenceRegex i s
  = match fence_at s with
    | Some (n, _) => Some ((i + n)%nat, skipn n s, [])
    | None => None
    end.
Proof.
  unfold exec_at, fence_at.
  change fenceRegex
    with (Seq (lits (str "```")) (Seq (Star false (Chr (fun _ => true))) (lits (str "```")))).
  change (m (Seq (lits (str "```")) ?r) i s [] ?k)
    with (m (lits (str "```")) i s [] (fun i' s' cs' => m r i' s' cs' k)).
  rewrite m_lits by discriminate.
  destruct (startsWith (str "```") s); [|reflexivity].
  change (length (str "```")) with 3%nat. set (t := skipn 3 s).
  change (m (Seq (Star false (Chr (fun _ => true))) (lits (str "```"))) (i + 3) t []
            (fun i' s' cs' => Some (i', s', cs')))
    with (m (Star false (Chr (fun _ => true))) (i + 3) t []
            (fun i' s' cs' => m (lits (str "```")) i' s' cs' kid)).
  rewrite m_star_lazy.
  destruct (find (str "```") t) as [j|] eqn:F; cbn [option_map].
  - destruct (find_some _ _ _ F) as (H1 & H2 & H3).
    rewrite (pick_lazy_at _ _ _ _ _ j).
    + rewrite m_lits, H1 by discriminate. unfold kid.
      change (length (str "```")) with 3%nat. unfold t.
      rewrite !skipn_skipn. f_equal. f_equal. f_equal; [lia|f_equal; lia].
    + rewrite run_all_true. exact H2.
    + rewrite m_lits, H1 by discriminate. discriminate.
    + intros n' Hn'. rewrite m_lits, (H3 _ Hn') by discriminate. reflexivity.
  - apply pick_lazy_all_fail. intros n _.
    rewrite m_lits, (find_none _ _ F) by discriminate. reflexivity.
Qed.

Lemma fence_at_bound s n x : fence_at s = Some (n, x) -> (1 <= n <= length s)%nat.
Proof.
  unfold fence_at. destruct (startsWith (str "```") s) eqn:E; [|discriminate].
  apply startsWith_app in E as (t & ->). change (skipn 3 (str "```" ++ t)) with t.
  destruct (find (str "```") t) as [j|] eqn:F; [|discriminate].
  cbn [option_map]. intros H. injection H as <- _.
  destruct (find_some _ _ _ F) as (H1 & H2 & _).
  apply startsWith_app in H1 as (u & Hu).
  apply (f_equal (@length N)) in Hu. rewrite length_skipn, length_app in Hu.
  cbn [length app str list_ascii_of_string List.map] in *. lia.
Qed.

(** In the part before the first unit that [p] rejects, a text of units
    [p] accepts is found where it is found in the whole. *)
Lemma run_skipn p : forall s j, (j <= run p s)%nat -> run p (skipn j s) = (run p s - j)%nat.
Proof.
  induction s as [|c t IH]; intros j Hj; [destruct j; reflexivity|].
  destruct j as [|j]; [cbn [skipn]; lia|].
  cbn [run] in *. destruct (p c); [|lia]. cbn [skipn]. rewrite IH by lia. lia.
Qed.

Lemma skipn_firstn_run p : forall s j,
  (j <= run p s)%nat ->
  skipn j (firstn (run p s) s) = firstn (run p (skipn j s)) (skipn j s).
Proof.
  induction s as [|c t IH]; intros j Hj; [destruct j; reflexivity|].
  destruct j as [|j]; [reflexivity|].
  cbn [run] in *. destruct (p c); [|lia]. cbn [firstn skipn]. apply IH. lia.
Qed.

Lemma startsWith_in_run p x : forall s,
  Forall (fun c => p c = true) x ->
  startsWith x (firstn (run p s) s) = startsWith x s.
Proof.
  induction x as [|c x IH]; intros s Hx; [reflexivity|].
  inversion Hx as [|? ? Hc Hx']; subst.
  destruct s as [|d t]; [reflexivity|]. cbn [run].
  destruct (p d) eqn:Hd.
  - cbn [firstn startsWith]. rewrite IH by exact Hx'. reflexivity.
  - cbn [firstn startsWith].
    destruct (N.eqb_spec c d) as [->|]; [congruence|reflexivity].
Qed.

Lemma startsWith_line p x s j :
  Forall (fun c => p c = true) x -> (j <= run p s)%nat ->
  startsWith x (skipn j (firstn (run p s) s)) = startsWith x (skipn j s).
Proof.
  intros Hx Hj. rewrite skipn_firstn_run by exact Hj. apply startsWith_in_run, Hx.
Qed.

Lemma startsWith_length x : forall s, startsWith x s = true -> (length x <= length s)%nat.
Proof.
  induction x as [|c x IH]; intros s H; [cbn; lia|].
  destruct s as [|d t]; [discriminate|]. cbn in H. apply andb_prop in H as [_ H].
  cbn. apply IH in H. lia.
Qed.

Lemma startsWith_run p x : forall s,
  Forall (fun c => p c = true) x -> startsWith x s = true -> (length x <= run p s)%nat.
Proof.
  induction x as [|c x IH]; intros s Hx H; [cbn; lia|].
  inversion Hx as [|? ? Hc Hx']; subst.
  destruct s as [|d t]; [discriminate|]. cbn in H. apply andb_prop in H as [E H].
  apply N.eqb_eq in E. subst d. cbn [run]. rewrite Hc. cbn. apply (IH _ Hx') in H. lia.
Qed.

(** The first occurrence within the line, seen in the whole text. *)
Lemma find_line_some p x s j :
  x <> [] -> Forall (fun c => p c = true) x ->
  find x (firstn (run p s) s) = Some j ->
  (j + length x <= run p s)%nat /\ startsWith x (skipn j s) = true
  /\ forall j', (j' < j)%nat -> startsWith x (skipn j' s) = false.
Proof.
  intros Hne Hx F. destruct (find_some _ _ _ F) as (H1 & H2 & H3).
  pose proof (run_le p s) as Hr.
  assert (Hj : (j <= run p s)%nat).
  { rewrite firstn_length_le in H2; assumption. }
  rewrite startsWith_line in H1 by assumption.
  split; [|split; [exact H1|]].
  - pose proof (startsWith_run p x _ Hx H1) as Hl. rewrite run_skipn in Hl by exact Hj. lia.
  - intros j' Hj'. rewrite <- (startsWith_line p x s j') by (try assumption; lia).
    apply H3, Hj'.
Qed.

Lemma find_line_none p x s :
  x <> [] -> Forall (fun c => p c = true) x ->
  find x (firstn (run p s) s) = None ->
  forall n, (n <= run p s)%nat -> startsWith x (skipn n s) = false.
Proof.
  intros Hne Hx F n Hn. rewrite <- (startsWith_line p x s n) by assumption.
  apply (find_none _ _ F).
Qed.

Lemma line_of_skipn s j :
  (j <= run (fun c => negb (is_line_terminator c)) s)%nat ->
  skipn j (line_of s) = line_of (skipn j s).
Proof. intros Hj. unfold line_of. apply skipn_firstn_run, Hj. Qed.

Lemma find_none_skipn x s n : find x s = None -> find x (skipn n s) = None.
Proof.
  intros F. destruct (find x (skipn n s)) as [j|] eqn:E; [|reflexivity].
  destruct (find_some _ _ _ E) as (H1 & _). rewrite skipn_skipn in H1.
  rewrite (find_none _ _ F) in H1. discriminate.
Qed.

(** The target part of image syntax: up to the first closing parenthesis
    of the line. *)
Lemma exec_target i u cs :
  m (Seq (Star false dot) (chr 41)) i u cs kid
  = match find (str ")") (line_of u) with
    | Some k => Some ((i + k + 1)%nat, skipn (k + 1) u, cs)
    | None => None
    end.
Proof.
  change (m (Seq (Star false dot) (chr 41)) i u cs kid)
    with (m (Star false (Chr (fun c => negb (is_line_terminator c)))) i u cs
            (fun i' s' cs' => m (lits (str ")")) i' s' cs' kid)).
  rewrite m_star_lazy. unfold line_of.
  set (p := fun c => negb (is_line_terminator c)).
  destruct (find (str ")") (firstn (run p u) u)) as [k|] eqn:F.
  - destruct (find_line_some p (str ")") u k ltac:(discriminate) ltac:(repeat constructor) F)
      as (H1 & H2 & H3).
    change (length (str ")")) with 1%nat in H1.
    rewrite (pick_lazy_at _ _ _ _ _ k).
    + rewrite m_lits, H2 by discriminate. unfold kid.
      change (length (str ")")) with 1%nat. rewrite skipn_skipn.
      f_equal. f_equal. f_equal. f_equal. lia.
    + lia.
    + rewrite m_lits, H2 by discriminate. discriminate.
    + intros n' Hn'. rewrite m_lits, (H3 _ Hn') by discriminate. reflexivity.
  - apply pick_lazy_all_fail. intros n Hn.
    rewrite m_lits by discriminate.
    rewrite (find_line_none p (str ")") u ltac:(discriminate) ltac:(repeat constructor) F n Hn).
    reflexivity.
Qed.

Lemma exec_image i s :
  exec_at imageSyntaxRegex i s
  = match image_at s with
    | Some (n, _) => Some ((i + n)%nat, skipn n s, [])
    | None => None
    end.
Proof.
  unfold exec_at, image_at.
  change imageSyntaxRegex
    with (Seq (chr 33) (Seq (chr 91)
            (Seq (Star false dot) (Seq (chr 93) (Seq (chr 40)
               (Seq (Star false dot) (chr 41))))))).
  destruct s as [|a [|b t]]; [reflexivity| |].
  - change (startsWith (str "![") [a]) with (N.eqb 33 a && false).
    match goal with
    | |- m (Seq (chr 33) (Seq (chr 91) ?R)) i [a] [] ?k = _ =>
        change (m (Seq (chr 33) (Seq (chr 91) R)) i [a] [] k)
          with (if N.eqb 33 a then @None mstate else None)
    end.
    destruct (N.eqb 33 a); reflexivity.
  - change (startsWith (str "![") (a :: b :: t)) with (N.eqb 33 a && (N.eqb 91 b && true)).
    match goal with
    | |- m (Seq (chr 33) (Seq (chr 91) ?R)) i (a :: b :: t) [] ?k = _ =>
        change (m (Seq (chr 33) (Seq (chr 91) R)) i (a :: b :: t) [] k)
          with (if N.eqb 33 a
                then if N.eqb 91 b then m R (S (S i)) t [] k else None
                else None)
    end.
    destruct (N.eqb 33 a); [|reflexivity]. destruct (N.eqb 91 b); [|reflexivity].
    cbn [andb]. change (skipn 2 (a :: b :: t)) with t.
    change (m (Seq (Star false dot) (Seq (chr 93) (Seq (chr 40)
                 (Seq (Star false dot) (chr 41))))) (S (S i)) t []
              (fun i' s' cs' => Some (i', s', cs')))
      with (m (Star false (Chr (fun c => negb (is_line_terminator c)))) (S (S i)) t []
              (fun i' s' cs' =>
                 m (lits (str "](")) i' s' cs'
                   (fun i'' s'' cs'' => m (Seq (Star false dot) (chr 41)) i'' s'' cs'' kid))).
    rewrite m_star_lazy. cbv zeta.
    set (p := fun c => negb (is_line_terminator c)).
    change (line_of t) with (firstn (run p t) t).
    assert (Hx : Forall (fun c => p c = true) (str "](")) by (repeat constructor).
    destruct (find (str "](") (firstn (run p t) t)) as [j|] eqn:F.
    + destruct (find_line_some p (str "](") t j ltac:(discriminate) Hx F) as (H1 & H2 & H3).
      change (length (str "](")) with 2%nat in H1.
      assert (Hline : skipn (j + 2) (firstn (run p t) t) = line_of (skipn (j + 2) t)).
      { apply line_of_skipn. fold p. lia. }
      rewrite Hline.
      destruct (find (str ")") (line_of (skipn (j + 2) t))) as [k|] eqn:G; cbn [option_map].
      * rewrite (pick_lazy_at _ _ _ _ _ j).
        -- rewrite m_lits, H2 by discriminate. change (length (str "](")) with 2%nat.
           rewrite exec_target, skipn_skipn. replace (2 + j)%nat with (j + 2)%nat by lia.
           rewrite G. rewrite skipn_skipn.
           change (skipn (5 + j + k) (a :: b :: t)) with (skipn (3 + j + k) t).
           f_equal. f_equal. f_equal; [lia|f_equal; lia].
        -- lia.
        -- rewrite m_lits, H2 by discriminate. change (length (str "](")) with 2%nat.
           rewrite exec_target, skipn_skipn. replace (2 + j)%nat with (j + 2)%nat by lia.
           rewrite G. discriminate.
        -- intros n' Hn'. rewrite m_lits, (H3 _ Hn') by discriminate. reflexivity.
      * apply pick_lazy_all_fail. intros n Hn.
        rewrite m_lits by discriminate.
        destruct (startsWith (str "](") (skipn n t)) eqn:Hs; [|reflexivity].
        change (length (str "](")) with 2%nat.
        rewrite exec_target, skipn_skipn.
        assert (Hnj : (j <= n)%nat).
        { destruct (Nat.le_gt_cases j n) as [Hle|Hlt]; [exact Hle|].
          rewrite (H3 _ Hlt) in Hs. discriminate. }
        assert (Hn2 : (n + 2 <= run p t)%nat).
        { pose proof (startsWith_run p (str "](") _ Hx Hs) as Hl.
          rewrite run_skipn in Hl by exact Hn.
          change (length (str "](")) with 2%nat in Hl. lia. }
        assert (Hne : n <> S j).
        { intros ->.
          apply startsWith_app in H2 as (u & Hu).
          replace (skipn (S j) t) with (skipn 1 (skipn j t)) in Hs
            by (rewrite skipn_skipn; reflexivity).
          rewrite Hu in Hs. discriminate Hs. }
        replace (2 + n)%nat with ((n - j) + (j + 2))%nat by lia.
        rewrite <- skipn_skipn.
        rewrite <- line_of_skipn.
        -- rewrite (find_none_skipn _ _ (n - j) G). reflexivity.
        -- fold p. rewrite run_skipn by lia. lia.
    + cbn [option_map]. apply pick_lazy_all_fail. intros n Hn.
      rewrite m_lits by discriminate.
      rewrite (find_line_none p (str "](") t ltac:(discriminate) Hx F n Hn). reflexivity.
Qed.

Lemma image_at_bound s n x : image_at s = Some (n, x) -> (1 <= n <= length s)%nat.
Proof.
  intros H. split.
  - unfold image_at in H. destruct (startsWith (str "![") s); [|discriminate].
    destruct (find (str "](") (line_of (skipn 2 s))); [|discriminate].
    destruct (find (str ")") _); [|discriminate]. injection H as <- _. lia.
  - unfold image_at in H. destruct (startsWith (str "![") s) eqn:Es; [|discriminate].
    apply startsWith_app in Es as (t & ->). change (skipn 2 (str "![" ++ t)) with t in H.
    set (p := fun c => negb (is_line_terminator c)) in *.
    destruct (find (str "](") (line_of t)) as [j|] eqn:F; [|discriminate].
    destruct (find (str ")") (skipn (j + 2) (line_of t))) as [k|] eqn:G; [|discriminate].
    injection H as <- _.
    destruct (find_some _ _ _ G) as (G1 & G2 & _).
    apply startsWith_length in G1. rewrite !length_skipn in G1.
    rewrite length_skipn in G2.
    assert (Hl : (length (line_of t) <= length t)%nat).
    { unfold line_of. rewrite length_firstn. lia. }
    change (length (str ")")) with 1%nat in G1.
    change (length (str "![" ++ t)) with (S (S (length t))). lia.
Qed.

Lemma find_char_run c : forall t,
  find [c] t
  = match skipn (run (fun d => negb (N.eqb c d)) t) t with
    | [] => None
    | _ :: _ => Some (run (fun d => negb (N.eqb c d)) t)
    end.
Proof.
  induction t as [|d t IH]; [reflexivity|].
  cbn [find startsWith run]. rewrite andb_true_r.
  destruct (N.eqb c d); cbn [negb skipn]; [reflexivity|].
  rewrite IH. destruct (skipn _ t); reflexivity.
Qed.

Lemma exec_tag i s :
  exec_at tagRegex i s
  = match tag_at s with
    | Some (n, _) => Some ((i + n)%nat, skipn n s, [])
    | None => None
    end.
Proof.
  unfold tag_at. destruct s as [|c t]; [reflexivity|].
  change (startsWith (str "<") (c :: t)) with (N.eqb 60 c && true).
  rewrite andb_true_r.
  destruct (N.eqb_spec 60 c) as [<-|Hc].
  - rewrite tag_exec_open. change (skipn 1 (60%N :: t)) with t.
    change (str ">") with [62%N]. rewrite find_char_run.
    set (r := run (fun d => negb (N.eqb 62 d)) t).
    destruct (skipn r t) as [|d b] eqn:E; [reflexivity|].
    cbn [option_map]. change (skipn (2 + r) (60%N :: t)) with (skipn (1 + r) t).
    rewrite <- skipn_skipn, E. f_equal. f_equal. f_equal. lia.
  - apply tag_exec_other. congruence.
Qed.

Lemma tag_at_bound s n x : tag_at s = Some (n, x) -> (1 <= n <= length s)%nat.
Proof.
  unfold tag_at. destruct s as [|c t]; [discriminate|].
  destruct (startsWith (str "<") (c :: t)); [|discriminate].
  change (skipn 1 (c :: t)) with t.
  destruct (find (str ">") t) as [j|] eqn:F; [|discriminate].
  cbn [option_map]. intros H. injection H as <- _.
  destruct (find_some _ _ _ F) as (H1 & H2 & _).
  apply startsWith_length in H1. rewrite length_skipn in H1.
  change (length (str ">")) with 1%nat in H1. cbn [length]. lia.
Qed.

Lemma exec_blank i s :
  exec_at whitespaceRegex i s
  = match blank_at s with
    | Some (n, _) => Some ((i + n)%nat, skipn n s, [])
    | None => None
    end.
Proof.
  rewrite exec_whitespace. unfold blank_at. destruct s as [|c t]; [reflexivity|].
  cbn [run]. destruct (is_space c); [|reflexivity].
  cbn [skipn]. f_equal. f_equal. f_equal. lia.
Qed.

Lemma blank_at_bound s n x : blank_at s = Some (n, x) -> (1 <= n <= length s)%nat.
Proof.
  unfold blank_at. pose proof (run_le is_space s) as Hr.
  destruct (run is_space s); [discriminate|]. intros H. injection H as <- _. lia.
Qed.

(** The chain of replacements of the source is the excerpt of the
    contract. *)
Lemma excerpt_plain {L : Libs} body : excerpt body = plain_excerpt body.
Proof.
  unfold excerpt, plain_excerpt, substring_to, replace_with. cbv zeta.
  rewrite (replace_pass fenceRegex fence_at (fun _ => []) (fun _ _ => []) (fun _ => [])).
  2: { intros i s. rewrite exec_fence. destruct (fence_at s) as [[n x]|]; reflexivity. }
  2: { apply fence_at_bound. }
  2: { reflexivity. }
  rewrite (replace_pass imageSyntaxRegex image_at (fun _ => []) (fun _ _ => []) (fun _ => [])).
  2: { intros i s. rewrite exec_image. destruct (image_at s) as [[n x]|]; reflexivity. }
  2: { apply image_at_bound. }
  2: { reflexivity. }
  rewrite (replace_pass tagRegex tag_at (fun _ => []) (fun _ _ => []) (fun _ => [])).
  2: { intros i s. rewrite exec_tag. destruct (tag_at s) as [[n x]|]; reflexivity. }
  2: { apply tag_at_bound. }
  2: { reflexivity. }
  rewrite (replace_pass (Plus true space) blank_at (fun _ => []) (fun _ _ => str " ")
             (fun _ => str " ")).
  2: { intros i s. fold whitespaceRegex. rewrite exec_blank.
       destruct (blank_at s) as [[n x]|]; reflexivity. }
  2: { apply blank_at_bound. }
  2: { reflexivity. }
  reflexivity.
Qed.

End ExcerptPasses.

Section SearchIndex.
Context {L : Libs}.

Lemma mapM_inr {A B} (f : A -> exn + B) : forall l ys,
  mapM f l = inr ys -> Forall2 (fun x y => f x = inr y) l ys.
Proof.
  induction l as [|x l IH]; intros ys H; cbn [mapM] in H.
  - injection H as <-. constructor.
  - destruct (f x) as [e|y] eqn:Hx; [discriminate|]. cbn [bind] in H.
    destruct (mapM f l) as [e|ys'] eqn:Hl; [discriminate|]. cbn [bind] in H.
    injection H as <-. constructor; [exact Hx|apply IH; reflexivity].
Qed.

Lemma mapM_total {A B} (f : A -> exn + B) : forall l,
  Forall (fun x => exists y, f x = inr y) l -> exists ys, mapM f l = inr ys.
Proof.
  induction 1 as [|x l [y Hy] _ [ys Hys]]; [exists []; reflexivity|].
  exists (y :: ys). cbn [mapM]. rewrite Hy. cbn [bind]. rewrite Hys. reflexivity.
Qed.

Lemma search_record_inr a r : search_record a = inr r -> record_of a r.
Proof.
  unfold search_record, toISOString.
  destruct (JSDate.toISOString (date a)) as [iso|] eqn:E; [|discriminate].
  cbn [bind]. intros H. injection H as <-. unfold record_of.
  cbn [sr_title sr_description sr_url sr_date sr_readTime sr_projectName
       sr_languages sr_tags sr_content].
  rewrite E. repeat split. apply excerpt_plain.
Qed.

End SearchIndex.

(** C5 (amended).  The search index holds, in the order of the array it
    is given, one record per article with exactly the article's title,
    description, URL, ISO-8601 publish timestamp, read time, project name,
    used-language list, tag list, and the excerpt of the body: code
    fences are taken out of the body in one pass from left to right,
    then image syntax, then tags; every run of white space becomes one
    space, and the text is trimmed and cut to 300 units.  So the excerpt
    holds nothing of the form of a tag, white space only as single spaces
    and none in front.  Other Markdown syntax stays in the excerpt.  The
    index is produced whenever every article's date is a valid one. *)
Theorem search_index_records {L : Libs} (articles : list Article) :
  (Forall (fun a => date a <> None) articles ->
   exists records, generateSearchIndex articles = inr records)
  /\ (forall records,
        generateSearchIndex articles = inr records ->
        Forall2 (fun a r =>
                   record_of a r
                   /\ (length (sr_content r) <= 300)%nat
                   /\ tagfree (sr_content r) = true
                   /\ single_spaced false (sr_content r) = true
                   /\ match sr_content r with
                      | c :: _ => is_space c = false
                      | [] => True
                      end)
                articles records).
Proof.
  split.
  - intros Hvalid. apply mapM_total.
    eapply Forall_impl; [exact Hvalid|]. intros a Ha.
    unfold search_record, toISOString, JSDate.toISOString.
    destruct (date a) as [v|] eqn:E; [|congruence].
    destruct (JSDate.civil_from_days (v / JSDate.msPerDay)) as [[y mo] dd].
    eexists. reflexivity.
  - intros records H. apply mapM_inr in H.
    eapply Forall2_impl; [exact H|]. intros a r Hr.
    apply search_record_inr in Hr as Hrec. split; [exact Hrec|].
    destruct Hrec as (_ & _ & _ & _ & _ & _ & _ & _ & ->).
    rewrite <- excerpt_plain. apply excerpt_facts.
Qed.

Lemma search_index_records_witness :
  exists r,
    generateSearchIndex
      [new_Article (L := Sample.libs) 0 (str "Text <b>bold</b>   and
more") {| fm_title := Some (VStr (str "Hello"));
          fm_date := Some (DateObject (Some 1736899200000%Z));
          fm_description := None; fm_tags := None |} (str "articles/hello.md")]
    = inr [r]
    /\ sr_content r = str "Text bold and more"
    /\ sr_date r = str "2025-01-15T00:00:00.000Z"
    /\ tagfree (sr_content r) = true.
Proof.
  eexists. split; [vm_compute; reflexivity|].
  split; [reflexivity|]. split; [reflexivity|].
  match goal with
  | |- tagfree (sr_content ?r) = true =>
      pose proof (proj2 (search_index_records (L := Sample.libs)
        [new_Article (L := Sample.libs) 0 (str "Text <b>bold</b>   and
more") {| fm_title := Some (VStr (str "Hello"));
          fm_date := Some (DateObject (Some 1736899200000%Z));
          fm_description := None; fm_tags := None |} (str "articles/hello.md")])
        [r] ltac:(vm_compute; reflexivity)) as H
  end.
  inversion H as [|? ? ? ? (_ & _ & Ht & _) _]; subst. exact Ht.
Defined.

(** C5, as stated, fails: the excerpt keeps Markdown syntax.  A heading
    marker, emphasis and a link reach the search index as they are, where
    the index page's own excerpt strips them. *)
Lemma excerpt_keeps_markdown :
  excerpt (str "# Guide
Some **bold** text and [a link](/about).")
  = str "# Guide Some **bold** text and [a link](/about)."
  /\ cleanContent (str "# Guide
Some **bold** text and [a link](/about).")
     = str "Guide Some bold text and a link.".
Proof. split; vm_compute; reflexivity. Qed.

(** * Listings and the publication date *)

Section SharedArray.
Context {L : Libs}.

Lemma sort_insert_permutation x : forall sorted,
  Permutation (x :: sorted) (sort_insert x sorted).
Proof.
  induction sorted as [|y rest IH]; [reflexivity|].
  cbn [sort_insert].
  assert (Hswap : Permutation (x :: y :: rest) (y :: sort_insert x rest)).
  { rewrite perm_swap. apply perm_skip. exact IH. }
  destruct (byDateDesc y x) as [v|]; [|exact Hswap].
  destruct (Z.ltb 0 v); [reflexivity|exact Hswap].
Qed.

Lemma sort_fold_permutation : forall arr sorted,
  Permutation (sorted ++ arr) (fold_left (fun acc x => sort_insert x acc) arr sorted).
Proof.
  induction arr as [|x arr IH]; intros sorted; cbn [fold_left].
  - rewrite app_nil_r. reflexivity.
  - etransitivity; [|apply IH].
    etransitivity; [|apply Permutation_app_tail, sort_insert_permutation].
    symmetry. apply Permutation_middle.
Qed.

Lemma sort_articles_permutation arr : Permutation arr (sort_articles arr).
Proof.
  unfold sort_articles. destruct (forallb has_valid_date arr).
  - apply (sort_fold_permutation arr []).
  - apply Array_sort_permutation.
Qed.

End SharedArray.

Section Listings.
Context {L : Libs}.

Lemma Forall2_In_left {A B} (R : A -> B -> Prop) : forall l l' x,
  Forall2 R l l' -> In x l -> exists y, In y l' /\ R x y.
Proof.
  induction 1 as [|a b l l' Hab _ IH]; intros Hin; [destruct Hin|].
  destruct Hin as [->|Hin].
  - exists b. split; [left; reflexivity|exact Hab].
  - destruct (IH Hin) as (y & Hy & HR). exists y. split; [right; exact Hy|exact HR].
Qed.

(** Whenever the build completes, the search index it writes holds a
    record for every article that was parsed, whatever its date, in the
    order the index page left the array in. *)
Lemma build_indexes_every_article w now styles templates entries g articles :
  styles_css w = Some styles ->
  loadTemplates w = inr templates ->
  articles_tree w = Some entries ->
  parse_all now initial_globals (findMarkdownFiles ARTICLES_DIR entries)
  = inr (g, articles) ->
  final (build w now) = Completed ->
  exists records,
    generateSearchIndex (sort_articles articles) = inr records
    /\ In (WriteFile (Path.join [DIST_DIR; str "search-index.json"])
             (JSON_stringify records))
          (effects (build w now))
    /\ forall a, In a articles -> exists r, In r records /\ record_of a r.
Proof.
  intros Hs Ht He Hp. unfold build. rewrite Hs, Ht, He, Hp.
  destruct (fold_left (write_article templates styles) articles ([Mkdir DIST_DIR], inr g))
    as [fx1 [e0|g1]]; [discriminate|].
  unfold generateIndexHTML.
  destruct (bind (mapM article_card (sort_articles articles)) _) as [e1|indexHTML];
    [discriminate|].
  destruct (generateProjectsHTML (sort_articles articles) templates styles)
    as [e2|projectsHTML]; [discriminate|].
  destruct (generateSearchIndex (sort_articles articles)) as [e3|records] eqn:Hrec;
    [discriminate|].
  intros _. exists records. split; [reflexivity|]. split.
  - cbn [effects]. apply in_or_app. left. apply in_or_app. right. left. reflexivity.
  - intros a Ha.
    apply mapM_inr in Hrec.
    destruct (Forall2_In_left _ _ _ a Hrec) as (r & Hr & Hsr).
    + apply (Permutation_in a (sort_articles_permutation articles) Ha).
    + exists r. split; [exact Hr|apply search_record_inr; exact Hsr].
Qed.

End Listings.

(** C1.  The build lists a future-dated article: run on 1 November 2025
    over a site whose only article, a project article, is dated
    31 December 2099, it completes, and the article, which the
    publication rule of the specification excludes, is on the index page,
    on the projects page and in the search index. *)
Theorem future_article_is_listed :
  let out := build (L := Sample.libs) (Sample.site Sample.next_tree) Sample.build_time in
  exists g a,
    parse_all (L := Sample.libs) Sample.build_time initial_globals
      (findMarkdownFiles ARTICLES_DIR Sample.next_tree) = inr (g, [a])
    /\ JSDate.toISOString (date a) = Some (str "2099-12-31T00:00:00.000Z")
    /\ spec_published 0 Sample.build_time a = false
    /\ final out = Completed
    /\ match file_written out (str "dist/index.html") with
       | Some page =>
           is_infix (html "<h2><a href=^/articles/projects/demo/next^>Next</a></h2>") page
       | None => false
       end = true
    /\ match file_written out (str "dist/projects/index.html") with
       | Some page => is_infix (html "<a href=^/articles/projects/demo/next^>Next</a>") page
       | None => false
       end = true
    /\ match file_written out (str "dist/search-index.json") with
       | Some json => is_infix (html "^url^: ^/articles/projects/demo/next^") json
       | None => false
       end = true.
Proof.
  intros out. subst out. eexists. eexists.
  split; [vm_compute; reflexivity|].
  repeat split; vm_compute; reflexivity.
Qed.

(** * The article array after page composition *)

(** C4.  Composing the index page reorders the shared article array.  No
    article is changed and none is added or dropped: the array afterwards
    is a permutation of the array before.  But it is sorted in place: on a
    site scanned as Old (2024), New (2025), the array the later passes see
    is New, Old, and the search index, written after the index page, lists
    New first. *)
Theorem index_page_reorders_articles :
  (forall (L : Libs) articles templates styles,
      Permutation articles (fst (generateIndexHTML articles templates styles)))
  /\ exists g old new rn ro,
       parse_all (L := Sample.libs) Sample.build_time initial_globals
         (findMarkdownFiles ARTICLES_DIR Sample.two_tree) = inr (g, [old; new])
       /\ title old = VStr (str "Old") /\ title new = VStr (str "New")
       /\ fst (generateIndexHTML (L := Sample.libs) [old; new]
                 {| t_layout := str "{{content}}"; t_index := str "{{articles}}";
                    t_article := str "{{content}}"; t_projects := str "{{projects}}";
                    t_404 := str "Not found" |} [])
          = [new; old]
       /\ generateSearchIndex [new; old] = inr [rn; ro]
       /\ file_written
            (build (L := Sample.libs) (Sample.site Sample.two_tree) Sample.build_time)
            (str "dist/search-index.json")
          = Some (Sample.stringify [rn; ro]).
Proof.
  split.
  - intros L articles templates styles. cbn [generateIndexHTML fst].
    apply sort_articles_permutation.
  - do 5 eexists. split; [vm_compute; reflexivity|].
    split; [reflexivity|]. split; [reflexivity|].
    split; [vm_compute; reflexivity|].
    split; [vm_compute; reflexivity|].
    vm_compute. reflexivity.
Qed.

(** * The clock *)

Section Clock.
Context {L : Libs}.

Lemma parse_date_dated now1 now2 fm :
  dated fm = true -> parse_date now1 (fm_date fm) = parse_date now2 (fm_date fm).
Proof.
  unfold dated, parse_date.
  destruct (fm_date fm) as [[[|c s]|d|n]|]; try discriminate; try reflexivity.
  destruct (Z.eqb n 0); [discriminate|reflexivity].
Qed.

Lemma new_Article_dated now1 now2 body fm path :
  dated fm = true -> new_Article now1 body fm path = new_Article now2 body fm path.
Proof.
  intros H. unfold new_Article. rewrite (parse_date_dated now1 now2 fm H). reflexivity.
Qed.

Lemma parseMarkdownFile_dated now1 now2 g path data :
  match data with Some file => file_dated file = true | None => True end ->
  parseMarkdownFile now1 g path data = parseMarkdownFile now2 g path data.
Proof.
  destruct data as [file|]; [|reflexivity].
  unfold file_dated, parseMarkdownFile.
  destruct (search frontmatterRegex 0 file) as [[b [[e rest] cs]]|]; [|reflexivity].
  destruct (yaml_load (cap 1 cs)) as [| |fm]; try reflexivity.
  intros H. rewrite (new_Article_dated now1 now2 _ fm path H). reflexivity.
Qed.

Lemma parse_all_dated now1 now2 : forall files g,
  Forall (fun pf => match snd pf with
                    | Some file => file_dated file = true
                    | None => True
                    end) files ->
  parse_all now1 g files = parse_all now2 g files.
Proof.
  induction files as [|[path data] rest IH]; intros g H; [reflexivity|].
  inversion H as [|? ? Hd Hrest]; subst. cbn [parse_all snd] in *.
  rewrite (parseMarkdownFile_dated now1 now2 g path data Hd).
  destruct (parseMarkdownFile now2 g path data) as [e|[g1 a]]; [reflexivity|].
  cbn [bind fst snd]. rewrite (IH g1 Hrest). reflexivity.
Qed.

End Clock.

(** C9 (amended).  Two runs of the build on the same source files,
    templates and stylesheet produce the same calls with the same bytes,
    whatever the clock reads, provided every article that parses has a
    date in its frontmatter.  (An article without one takes the clock
    reading of the run.) *)
Theorem build_reproducible {L : Libs} (w : World) (now1 now2 : Z) :
  (forall entries,
      articles_tree w = Some entries ->
      Forall (fun pf => match snd pf with
                        | Some file => file_dated file = true
                        | None => True
                        end)
        (findMarkdownFiles ARTICLES_DIR entries)) ->
  build w now1 = build w now2.
Proof.
  intros H. unfold build.
  destruct (styles_css w); [|reflexivity].
  destruct (loadTemplates w); [reflexivity|].
  destruct (articles_tree w) as [entries|]; [|reflexivity].
  rewrite (parse_all_dated now1 now2 _ initial_globals (H entries eq_refl)).
  reflexivity.
Qed.

Lemma build_reproducible_witness :
  build (L := Sample.libs) (Sample.site Sample.two_tree) Sample.build_time
  = build (L := Sample.libs) (Sample.site Sample.two_tree) (Sample.build_time + 86400000).
Proof.
  apply (build_reproducible (L := Sample.libs)).
  intros entries E. injection E as <-.
  vm_compute. repeat constructor.
Defined.

(** C9, as stated, fails: for an article without a date the runs differ.
    One millisecond apart, the search index carries a different
    timestamp. *)
Lemma undated_article_follows_clock :
  file_written
    (build (L := Sample.libs) (Sample.site Sample.undated_tree) Sample.build_time)
    (str "dist/search-index.json")
  <> file_written
       (build (L := Sample.libs) (Sample.site Sample.undated_tree)
          (Sample.build_time + 1))
       (str "dist/search-index.json").
Proof. vm_compute. discriminate. Qed.

(** * Escaping *)

Section Escaping.

Lemma escape_unit_plain c : is_special c = false -> escape_unit c = [c].
Proof.
  unfold is_special, escape_unit.
  destruct (N.eqb c 38); [discriminate|]. destruct (N.eqb c 60); [discriminate|].
  destruct (N.eqb c 62); [discriminate|]. destruct (N.eqb c 34); [discriminate|].
  destruct (N.eqb c 39); [discriminate|]. reflexivity.
Qed.

Lemma escape_unit_special c :
  is_special c = true ->
  exists t, escape_unit c = 38%N :: t /\ Forall (fun d => is_special d = false) t.
Proof.
  unfold is_special, escape_unit. intros H.
  destruct (N.eqb c 38); [eexists; split; [reflexivity|repeat constructor]|].
  destruct (N.eqb c 60); [eexists; split; [reflexivity|repeat constructor]|].
  destruct (N.eqb c 62); [eexists; split; [reflexivity|repeat constructor]|].
  destruct (N.eqb c 34); [eexists; split; [reflexivity|repeat constructor]|].
  destruct (N.eqb c 39); [eexists; split; [reflexivity|repeat constructor]|].
  discriminate.
Qed.

Lemma escape_unit_cases c :
  (c = 38%N /\ escape_unit c = str "&amp;")
  \/ (c = 60%N /\ escape_unit c = str "&lt;")
  \/ (c = 62%N /\ escape_unit c = str "&gt;")
  \/ (c = 34%N /\ escape_unit c = str "&quot;")
  \/ (c = 39%N /\ escape_unit c = str "&#39;")
  \/ (is_special c = false /\ escape_unit c = [c]).
Proof.
  unfold escape_unit, is_special.
  destruct (N.eqb_spec c 38); [tauto|]. destruct (N.eqb_spec c 60); [tauto|].
  destruct (N.eqb_spec c 62); [tauto|]. destruct (N.eqb_spec c 34); [tauto|].
  destruct (N.eqb_spec c 39); [tauto|]. do 5 right. split; reflexivity.
Qed.

Lemma escape_unit_cancel c d x y :
  escape_unit c ++ x = escape_unit d ++ y -> c = d /\ x = y.
Proof.
  destruct (escape_unit_cases c) as [[-> Ec]|[[-> Ec]|[[-> Ec]|[[-> Ec]|[[-> Ec]|[Hc Ec]]]]]];
  destruct (escape_unit_cases d) as [[-> Ed]|[[-> Ed]|[[-> Ed]|[[-> Ed]|[[-> Ed]|[Hd Ed]]]]]];
  rewrite ?Ec, ?Ed; intros H; try discriminate H;
  injection H; intros; subst; try discriminate; auto.
Qed.

Lemma escape_units_injective : forall a b,
  flat_map escape_unit a = flat_map escape_unit b -> a = b.
Proof.
  induction a as [|c a IH]; intros [|d b] H.
  - reflexivity.
  - cbn [flat_map] in H. exfalso. unfold escape_unit in H.
    repeat (destruct (N.eqb d _); [discriminate|]). discriminate.
  - cbn [flat_map] in H. exfalso. unfold escape_unit in H.
    repeat (destruct (N.eqb c _); [discriminate|]). discriminate.
  - cbn [flat_map] in H. apply escape_unit_cancel in H as [-> H].
    f_equal. apply IH, H.
Qed.

Lemma escape_unit_length c : (1 <= length (escape_unit c))%nat.
Proof.
  destruct (escape_unit_cases c) as [[_ E]|[[_ E]|[[_ E]|[[_ E]|[[_ E]|[_ E]]]]]];
    rewrite E; simpl; lia.
Qed.

Lemma escape_units_length s : (length s <= length (flat_map escape_unit s))%nat.
Proof.
  induction s as [|c t IH]; [simpl; lia|].
  cbn [flat_map]. rewrite length_app. pose proof (escape_unit_length c). simpl. lia.
Qed.

Lemma escape_units_fixed : forall s,
  flat_map escape_unit s = s <-> Forall (fun c => is_special c = false) s.
Proof.
  induction s as [|c t IH]; [split; [constructor|reflexivity]|].
  cbn [flat_map]. split.
  - intros H.
    destruct (escape_unit_cases c) as [[-> E]|[[-> E]|[[-> E]|[[-> E]|[[-> E]|[Hc E]]]]]];
      rewrite E in H; try discriminate H.
    + exfalso. injection H as H. pose proof (escape_units_length t) as Hl.
      apply (f_equal (@length N)) in H. simpl in H. lia.
    + injection H as H. constructor; [exact Hc|apply IH, H].
  - intros H. inversion H as [|? ? Hc Ht]; subst.
    rewrite (escape_unit_plain c Hc). simpl. f_equal. apply IH, Ht.
Qed.

Lemma escapeAttr_units s :
  escapeAttr s = flat_map (fun c => if N.eqb 34 c then str "&quot;" else [c]) s.
Proof. unfold escapeAttr, chr. apply replace_with_chr. Qed.

End Escaping.

(** X1.  escapeHtml loses nothing: two texts with the same escaped form are
    the same text. *)
Theorem escapeHtml_injective (a b : jsstring) :
  escapeHtml a = escapeHtml b -> a = b.
Proof. rewrite !escapeHtml_units. apply escape_units_injective. Qed.

Lemma escapeHtml_injective_witness :
  escapeHtml (str "a<b") = escapeHtml (str "a<b") /\ str "a<b" = str "a<b".
Proof.
  split; [reflexivity|]. apply (escapeHtml_injective (str "a<b") (str "a<b")). reflexivity.
Defined.

(** X2.  escapeHtml works unit by unit: the escaped form of a concatenation is
    the concatenation of the escaped forms, a text is left as it is
    exactly when it holds none of the five units it replaces (ampersand,
    angle brackets, double and single quote), and escaping never shortens. *)
Theorem escapeHtml_concat (a b : jsstring) :
  escapeHtml (a ++ b) = escapeHtml a ++ escapeHtml b
  /\ (escapeHtml a = a <-> Forall (fun c => is_special c = false) a)
  /\ (length a <= length (escapeHtml a))%nat.
Proof.
  rewrite !escapeHtml_units. split; [apply flat_map_app|]. split.
  - apply escape_units_fixed.
  - apply escape_units_length.
Qed.

(** X3.  escapeAttr replaces every double quote and nothing else: its result
    holds no double quote, and a text without one is unchanged.  The
    ampersand is not escaped, so a quote and the entity that stands for
    it come out the same. *)
Theorem escapeAttr_quotes (s : jsstring) :
  Forall (fun c => c <> 34%N) (escapeAttr s)
  /\ (Forall (fun c => c <> 34%N) s -> escapeAttr s = s)
  /\ escapeAttr (str "&quot;" ++ s) = escapeAttr (34%N :: s).
Proof.
  rewrite !escapeAttr_units. split; [|split].
  - induction s as [|c t IH]; [constructor|].
    cbn [flat_map]. apply Forall_app. split; [|exact IH].
    destruct (N.eqb_spec 34 c); [repeat constructor; discriminate|].
    repeat constructor. congruence.
  - induction 1 as [|c t Hc _ IH]; [reflexivity|].
    cbn [flat_map]. rewrite IH.
    destruct (N.eqb_spec 34 c); [congruence|reflexivity].
  - rewrite flat_map_app. reflexivity.
Qed.

(** * Paths of clean names *)

Section Paths.

Lemma clean_parts seg :
  clean seg = true ->
  jsstring_eqb seg [] = false /\ slashfree seg = true
  /\ Path.is_dots 1 seg = false /\ Path.is_dots 2 seg = false.
Proof.
  unfold clean, nonempty. intros H.
  apply andb_prop in H as [H H4]. apply andb_prop in H as [H H3].
  apply andb_prop in H as [H1 H2].
  apply negb_true_iff in H1, H3, H4. auto.
Qed.

Lemma split_char_slashfree seg :
  slashfree seg = true -> split_char Path.slash seg = [seg].
Proof.
  induction seg as [|c t IH]; [reflexivity|].
  unfold slashfree. cbn [forallb]. intros H. apply andb_prop in H as [Hc Ht].
  apply negb_true_iff in Hc. cbn [split_char]. rewrite Hc.
  rewrite (IH Ht). reflexivity.
Qed.

Lemma split_char_cons seg rest :
  slashfree seg = true ->
  split_char Path.slash (seg ++ Path.slash :: rest) = seg :: split_char Path.slash rest.
Proof.
  induction seg as [|c t IH].
  - intros _. cbn [app split_char]. rewrite N.eqb_refl. reflexivity.
  - unfold slashfree. cbn [forallb]. intros H. apply andb_prop in H as [Hc Ht].
    apply negb_true_iff in Hc. cbn [app split_char]. rewrite Hc.
    rewrite (IH Ht). reflexivity.
Qed.

Lemma join_cons sep x y rest :
  JS.join sep (x :: y :: rest) = x ++ sep ++ JS.join sep (y :: rest).
Proof. reflexivity. Qed.

(** Splitting at the slashes undoes joining with slashes. *)
Lemma split_path_of : forall segs,
  segs <> [] -> Forall (fun s => slashfree s = true) segs ->
  split_char Path.slash (path_of segs) = segs.
Proof.
  unfold path_of.
  induction segs as [|x rest IH]; [congruence|].
  intros _ H. inversion H as [|? ? Hx Hrest]; subst.
  destruct rest as [|y rest].
  - apply split_char_slashfree, Hx.
  - rewrite join_cons. cbn [app]. rewrite split_char_cons by exact Hx.
    rewrite IH; [reflexivity|discriminate|exact Hrest].
Qed.

Lemma resolve_clean b : forall segs acc,
  Forall (fun s => clean s = true) segs ->
  Path.resolve b acc segs = rev acc ++ segs.
Proof.
  induction segs as [|x rest IH]; intros acc H.
  - cbn. rewrite app_nil_r. reflexivity.
  - inversion H as [|? ? Hx Hrest]; subst.
    apply clean_parts in Hx as (H0 & _ & H1 & H2).
    cbn [Path.resolve]. rewrite H0, H1, H2. cbn [orb].
    rewrite IH by exact Hrest. cbn [rev]. rewrite <- app_assoc. reflexivity.
Qed.

Lemma path_of_app a b :
  a <> [] -> b <> [] -> path_of (a ++ b) = path_of a ++ [Path.slash] ++ path_of b.
Proof.
  unfold path_of. intros Ha Hb. induction a as [|x rest IH]; [congruence|].
  destruct rest as [|y rest].
  - destruct b as [|z b]; [congruence|]. reflexivity.
  - change ((x :: y :: rest) ++ b) with (x :: y :: (rest ++ b)).
    rewrite !join_cons. change (y :: rest ++ b) with ((y :: rest) ++ b).
    rewrite IH by discriminate. rewrite <- !app_assoc. reflexivity.
Qed.

Lemma clean_slashfree segs :
  Forall (fun s => clean s = true) segs -> Forall (fun s => slashfree s = true) segs.
Proof. apply List.Forall_impl. intros s H. apply clean_parts in H. tauto. Qed.

Lemma path_of_nonempty segs :
  segs <> [] -> Forall (fun s => clean s = true) segs -> path_of segs <> [].
Proof.
  intros Hne H. destruct segs as [|x rest]; [congruence|].
  inversion H as [|? ? Hx _]; subst. apply clean_parts in Hx as (H0 & _).
  unfold jsstring_eqb in H0. destruct (decide (x = [])); [discriminate|].
  unfold path_of. destruct rest; cbn; destruct x; try congruence; discriminate.
Qed.

Lemma last_not_slash : forall segs,
  segs <> [] -> Forall (fun s => clean s = true) segs ->
  exists c t, rev (path_of segs) = c :: t /\ N.eqb Path.slash c = false.
Proof.
  induction segs as [|x rest IH]; [congruence|]. intros _ H.
  inversion H as [|? ? Hx Hrest]; subst.
  destruct rest as [|y rest].
  - unfold path_of. cbn [JS.join].
    apply clean_parts in Hx as (H0 & Hs & _).
    destruct (rev x) as [|c t] eqn:E.
    + apply (f_equal (@rev N)) in E. rewrite rev_involutive in E. subst x. discriminate H0.
    + exists c, t. split; [reflexivity|].
      unfold slashfree in Hs. rewrite forallb_forall in Hs.
      assert (Hin : In c x). { apply in_rev. rewrite E. left. reflexivity. }
      specialize (Hs c Hin). apply negb_true_iff in Hs. rewrite N.eqb_sym. exact Hs.
  - destruct (IH ltac:(discriminate) Hrest) as (c & t & E & Hc).
    exists c, (t ++ [Path.slash] ++ rev x).
    unfold path_of in *. rewrite join_cons, !rev_app_distr, E.
    rewrite <- !app_assoc. cbn. split; [reflexivity|exact Hc].
Qed.

Lemma endsWith_slash_path_of segs :
  segs <> [] -> Forall (fun s => clean s = true) segs ->
  endsWith [Path.slash] (path_of segs) = false.
Proof.
  intros Hne H. destruct (last_not_slash segs Hne H) as (c & t & E & Hc).
  unfold endsWith. rewrite E. cbn [rev app startsWith]. rewrite Hc. reflexivity.
Qed.

Lemma head_not_slash segs :
  segs <> [] -> Forall (fun s => clean s = true) segs ->
  exists c t, path_of segs = c :: t /\ N.eqb c Path.slash = false.
Proof.
  intros Hne H. destruct segs as [|x rest]; [congruence|].
  inversion H as [|? ? Hx _]; subst. apply clean_parts in Hx as (H0 & Hs & _).
  destruct x as [|c x]; [discriminate H0|].
  unfold slashfree in Hs. cbn [forallb] in Hs. apply andb_prop in Hs as [Hc _].
  apply negb_true_iff in Hc.
  unfold path_of. destruct rest; cbn; eexists _, _; split; try reflexivity; exact Hc.
Qed.

(** A relative path of clean names is already normal. *)
Lemma normalize_path_of segs :
  segs <> [] -> Forall (fun s => clean s = true) segs ->
  Path.normalize (path_of segs) = path_of segs.
Proof.
  intros Hne H. destruct (head_not_slash segs Hne H) as (c & t & E & Hc).
  unfold Path.normalize. rewrite E. rewrite <- E. rewrite Hc. cbn [negb].
  rewrite endsWith_slash_path_of by assumption.
  rewrite split_path_of by (try assumption; apply clean_slashfree, H).
  rewrite resolve_clean by exact H. cbn [rev app].
  fold (path_of segs). rewrite E. reflexivity.
Qed.

Lemma eqb_nil_false (x : jsstring) : x <> [] -> jsstring_eqb x [] = false.
Proof. intros H. unfold jsstring_eqb. destruct (decide (x = [])); congruence. Qed.

Lemma jsstring_eqb_eq (x y : jsstring) : jsstring_eqb x y = true <-> x = y.
Proof. unfold jsstring_eqb. destruct (decide (x = y)); split; congruence. Qed.

Lemma jsstring_eqb_refl (x : jsstring) : jsstring_eqb x x = true.
Proof. apply jsstring_eqb_eq. reflexivity. Qed.

Lemma resolve_dot b acc segs :
  Path.resolve b acc (str "." :: segs) = Path.resolve b acc segs.
Proof. reflexivity. Qed.

(** A leading [.] is dropped. *)
Lemma normalize_dot_path_of segs :
  segs <> [] -> Forall (fun s => clean s = true) segs ->
  Path.normalize (path_of (str "." :: segs)) = path_of segs.
Proof.
  intros Hne H.
  assert (Hs : Forall (fun s => slashfree s = true) (str "." :: segs)).
  { constructor; [reflexivity|apply clean_slashfree, H]. }
  destruct segs as [|x rest]; [congruence|].
  unfold Path.normalize.
  change (path_of (str "." :: x :: rest)) with (46%N :: 47%N :: path_of (x :: rest)) at 1.
  cbv iota beta.
  change (46%N :: 47%N :: path_of (x :: rest)) with (path_of (str "." :: x :: rest)).
  change (N.eqb 46 Path.slash) with false. cbn [negb].
  rewrite split_path_of by (try discriminate; exact Hs).
  rewrite resolve_dot, resolve_clean by exact H. cbn [rev app]. fold (path_of (x :: rest)).
  destruct (head_not_slash (x :: rest) Hne H) as (c & t & E & Hc).
  assert (He : endsWith [Path.slash] (path_of (str "." :: x :: rest)) = false).
  { destruct (last_not_slash (x :: rest) Hne H) as (c' & t' & E' & Hc').
    unfold endsWith.
    change (path_of (str "." :: x :: rest)) with ([46%N; 47%N] ++ path_of (x :: rest)).
    rewrite rev_app_distr, E'. cbn [rev app startsWith]. rewrite Hc'. reflexivity. }
  rewrite He. rewrite E. reflexivity.
Qed.

Lemma filter_nonempty_all parts :
  Forall (fun p => p <> []) parts ->
  List.filter (fun a => negb (jsstring_eqb a [])) parts = parts.
Proof.
  induction 1 as [|x rest Hx _ IH]; [reflexivity|].
  cbn [List.filter]. rewrite (eqb_nil_false x Hx), IH. reflexivity.
Qed.

(** Joining two relative paths of clean names gives the path of all the
    names. *)
Lemma join_path_of a b :
  a <> [] -> b <> [] ->
  Forall (fun s => clean s = true) a -> Forall (fun s => clean s = true) b ->
  Path.join [path_of a; path_of b] = path_of (a ++ b).
Proof.
  intros Ha Hb Ca Cb. unfold Path.join.
  rewrite filter_nonempty_all
    by (repeat constructor; apply path_of_nonempty; assumption).
  change (JS.join [Path.slash] [path_of a; path_of b])
    with (path_of a ++ [Path.slash] ++ path_of b).
  rewrite <- path_of_app by assumption.
  apply normalize_path_of.
  - destruct a; [congruence|discriminate].
  - apply Forall_app. split; assumption.
Qed.

Lemma join_name a name :
  a <> [] -> Forall (fun s => clean s = true) a -> clean name = true ->
  Path.join [path_of a; name] = path_of (a ++ [name]).
Proof.
  intros Ha Ca Cn. apply (join_path_of a [name]); try assumption; [discriminate|].
  repeat constructor. exact Cn.
Qed.

Lemma slashfree_rev x : slashfree x = true -> slashfree (rev x) = true.
Proof.
  unfold slashfree. rewrite !forallb_forall. intros H c Hc. apply H, in_rev, Hc.
Qed.

Lemma drop_component_slashfree x rest :
  slashfree x = true ->
  Path.drop_component (x ++ Path.slash :: rest) = Path.slash :: rest.
Proof.
  induction x as [|c t IH]; intros H.
  - cbn. reflexivity.
  - unfold slashfree in H. cbn [forallb] in H. apply andb_prop in H as [Hc Ht].
    apply negb_true_iff in Hc. cbn [app Path.drop_component]. rewrite Hc. apply IH, Ht.
Qed.

Lemma take_component_slashfree x rest :
  slashfree x = true ->
  Path.take_component (x ++ Path.slash :: rest) = x.
Proof.
  induction x as [|c t IH]; intros H.
  - cbn. reflexivity.
  - unfold slashfree in H. cbn [forallb] in H. apply andb_prop in H as [Hc Ht].
    apply negb_true_iff in Hc. cbn [app Path.take_component]. rewrite Hc.
    f_equal. apply IH, Ht.
Qed.

Lemma take_component_all x :
  slashfree x = true -> Path.take_component x = x.
Proof.
  induction x as [|c t IH]; intros H; [reflexivity|].
  unfold slashfree in H. cbn [forallb] in H. apply andb_prop in H as [Hc Ht].
  apply negb_true_iff in Hc. cbn [Path.take_component]. rewrite Hc.
  f_equal. apply IH, Ht.
Qed.

Lemma drop_slashes_head x :
  x <> [] -> slashfree x = true -> forall rest, Path.drop_slashes (x ++ rest) = x ++ rest.
Proof.
  intros Hne H rest. destruct x as [|c t]; [congruence|].
  unfold slashfree in H. cbn [forallb] in H. apply andb_prop in H as [Hc _].
  apply negb_true_iff in Hc. cbn [app Path.drop_slashes]. rewrite Hc. reflexivity.
Qed.

Lemma rev_nonempty (x : jsstring) : x <> [] -> rev x <> [].
Proof.
  intros H E. apply H. apply (f_equal (@rev N)) in E. rewrite rev_involutive in E. exact E.
Qed.

(** The directory of a file in a directory. *)
Lemma dirname_path_of a name :
  a <> [] -> Forall (fun s => clean s = true) a -> clean name = true ->
  Path.dirname (path_of (a ++ [name])) = path_of a.
Proof.
  intros Ha Ca Cn.
  rewrite path_of_app by (try assumption; discriminate).
  change (path_of [name]) with name.
  destruct (head_not_slash a Ha Ca) as (c & t & E & Hc).
  rewrite E. cbn [app]. unfold Path.dirname. rewrite Hc.
  apply clean_parts in Cn as (N0 & Ns & _).
  assert (Nne : name <> []). { intros ->. discriminate N0. }
  rewrite !rev_app_distr. cbn [rev app]. rewrite <- !app_assoc. cbn [app].
  rewrite drop_slashes_head by (try apply rev_nonempty; try apply slashfree_rev; assumption).
  rewrite drop_component_slashfree by (apply slashfree_rev; assumption).
  destruct (rev t) as [|d u] eqn:Et.
  - apply (f_equal (@rev N)) in Et. rewrite rev_involutive in Et. subst t. reflexivity.
  - rewrite <- Et, rev_involutive. reflexivity.
Qed.

(** The last name of a path. *)
Lemma basename_path_of a name :
  clean name = true -> Path.basename (path_of (a ++ [name])) = name.
Proof.
  intros Cn. apply clean_parts in Cn as (N0 & Ns & _).
  assert (Nne : name <> []). { intros ->. discriminate N0. }
  unfold Path.basename. destruct a as [|x rest].
  - change (path_of ([] ++ [name])) with name.
    rewrite <- (app_nil_r (rev name)).
    rewrite drop_slashes_head by (try apply rev_nonempty; try apply slashfree_rev; assumption).
    rewrite app_nil_r, take_component_all by (apply slashfree_rev; assumption).
    apply rev_involutive.
  - rewrite path_of_app by discriminate. change (path_of [name]) with name.
    rewrite !rev_app_distr. cbn [rev app]. rewrite <- !app_assoc. cbn [app].
    rewrite drop_slashes_head by (try apply rev_nonempty; try apply slashfree_rev; assumption).
    rewrite take_component_slashfree by (apply slashfree_rev; assumption).
    apply rev_involutive.
Qed.

End Paths.

(** * The scan of the articles directory *)

Section Scan.

Lemma walk_dir fullPath entry entries :
  walk fullPath entry (Dir entries)
  = flat_map (fun e => walk (Path.join [fullPath; fst e]) (fst e) (snd e)) entries.
Proof.
  cbn [walk]. induction entries as [|[name child] rest IH]; [reflexivity|].
  cbn [flat_map fst snd]. rewrite <- IH. reflexivity.
Qed.

Lemma clean_tree_dir entries :
  clean_tree (Dir entries) = true <->
  Forall (fun e => clean (fst e) = true /\ clean_tree (snd e) = true) entries.
Proof.
  cbn [clean_tree]. induction entries as [|[name child] rest IH].
  - split; [constructor|reflexivity].
  - rewrite !andb_true_iff, IH. split.
    + intros [[H1 H2] H3]. constructor; [split; assumption|assumption].
    + intros H. inversion H as [|? ? [H1 H2] H3]; subst. auto.
Qed.

Lemma file_at_nonempty entries names data : file_at entries names data -> names <> [].
Proof. destruct 1; discriminate. Qed.

(** What the walk of a node at [pre] returns. *)
Lemma walk_spec : forall n pre p data,
  pre <> [] -> Forall (fun s => clean s = true) pre -> clean_tree n = true ->
  In (p, data) (walk (path_of pre) (List.last pre []) n) <->
  match n with
  | File d => d = data /\ is_markdown (List.last pre []) = true /\ p = path_of pre
  | Dir sub =>
      exists names, file_at sub names data
        /\ is_markdown (List.last names []) = true /\ p = path_of (pre ++ names)
  end.
Proof.
  induction n as [d|entries IH] using node_induction; intros pre p data Hne Hpre Hclean.
  - cbn [walk]. fold (is_markdown (List.last pre [])).
    destruct (is_markdown (List.last pre [])).
    + split.
      * intros [E|[]]. injection E as <- <-. auto.
      * intros (-> & _ & ->). left. reflexivity.
    + split; [intros []|intros (_ & H & _); discriminate].
  - rewrite walk_dir, in_flat_map.
    apply clean_tree_dir in Hclean.
    split.
    + intros ([name child] & Hin & Hw). cbn [fst snd] in Hw.
      rewrite List.Forall_forall in IH, Hclean.
      destruct (Hclean _ Hin) as [Cn Cc]. cbn [fst snd] in Cn, Cc.
      rewrite join_name in Hw by assumption.
      assert (H1 : pre ++ [name] <> []) by (destruct pre; discriminate).
      assert (H2 : Forall (fun s => clean s = true) (pre ++ [name])).
      { apply Forall_app. split; [assumption|repeat constructor; assumption]. }
      pose proof (IH _ Hin (pre ++ [name]) p data H1 H2 Cc) as Hiff.
      cbn [snd] in Hiff. rewrite last_last in Hiff. apply Hiff in Hw. clear Hiff.
      destruct child as [d|sub].
      * destruct Hw as (-> & Hmd & ->).
        exists [name]. split; [apply file_here, Hin|]. split; [exact Hmd|reflexivity].
      * destruct Hw as (names & Hat & Hmd & ->).
        exists (name :: names). split; [eapply file_below; eassumption|].
        split.
        -- apply file_at_nonempty in Hat. destruct names; [congruence|exact Hmd].
        -- rewrite <- app_assoc. reflexivity.
    + intros (names & Hat & Hmd & ->).
      rewrite List.Forall_forall in IH, Hclean.
      inversion Hat as [? name d Hin|? name sub names' ? Hin Hsub]; subst.
      * exists (name, File data). split; [exact Hin|]. cbn [fst snd].
        destruct (Hclean _ Hin) as [Cn _]. cbn [fst] in Cn.
        rewrite join_name by assumption.
        cbn [walk]. cbn [List.last] in Hmd. unfold is_markdown in Hmd. rewrite Hmd.
        left. reflexivity.
      * exists (name, Dir sub). split; [exact Hin|]. cbn [fst snd].
        destruct (Hclean _ Hin) as [Cn Cc]. cbn [fst snd] in Cn, Cc.
        rewrite join_name by assumption.
        assert (H1 : pre ++ [name] <> []) by (destruct pre; discriminate).
        assert (H2 : Forall (fun s => clean s = true) (pre ++ [name])).
        { apply Forall_app. split; [assumption|repeat constructor; assumption]. }
        pose proof (IH _ Hin (pre ++ [name]) (path_of (pre ++ name :: names')) data
                      H1 H2 Cc) as Hiff.
        cbn [snd] in Hiff. rewrite last_last in Hiff. apply Hiff.
        exists names'. split; [exact Hsub|]. split.
        -- apply file_at_nonempty in Hsub. destruct names'; [congruence|exact Hmd].
        -- rewrite <- app_assoc. reflexivity.
Qed.

Lemma join_articles name :
  clean name = true ->
  Path.join [ARTICLES_DIR; name] = path_of [str "articles"; name].
Proof.
  intros Cn. unfold Path.join.
  assert (Nne : name <> []).
  { apply clean_parts in Cn as (N0 & _). intros ->. discriminate N0. }
  rewrite filter_nonempty_all by (repeat constructor; [discriminate|exact Nne]).
  change (JS.join [Path.slash] [ARTICLES_DIR; name])
    with (path_of [str "."; str "articles"; name]).
  apply normalize_dot_path_of; [discriminate|].
  constructor; [reflexivity|constructor; [exact Cn|constructor]].
Qed.

End Scan.

(** X4.  findMarkdownFiles returns exactly the files of the tree whose name
    ends in [.md], each under the path of its names below [articles]; a
    directory is searched, whatever its name, and never listed. *)
Theorem findMarkdownFiles_lists_markdown (entries : list (jsstring * node))
    (p : jsstring) (data : option jsstring) :
  clean_tree (Dir entries) = true ->
  In (p, data) (findMarkdownFiles ARTICLES_DIR entries) <->
  exists names, file_at entries names data
    /\ is_markdown (List.last names []) = true
    /\ p = path_of (str "articles" :: names).
Proof.
  intros Hclean.
  pose proof (walk_spec (Dir entries) [str "articles"] p data
                ltac:(discriminate) ltac:(repeat constructor) Hclean) as H.
  cbn [List.last app] in H. rewrite <- H. rewrite walk_dir.
  unfold findMarkdownFiles. rewrite !in_flat_map.
  apply clean_tree_dir in Hclean. rewrite List.Forall_forall in Hclean.
  assert (E : forall e, In e entries ->
            Path.join [ARTICLES_DIR; fst e] = Path.join [path_of [str "articles"]; fst e]).
  { intros e Hin. destruct (Hclean _ Hin) as [Cn _].
    rewrite join_articles by exact Cn.
    rewrite join_name; [reflexivity|discriminate| |exact Cn].
    constructor; [reflexivity|constructor]. }
  split; intros (e & Hin & Hw); exists e; (split; [exact Hin|]);
    [rewrite <- (E e Hin)|rewrite (E e Hin)]; exact Hw.
Qed.

Lemma findMarkdownFiles_lists_markdown_witness :
  exists data,
    In (str "articles/projects/demo/next.md", data)
       (findMarkdownFiles ARTICLES_DIR Sample.next_tree).
Proof.
  eexists.
  apply (findMarkdownFiles_lists_markdown Sample.next_tree _ _ eq_refl).
  exists [str "projects"; str "demo"; str "next.md"].
  split; [|split; reflexivity].
  eapply file_below; [left; reflexivity|].
  eapply file_below; [left; reflexivity|].
  apply file_here. left. reflexivity.
Defined.

(** * Where the constructor places an article *)

Section ArticlePath.
Context {L : Libs}.

Lemma existsb_projects segs :
  existsb (jsstring_eqb (str "projects")) segs = true <-> In (str "projects") segs.
Proof. apply existsb_eqb_In. Qed.

Lemma indexOf_first x : forall pre rest,
  ~ In x pre -> indexOf x (pre ++ x :: rest) = Some (length pre).
Proof.
  induction pre as [|y pre IH]; intros rest Hn.
  - cbn. rewrite jsstring_eqb_refl. reflexivity.
  - cbn [app indexOf length].
    destruct (jsstring_eqb x y) eqn:E.
    + apply jsstring_eqb_eq in E. subst. exfalso. apply Hn. left. reflexivity.
    + rewrite IH; [reflexivity|]. intros Hin. apply Hn. right. exact Hin.
Qed.

Lemma endsWith_app_self p s : endsWith p (s ++ p) = true.
Proof. unfold endsWith. rewrite rev_app_distr. apply startsWith_prefix. Qed.

(** The base name of [dirs/stem.md] without its extension. *)
Lemma basename_ext_md dirs stem :
  stem <> [] -> clean (stem ++ str ".md") = true ->
  Path.basename_ext (path_of (dirs ++ [stem ++ str ".md"])) (str ".md") = stem.
Proof.
  intros Hne Hc. unfold Path.basename_ext.
  rewrite basename_path_of by exact Hc.
  assert (Hn : stem ++ str ".md" <> str ".md").
  { intros E. apply (f_equal (@length N)) in E. rewrite length_app in E.
    destruct stem; [congruence|]. simpl in E. lia. }
  assert (Hp : jsstring_eqb (path_of (dirs ++ [stem ++ str ".md"])) (str ".md") = false).
  { unfold jsstring_eqb.
    destruct (decide (path_of (dirs ++ [stem ++ str ".md"]) = str ".md")) as [E|]; [|reflexivity].
    exfalso. apply (f_equal Path.basename) in E. rewrite basename_path_of in E by exact Hc.
    apply Hn. rewrite E. reflexivity. }
  rewrite Hp, endsWith_app_self.
  unfold jsstring_eqb. destruct (decide (stem ++ str ".md" = str ".md")); [congruence|].
  cbn [negb andb]. rewrite length_app.
  replace (length stem + length (str ".md") - length (str ".md"))%nat with (length stem) by lia.
  rewrite firstn_app, firstn_all, Nat.sub_diag. cbn [firstn]. apply app_nil_r.
Qed.

End ArticlePath.

(** X5.  How the constructor places an article.  With a directory called
    [projects] on its path, the article is a project article, its project
    is the name that follows the first such directory, and its URL is
    [/articles/projects/<project>/<base name>].  Without one, it is not a
    project article, its project name is null and its URL is
    [/articles/<year>/<base name>], the year being that of its date in
    local time. *)
Theorem article_placement {L : Libs} (now : Z) (body : jsstring) (fm : Frontmatter)
    (dirs : list jsstring) (stem : jsstring) :
  Forall (fun s => slashfree s = true) dirs ->
  stem <> [] -> clean (stem ++ str ".md") = true ->
  let a := new_Article now body fm (path_of (dirs ++ [stem ++ str ".md"])) in
  (forall pre name rest,
      dirs ++ [stem ++ str ".md"] = pre ++ str "projects" :: name :: rest ->
      ~ In (str "projects") pre ->
      isProject a = true /\ projectName a = Str name
      /\ url a = str "/articles/projects/" ++ name ++ str "/" ++ stem)
  /\ (~ In (str "projects") dirs ->
      isProject a = false /\ projectName a = Null
      /\ url a = str "/articles/"
                 ++ JSDate.String_of_number (JSDate.getFullYear LocalTZA (date a))
                 ++ str "/" ++ stem).
Proof.
  intros Hdirs Hne Hc a.
  assert (Hsegs : Forall (fun s => slashfree s = true) (dirs ++ [stem ++ str ".md"])).
  { apply Forall_app. split; [exact Hdirs|].
    apply clean_parts in Hc as (_ & Hs & _). repeat constructor. exact Hs. }
  assert (Hparts : split_char Path.slash (path_of (dirs ++ [stem ++ str ".md"]))
                   = dirs ++ [stem ++ str ".md"]).
  { apply split_path_of; [destruct dirs; discriminate|exact Hsegs]. }
  assert (Hbase : Path.basename_ext (path_of (dirs ++ [stem ++ str ".md"])) (str ".md") = stem)
    by (apply basename_ext_md; assumption).
  split.
  - intros pre name rest E Hpre.
    assert (Hin : existsb (jsstring_eqb (str "projects")) (dirs ++ [stem ++ str ".md"]) = true).
    { apply existsb_projects. rewrite E. apply in_or_app. right. left. reflexivity. }
    unfold a, new_Article. cbn [isProject projectName url].
    rewrite Hparts, Hin, Hbase. rewrite E, indexOf_first by exact Hpre.
    replace (nth_error (pre ++ str "projects" :: name :: rest) (S (length pre)))
      with (Some name).
    + auto.
    + rewrite nth_error_app2 by lia.
      replace (S (length pre) - length pre)%nat with 1%nat by lia. reflexivity.
  - intros Hno.
    assert (Hin : existsb (jsstring_eqb (str "projects")) (dirs ++ [stem ++ str ".md"]) = false).
    { apply not_true_is_false. intros H. apply existsb_projects in H.
      apply in_app_or in H as [H|[H|[]]]; [exact (Hno H)|].
      apply (f_equal (@rev N)) in H. rewrite rev_app_distr in H. discriminate H. }
    unfold a, new_Article. cbn [isProject projectName url date].
    rewrite Hparts, Hin, Hbase. auto.
Qed.

Lemma article_placement_witness :
  url (new_Article (L := Sample.libs) 0 [] Sample2.plain_frontmatter
         (str "articles/projects/demo/next.md"))
  = str "/articles/projects/demo/next".
Proof.
  destruct (article_placement (L := Sample.libs) 0 [] Sample2.plain_frontmatter
              [str "articles"; str "projects"; str "demo"] (str "next")) as [H _].
  - repeat constructor.
  - discriminate.
  - reflexivity.
  - destruct (H [str "articles"] (str "demo") [str "next.md"] eq_refl) as (_ & _ & E).
    + intros [E|[]]. discriminate E.
    + exact E.
Defined.

Section OutputLocation.
Context {L : Libs}.

Lemma join_dist segs :
  segs <> [] -> Forall (fun s => clean s = true) segs ->
  Path.join [DIST_DIR; path_of segs; str "index.html"]
  = path_of (str "dist" :: segs ++ [str "index.html"]).
Proof.
  intros Hne Hc. unfold Path.join.
  rewrite filter_nonempty_all
    by (repeat constructor; try discriminate; apply path_of_nonempty; assumption).
  assert (E : JS.join [Path.slash] [DIST_DIR; path_of segs; str "index.html"]
              = path_of (str "." :: str "dist" :: segs ++ [str "index.html"])).
  { change (str "." :: str "dist" :: segs ++ [str "index.html"])
      with ([str "."; str "dist"] ++ segs ++ [str "index.html"]).
    rewrite path_of_app by (try discriminate; destruct segs; discriminate).
    rewrite path_of_app by (try discriminate; assumption).
    cbn [JS.join]. rewrite <- ?app_assoc. reflexivity. }
  rewrite E. apply normalize_dot_path_of; [discriminate|].
  constructor; [reflexivity|]. apply Forall_app. split; [exact Hc|].
  constructor; [reflexivity|constructor].
Qed.

Lemma output_location (a : Article) (segs : list jsstring) :
  url a = Path.slash :: path_of segs ->
  segs <> [] -> Forall (fun s => clean s = true) segs ->
  outputPath a = path_of (str "dist" :: segs ++ [str "index.html"])
  /\ Path.dirname (outputPath a) = path_of (str "dist" :: segs)
  /\ forall imagePath,
       clean (Path.basename imagePath) = true ->
       copy_image a imagePath
       = Cp (Path.join [Path.dirname (filePath a); imagePath])
            (path_of (str "dist" :: segs ++ [Path.basename imagePath])).
Proof.
  intros Hurl Hne Hc.
  assert (Hc' : Forall (fun s => clean s = true) (str "dist" :: segs))
    by (constructor; [reflexivity|exact Hc]).
  assert (Hout : outputPath a = path_of (str "dist" :: segs ++ [str "index.html"])).
  { unfold outputPath. rewrite Hurl. cbn [substring_from skipn]. apply join_dist; assumption. }
  assert (Hdir : Path.dirname (outputPath a) = path_of (str "dist" :: segs)).
  { rewrite Hout. apply (dirname_path_of (str "dist" :: segs)); [discriminate|exact Hc'|reflexivity]. }
  split; [exact Hout|]. split; [exact Hdir|].
  intros imagePath Hb. unfold copy_image. rewrite Hdir. f_equal.
  apply (join_name (str "dist" :: segs)); [discriminate|exact Hc'|exact Hb].
Qed.

End OutputLocation.

(** X6.  Where an article goes: with URL [/s1/.../sn], its page is written to
    [dist/s1/.../sn/index.html], the directory created for it is
    [dist/s1/.../sn], and an image is copied there under its base name. *)
Theorem article_output_location (a : Article) (segs : list jsstring) :
  url a = Path.slash :: path_of segs ->
  segs <> [] -> Forall (fun s => clean s = true) segs ->
  outputPath a = path_of (str "dist" :: segs ++ [str "index.html"])
  /\ Path.dirname (outputPath a) = path_of (str "dist" :: segs)
  /\ forall imagePath,
       clean (Path.basename imagePath) = true ->
       copy_image a imagePath
       = Cp (Path.join [Path.dirname (filePath a); imagePath])
            (path_of (str "dist" :: segs ++ [Path.basename imagePath])).
Proof. apply output_location. Qed.

(** * The calendar *)

Ltac dlia := Z.to_euclidean_division_equations; lia.

Section Calendar.
Local Open Scope Z_scope.

Lemma yoe_recover c a b doy :
  0 <= c <= 3 -> 0 <= a <= 24 -> 0 <= b <= 3 -> 0 <= doy <= 365 ->
  (doy = 365 -> b = 3 /\ (a <> 24 \/ c = 3)) ->
  let n := 36524 * c + 1461 * a + 365 * b + doy in
  (n - n / 1460 + n / 36524 - n / 146096) / 365 = 100 * c + 4 * a + b.
Proof.
  intros Hc Ha Hb Hd Hleap n. subst n.
  assert (C : c = 0 \/ c = 1 \/ c = 2 \/ c = 3) by lia.
  assert (B : b = 0 \/ b = 1 \/ b = 2 \/ b = 3) by lia.
  destruct C as [->|[->|[->| ->]]]; destruct B as [->|[->|[->| ->]]]; dlia.
Qed.

Lemma article_output_location_witness :
  outputPath (new_Article (L := Sample.libs) 0 [] Sample2.plain_frontmatter
                (str "articles/projects/demo/next.md"))
  = str "dist/articles/projects/demo/next/index.html".
Proof.
  apply (article_output_location
           (new_Article (L := Sample.libs) 0 [] Sample2.plain_frontmatter
              (str "articles/projects/demo/next.md"))
           [str "articles"; str "projects"; str "demo"; str "next"]).
  - reflexivity.
  - discriminate.
  - repeat constructor.
Defined.

Lemma is_leap_true y :
  is_leap y = true -> y mod 4 = 0 /\ (y mod 100 <> 0 \/ y mod 400 = 0).
Proof.
  unfold is_leap. intros H. apply andb_prop in H as [H4 H].
  apply Z.eqb_eq in H4. split; [exact H4|].
  apply orb_prop in H as [H|H].
  - left. apply negb_true_iff, Z.eqb_neq in H. exact H.
  - right. apply Z.eqb_eq, H.
Qed.

(** Day of the March-based year of a date, and back. *)
Lemma month_part m d y :
  1 <= m <= 12 -> 1 <= d <= days_in_month y m ->
  let mp := if 2 <? m then m - 3 else m + 9 in
  let doy := (153 * mp + 2) / 5 + d - 1 in
  0 <= doy <= 365
  /\ (doy = 365 -> m = 2 /\ is_leap y = true)
  /\ (5 * doy + 2) / 153 = mp
  /\ doy - (153 * mp + 2) / 5 + 1 = d
  /\ (if mp <? 10 then mp + 3 else mp - 9) = m.
Proof.
  intros Hm Hd.
  assert (M : m = 1 \/ m = 2 \/ m = 3 \/ m = 4 \/ m = 5 \/ m = 6 \/ m = 7 \/ m = 8
              \/ m = 9 \/ m = 10 \/ m = 11 \/ m = 12) by lia.
  unfold days_in_month in Hd.
  destruct M as [->|[->|[->|[->|[->|[->|[->|[->|[->|[->|[->| ->]]]]]]]]]]];
    cbn in Hd |- *; try (destruct (is_leap y)); repeat split; try dlia;
    intros; try dlia.
Qed.

(** The civil date of the day number of a date is the date, for every
    date of the proleptic Gregorian calendar. *)
Lemma civil_round_trip y m d :
  1 <= m <= 12 -> 1 <= d <= days_in_month y m ->
  JSDate.civil_from_days (JSDate.days_from_civil y m d) = (y, m, d).
Proof.
  intros Hm Hd.
  destruct (month_part m d y Hm Hd) as (Hdoy & Hfull & Hmp & Hday & Hmo).
  unfold JSDate.days_from_civil, JSDate.civil_from_days. cbv zeta.
  set (mp := if 2 <? m then m - 3 else m + 9) in *.
  set (doy := (153 * mp + 2) / 5 + d - 1) in *.
  set (y' := if m <=? 2 then y - 1 else y).
  set (era := y' / 400). set (yoe := y' - era * 400).
  set (doe := yoe * 365 + yoe / 4 - yoe / 100 + doy).
  pose (c := yoe / 100). pose (a := (yoe - 100 * c) / 4). pose (b := yoe - 100 * c - 4 * a).
  assert (Hyoe : 0 <= yoe <= 399) by (unfold yoe, era; dlia).
  assert (Hc : 0 <= c <= 3) by (unfold c; dlia).
  assert (Ha : 0 <= a <= 24) by (unfold a, c; dlia).
  assert (Hb : 0 <= b <= 3) by (unfold b, a, c; dlia).
  assert (Eyoe : yoe = 100 * c + 4 * a + b) by (unfold b; lia).
  assert (E4 : yoe / 4 = 25 * c + a) by (unfold a, c; dlia).
  assert (Hleap : doy = 365 -> b = 3 /\ (a <> 24 \/ c = 3)).
  { intros E. destruct (Hfull E) as [-> Hl]. apply is_leap_true in Hl.
    assert (Ey : y = 400 * era + 100 * c + 4 * a + b + 1).
    { unfold y' in *. cbn in *. lia. }
    clear - Hl Ey Hc Ha Hb. dlia. }
  assert (Edoe : doe = 36524 * c + 1461 * a + 365 * b + doy).
  { unfold doe. rewrite E4. fold c. lia. }
  replace (era * 146097 + doe - 719468 + 719468) with (doe + era * 146097) by lia.
  assert (Hdoe : 0 <= doe < 146097) by lia.
  rewrite Z.div_add by lia. rewrite (Z.div_small doe) by lia.
  replace (doe + era * 146097 - (0 + era) * 146097) with doe by lia.
  assert (Hrec : (doe - doe / 1460 + doe / 36524 - doe / 146096) / 365 = yoe).
  { rewrite Edoe, Eyoe. apply yoe_recover; assumption. }
  rewrite Hrec. fold doe.
  replace (doe - (365 * yoe + yoe / 4 - yoe / 100)) with doy by (unfold doe; lia).
  rewrite Hmp, Hday, Hmo.
  f_equal. f_equal. unfold yoe, y'. destruct (m <=? 2); lia.
Qed.

Lemma days_from_civil_day y m d :
  JSDate.days_from_civil y m d = JSDate.days_from_civil y m 1 + d - 1.
Proof. unfold JSDate.days_from_civil. cbv zeta. lia. Qed.

Lemma days_from_civil_bound y m d :
  0 <= y <= 9999 -> 1 <= m <= 12 -> 1 <= d <= 31 ->
  -900000 <= JSDate.days_from_civil y m d <= 4000000.
Proof.
  intros Hy Hm Hd. unfold JSDate.days_from_civil. cbv zeta.
  set (mp := if 2 <? m then m - 3 else m + 9).
  set (y' := if m <=? 2 then y - 1 else y).
  assert (Hmp : 0 <= mp <= 11) by (unfold mp; destruct (Z.ltb_spec 2 m); lia).
  assert (Hy' : -1 <= y' <= 9999) by (unfold y'; destruct (m <=? 2); lia).
  assert (Hera : -1 <= y' / 400 <= 24) by dlia.
  assert (Hyoe : 0 <= y' - y' / 400 * 400 <= 399) by dlia.
  set (yoe := y' - y' / 400 * 400) in *.
  assert (H4 : 0 <= yoe / 4 <= 99) by dlia.
  assert (H100 : 0 <= yoe / 100 <= 3) by dlia.
  assert (H5 : 0 <= (153 * mp + 2) / 5 <= 337) by dlia.
  lia.
Qed.

End Calendar.

(** * Decimal numerals *)

Ltac nlia := zify; Z.to_euclidean_division_equations; lia.

Section Decimal.

Lemma digits_fuel_acc : forall fuel n acc,
  digits_fuel fuel n acc = digits_fuel fuel n [] ++ acc.
Proof.
  induction fuel as [|f IH]; intros n acc; [reflexivity|].
  cbn [digits_fuel]. cbv zeta. destruct (N.ltb n 10); [reflexivity|].
  rewrite (IH _ (_ :: acc)), (IH _ [_]). rewrite <- app_assoc. reflexivity.
Qed.

Lemma digits_fuel_step f n :
  digits_fuel (S f) n []
  = if N.ltb n 10 then [(48 + n mod 10)%N]
    else digits_fuel f (n / 10)%N [] ++ [(48 + n mod 10)%N].
Proof.
  cbn [digits_fuel]. cbv zeta. destruct (N.ltb n 10); [reflexivity|].
  apply digits_fuel_acc.
Qed.

Lemma digit_unit n : is_digit (48 + n mod 10)%N = true.
Proof.
  unfold is_digit, char_in. apply andb_true_intro. split; apply N.leb_le; nlia.
Qed.

Lemma digits_fuel_digits : forall fuel n,
  Forall (fun c => is_digit c = true) (digits_fuel fuel n []).
Proof.
  induction fuel as [|f IH]; intros n; [constructor|].
  rewrite digits_fuel_step. destruct (N.ltb n 10).
  - repeat constructor. apply digit_unit.
  - apply Forall_app. split; [apply IH|]. repeat constructor. apply digit_unit.
Qed.

Lemma number_of_digits_snoc s c :
  number_of_digits (s ++ [c]) = (10 * number_of_digits s + (Z.of_N c - 48))%Z.
Proof. unfold number_of_digits. rewrite fold_left_app. reflexivity. Qed.

Lemma number_of_digits_fuel : forall fuel n,
  (n < 2 ^ N.of_nat fuel)%N ->
  number_of_digits (digits_fuel fuel n []) = Z.of_N n.
Proof.
  induction fuel as [|f IH]; intros n Hn.
  - cbn in Hn. assert (n = 0%N) by lia. subst. reflexivity.
  - rewrite digits_fuel_step. destruct (N.ltb_spec n 10).
    + cbn. nlia.
    + rewrite number_of_digits_snoc, IH.
      * nlia.
      * rewrite Nat2N.inj_succ, N.pow_succ_r' in Hn. nlia.
Qed.

Lemma String_of_N_fuel n : (n < 2 ^ N.of_nat (S (N.to_nat (N.log2 n))))%N.
Proof.
  rewrite Nat2N.inj_succ, N2Nat.id.
  destruct (N.eq_dec n 0%N) as [->|Hn]; [reflexivity|].
  apply N.log2_spec. lia.
Qed.

(** Reading the decimal form of a number gives the number. *)
Lemma number_of_String n : number_of_digits (String_of_N n) = Z.of_N n.
Proof. apply number_of_digits_fuel, String_of_N_fuel. Qed.

Lemma String_of_N_digits n : Forall (fun c => is_digit c = true) (String_of_N n).
Proof. apply digits_fuel_digits. Qed.

Lemma digits_fuel_length_le : forall fuel n k,
  (n < 10 ^ N.of_nat (S k))%N -> (length (digits_fuel fuel n []) <= S k)%nat.
Proof.
  induction fuel as [|f IH]; intros n k Hn; [simpl; lia|].
  rewrite digits_fuel_step. destruct (N.ltb_spec n 10); [simpl; lia|].
  rewrite length_app. cbn [length].
  destruct k as [|k].
  - cbn in Hn. lia.
  - specialize (IH (n / 10)%N k).
    rewrite Nat2N.inj_succ, N.pow_succ_r' in Hn.
    assert (n / 10 < 10 ^ N.of_nat (S k))%N by nlia. lia.
Qed.

Lemma digits_fuel_length_ge : forall fuel n k,
  (n < 2 ^ N.of_nat fuel)%N -> (10 ^ N.of_nat k <= n)%N ->
  (S k <= length (digits_fuel fuel n []))%nat.
Proof.
  induction fuel as [|f IH]; intros n k Hn Hk.
  - cbn in Hn. assert (0 < 10 ^ N.of_nat k)%N by (apply N.neq_0_lt_0, N.pow_nonzero; lia).
    lia.
  - rewrite digits_fuel_step. destruct (N.ltb_spec n 10).
    + destruct k as [|k]; [simpl; lia|].
      rewrite Nat2N.inj_succ, N.pow_succ_r' in Hk.
      assert (0 < 10 ^ N.of_nat k)%N by (apply N.neq_0_lt_0, N.pow_nonzero; lia).
      lia.
    + rewrite length_app. cbn [length].
      destruct k as [|k]; [lia|].
      rewrite Nat2N.inj_succ, N.pow_succ_r' in Hn, Hk.
      specialize (IH (n / 10)%N k).
      assert (n / 10 < 2 ^ N.of_nat f)%N by nlia.
      assert (10 ^ N.of_nat k <= n / 10)%N by nlia.
      lia.
Qed.

Lemma number_of_zeros k s :
  number_of_digits (repeat 48%N k ++ s) = number_of_digits s.
Proof.
  unfold number_of_digits. rewrite fold_left_app.
  replace (fold_left (fun acc c => (10 * acc + (Z.of_N c - 48))%Z) (repeat 48%N k) 0%Z)
    with 0%Z; [reflexivity|].
  induction k as [|k IH]; [reflexivity|]. cbn [repeat fold_left]. exact IH.
Qed.

Lemma pad_facts k z :
  (0 <= z < 10 ^ Z.of_nat (S k))%Z ->
  length (JSDate.pad (S k) z) = S k
  /\ Forall (fun c => is_digit c = true) (JSDate.pad (S k) z)
  /\ number_of_digits (JSDate.pad (S k) z) = z.
Proof.
  intros Hz. unfold JSDate.pad, padStart0, String_of_Z.
  destruct (Z.ltb_spec z 0); [lia|].
  assert (Hlen : (length (String_of_N (Z.to_N z)) <= S k)%nat).
  { apply digits_fuel_length_le.
    assert (E : Z.of_N (10 ^ N.of_nat (S k)) = (10 ^ Z.of_nat (S k))%Z).
    { rewrite N2Z.inj_pow, nat_N_Z. reflexivity. }
    lia. }
  split; [|split].
  - rewrite length_app, repeat_length. lia.
  - apply Forall_app. split; [|apply String_of_N_digits].
    clear. induction (S k - length (String_of_N (Z.to_N z)))%nat; constructor; auto.
  - rewrite number_of_zeros, number_of_String. lia.
Qed.

Lemma pad_long k z :
  (10 ^ Z.of_nat k <= z)%Z -> JSDate.pad (S k) z = String_of_Z z.
Proof.
  intros Hz. unfold JSDate.pad, padStart0.
  assert (0 < 10 ^ Z.of_nat k)%Z by (apply Z.pow_pos_nonneg; lia).
  assert (Hlen : (S k <= length (String_of_Z z))%nat).
  { unfold String_of_Z. destruct (Z.ltb_spec z 0); [lia|].
    apply digits_fuel_length_ge; [apply String_of_N_fuel|].
    assert (E : Z.of_N (10 ^ N.of_nat k) = (10 ^ Z.of_nat k)%Z).
    { rewrite N2Z.inj_pow, nat_N_Z. reflexivity. }
    lia. }
  replace (S k - length (String_of_Z z))%nat with O by lia. reflexivity.
Qed.

End Decimal.

(** * Dates written day, month, year *)

Section EuroDate.
Context {L : Libs}.

Lemma digit_not_dash c : is_digit c = true -> N.eqb c 45 = false.
Proof.
  unfold is_digit, char_in. intros H. apply andb_prop in H as [H _].
  apply N.leb_le in H. apply N.eqb_neq. lia.
Qed.

Lemma euro_test a1 a2 b1 b2 c1 c2 c3 c4 :
  is_digit a1 = true -> is_digit a2 = true -> is_digit b1 = true -> is_digit b2 = true ->
  is_digit c1 = true -> is_digit c2 = true -> is_digit c3 = true -> is_digit c4 = true ->
  test euroDateRegex [a1; a2; 45%N; b1; b2; 45%N; c1; c2; c3; c4] = true.
Proof.
  intros A1 A2 B1 B2 C1 C2 C3 C4.
  unfold test, search, exec_at, euroDateRegex.
  cbn [seqs lit str list_ascii_of_string List.map m Nat.eqb].
  rewrite A1, A2. change (N.eqb (N_of_ascii "-") 45) with true. cbv iota.
  rewrite B1, B2. cbv iota. rewrite C1, C2, C3, C4. reflexivity.
Qed.

Lemma euro_split a1 a2 b1 b2 c1 c2 c3 c4 :
  is_digit a1 = true -> is_digit a2 = true -> is_digit b1 = true -> is_digit b2 = true ->
  is_digit c1 = true -> is_digit c2 = true -> is_digit c3 = true -> is_digit c4 = true ->
  split_char 45%N [a1; a2; 45%N; b1; b2; 45%N; c1; c2; c3; c4]
  = [[a1; a2]; [b1; b2]; [c1; c2; c3; c4]].
Proof.
  intros A1 A2 B1 B2 C1 C2 C3 C4.
  apply digit_not_dash in A1, A2, B1, B2, C1, C2, C3, C4.
  cbn [split_char]. rewrite A1, A2, B1, B2, C1, C2, C3, C4. reflexivity.
Qed.

Lemma two_units (s : jsstring) :
  length s = 2%nat -> Forall (fun c => is_digit c = true) s ->
  exists a b, s = [a; b] /\ is_digit a = true /\ is_digit b = true.
Proof.
  intros Hl Hd. destruct s as [|a [|b [|c s]]]; try discriminate Hl.
  inversion Hd as [|? ? Ha Hd']; subst. inversion Hd' as [|? ? Hb _]; subst.
  eauto.
Qed.

Lemma four_units (s : jsstring) :
  length s = 4%nat -> Forall (fun c => is_digit c = true) s ->
  exists a b c d, s = [a; b; c; d] /\ is_digit a = true /\ is_digit b = true
    /\ is_digit c = true /\ is_digit d = true.
Proof.
  intros Hl Hd. destruct s as [|a [|b [|c [|d [|e s]]]]]; try discriminate Hl.
  inversion Hd as [|? ? Ha Hd1]; subst. inversion Hd1 as [|? ? Hb Hd2]; subst.
  inversion Hd2 as [|? ? Hc Hd3]; subst. inversion Hd3 as [|? ? Hdd _]; subst.
  exists a, b, c, d. auto.
Qed.

Lemma days_in_month_31 y m : (days_in_month y m <= 31)%Z.
Proof.
  unfold days_in_month. destruct (Z.eqb m 2); [destruct (is_leap y); lia|].
  destruct (Z.eqb m 4 || Z.eqb m 6 || Z.eqb m 9 || Z.eqb m 11); lia.
Qed.

Local Open Scope Z_scope.

(** The date object the constructor makes of day, month and year. *)
Lemma of_components_civil y m d :
  - JSDate.msPerDay <= LocalTZA <= JSDate.msPerDay ->
  100 <= y <= 9999 -> 1 <= m <= 12 -> 1 <= d <= days_in_month y m ->
  exists v,
    JSDate.of_components LocalTZA y (m - 1) d = Some v
    /\ JSDate.local_civil LocalTZA v = (y, m, d).
Proof.
  intros Htz Hy Hm Hd. pose proof (days_in_month_31 y m) as H31.
  unfold JSDate.of_components.
  replace (Z.leb 0 y && Z.leb y 99) with false
    by (symmetry; apply andb_false_intro2, Z.leb_gt; lia).
  unfold JSDate.MakeDay.
  replace ((m - 1) / 12) with 0 by dlia.
  replace ((m - 1) mod 12 + 1) with m by dlia.
  rewrite Z.add_0_r, <- days_from_civil_day.
  pose proof (days_from_civil_bound y m d ltac:(lia) Hm ltac:(lia)) as Hb.
  set (n := JSDate.days_from_civil y m d) in *.
  exists (n * JSDate.msPerDay - LocalTZA). split.
  - unfold JSDate.TimeClip.
    replace (Z.ltb 8640000000000000 (Z.abs (n * JSDate.msPerDay - LocalTZA))) with false;
      [reflexivity|].
    symmetry. apply Z.ltb_ge. unfold JSDate.msPerDay in *. lia.
  - unfold JSDate.local_civil.
    replace (n * JSDate.msPerDay - LocalTZA + LocalTZA) with (n * JSDate.msPerDay) by lia.
    rewrite Z.div_mul by (unfold JSDate.msPerDay; lia).
    apply civil_round_trip; assumption.
Qed.

End EuroDate.

(** X7.  A date written [DD-MM-YYYY] in the frontmatter is the date the pages
    show.  The constructor reads the three numbers into a local date (a
    year below 100 counts from 1900), and formatDateEuro prints day and
    month of a date of the calendar on two digits and the year as it is:
    for a four-digit year from 1000 on, the very string of the
    frontmatter.  Local time is at a constant offset from UTC, of a day
    at most. *)
Theorem euro_date_round_trip {L : Libs} (now : Z) (body path : jsstring)
    (fm : Frontmatter) (y m d : Z) :
  (- JSDate.msPerDay <= LocalTZA <= JSDate.msPerDay)%Z ->
  (0 <= y <= 9999)%Z -> (1 <= m <= 12)%Z ->
  let yr := (if Z.leb y 99 then 1900 + y else y)%Z in
  (1 <= d <= days_in_month yr m)%Z ->
  let s := JSDate.pad 2 d ++ str "-" ++ JSDate.pad 2 m ++ str "-" ++ JSDate.pad 4 y in
  fm_date fm = Some (DateString s) ->
  let a := new_Article now body fm path in
  JSDate.getFullYear LocalTZA (date a) = Some yr
  /\ formatDateEuro (date a)
     = JSDate.pad 2 d ++ str "-" ++ JSDate.pad 2 m ++ str "-" ++ String_of_Z yr
  /\ ((1000 <= y)%Z -> formatDateEuro (date a) = s).
Proof.
  intros Htz Hy Hm yr Hd s Hfm a.
  pose proof (days_in_month_31 yr m) as H31.
  destruct (pad_facts 1 d ltac:(cbn; lia)) as (Ld & Dd & Nd).
  destruct (pad_facts 1 m ltac:(cbn; lia)) as (Lm & Dm & Nm).
  destruct (pad_facts 3 y ltac:(cbn; lia)) as (Ly & Dy & Ny).
  destruct (two_units _ Ld Dd) as (d1 & d2 & Ed & Hd1 & Hd2).
  destruct (two_units _ Lm Dm) as (m1 & m2 & Em & Hm1 & Hm2).
  destruct (four_units _ Ly Dy) as (y1 & y2 & y3 & y4 & Ey & Hy1 & Hy2 & Hy3 & Hy4).
  assert (Es : s = [d1; d2; 45%N; m1; m2; 45%N; y1; y2; y3; y4]).
  { unfold s. rewrite Ed, Em, Ey. reflexivity. }
  assert (Hyr : (100 <= yr <= 9999)%Z).
  { unfold yr. destruct (Z.leb_spec y 99); lia. }
  destruct (of_components_civil yr m d Htz Hyr Hm Hd) as (v & Hv & Hciv).
  assert (Hdate : date a = Some v).
  { unfold a, new_Article. cbn [date]. rewrite Hfm. unfold parse_date.
    rewrite Es. rewrite euro_test, euro_split by assumption.
    rewrite <- Ed, <- Em, <- Ey, Nd, Nm, Ny.
    assert (Eyr : (if Z.leb 0 y && Z.leb y 99 then 1900 + y else y)%Z = yr).
    { unfold yr. replace (Z.leb 0 y) with true by (symmetry; apply Z.leb_le; lia).
      reflexivity. }
    unfold JSDate.of_components in *. rewrite Eyr.
    replace (Z.leb 0 yr && Z.leb yr 99) with false in Hv
      by (symmetry; apply andb_false_intro2, Z.leb_gt; lia).
    exact Hv. }
  assert (Hfmt : formatDateEuro (date a)
     = JSDate.pad 2 d ++ str "-" ++ JSDate.pad 2 m ++ str "-" ++ String_of_Z yr).
  { rewrite Hdate. unfold formatDateEuro, JSDate.getDate, JSDate.getMonth,
      JSDate.getFullYear. rewrite Hciv. cbn [fst snd option_map JSDate.String_of_number].
    replace (m - 1 + 1)%Z with m by lia. reflexivity. }
  split; [|split].
  - rewrite Hdate. unfold JSDate.getFullYear. rewrite Hciv. reflexivity.
  - exact Hfmt.
  - intros H1000. rewrite Hfmt. unfold s.
    replace yr with y by (unfold yr; destruct (Z.leb_spec y 99); lia).
    rewrite (pad_long 3 y) by (cbn; lia). reflexivity.
Qed.

Lemma euro_date_round_trip_witness :
  formatDateEuro (L := Sample.libs)
    (date (new_Article (L := Sample.libs) 0 []
             {| fm_title := None; fm_date := Some (DateString (str "31-12-2099"));
                fm_description := None; fm_tags := None |}
             (str "articles/next.md")))
  = str "31-12-2099".
Proof.
  apply (euro_date_round_trip (L := Sample.libs) 0 [] (str "articles/next.md")
           {| fm_title := None; fm_date := Some (DateString (str "31-12-2099"));
              fm_description := None; fm_tags := None |} 2099 12 31).
  - split; vm_compute; discriminate.
  - lia.
  - lia.
  - split; vm_compute; discriminate.
  - reflexivity.
  - lia.
Defined.

(** * The order of the index page *)

Section Sorting.

Lemma sort_insert_In x z l : In z (sort_insert x l) -> z = x \/ In z l.
Proof.
  intros H. apply (Permutation_in z (Permutation_sym (sort_insert_permutation x l))) in H.
  destruct H as [<-|H]; auto.
Qed.

Lemma sort_insert_valid x l :
  valid_date x -> Forall valid_date l -> Forall valid_date (sort_insert x l).
Proof.
  intros Hx Hl. apply List.Forall_forall. intros z Hz.
  apply sort_insert_In in Hz as [->|Hz]; [exact Hx|].
  rewrite List.Forall_forall in Hl. apply Hl, Hz.
Qed.

Lemma not_older_trans a b c : not_older a b -> not_older b c -> not_older a c.
Proof.
  unfold not_older. destruct (date a), (date b), (date c); try tauto. lia.
Qed.

Lemma sort_insert_sorted x : forall l,
  valid_date x -> Forall valid_date l ->
  StronglySorted not_older l -> StronglySorted not_older (sort_insert x l).
Proof.
  induction l as [|y rest IH]; intros Hx Hl Hs.
  - repeat constructor.
  - inversion Hl as [|? ? Hy Hrest]; subst. inversion Hs as [|? ? Hs' Hall]; subst.
    cbn [sort_insert]. unfold byDateDesc, JSDate.diff.
    unfold valid_date in Hx, Hy.
    destruct (date x) as [vx|] eqn:Ex; [|congruence].
    destruct (date y) as [vy|] eqn:Ey; [|congruence].
    destruct (Z.ltb_spec 0 (vx - vy)).
    + constructor; [exact Hs|]. constructor.
      * unfold not_older. rewrite Ex, Ey. lia.
      * eapply List.Forall_impl; [|exact Hall]. intros z Hz.
        apply not_older_trans with y; [|exact Hz].
        unfold not_older. rewrite Ex, Ey. lia.
    + constructor.
      * apply IH; [unfold valid_date; congruence|exact Hrest|exact Hs'].
      * apply List.Forall_forall. intros z Hz.
        apply sort_insert_In in Hz as [->|Hz].
        -- unfold not_older. rewrite Ex, Ey. lia.
        -- rewrite List.Forall_forall in Hall. apply Hall, Hz.
Qed.

Lemma filter_older v x : forall l,
  date x = Some v -> Forall (fun z => not_older z x -> False) l ->
  List.filter (dated_at v) l = [].
Proof.
  induction l as [|z rest IH]; intros Ex H; [reflexivity|].
  inversion H as [|? ? Hz Hrest]; subst. cbn [List.filter].
  rewrite (IH Ex Hrest). unfold dated_at.
  destruct (date z) as [vz|] eqn:Ez; [|reflexivity].
  destruct (Z.eqb_spec vz v); [|reflexivity].
  exfalso. apply Hz. unfold not_older. rewrite Ez, Ex. lia.
Qed.

Lemma filter_head {A} (f : A -> bool) x l :
  List.filter f (x :: l) = (if f x then [x] else []) ++ List.filter f l.
Proof. cbn [List.filter]. destruct (f x); reflexivity. Qed.

Lemma sort_insert_filter v x : forall l,
  valid_date x -> Forall valid_date l -> StronglySorted not_older l ->
  List.filter (dated_at v) (sort_insert x l)
  = List.filter (dated_at v) l ++ (if dated_at v x then [x] else []).
Proof.
  induction l as [|y rest IH]; intros Hx Hl Hs.
  - cbn. destruct (dated_at v x); reflexivity.
  - inversion Hl as [|? ? Hy Hrest]; subst. inversion Hs as [|? ? Hs' Hall]; subst.
    cbn [sort_insert]. unfold byDateDesc, JSDate.diff.
    unfold valid_date in Hx, Hy.
    destruct (date x) as [vx|] eqn:Ex; [|congruence].
    destruct (date y) as [vy|] eqn:Ey; [|congruence].
    destruct (Z.ltb_spec 0 (vx - vy)).
    + rewrite (filter_head (dated_at v) x (y :: rest)).
      destruct (dated_at v x) eqn:Edx; [|rewrite app_nil_r; reflexivity].
      assert (v = vx).
      { unfold dated_at in Edx. rewrite Ex in Edx. apply Z.eqb_eq in Edx. lia. }
      subst v. rewrite (filter_older vx x (y :: rest) Ex); [reflexivity|].
      constructor.
      * unfold not_older. rewrite Ex, Ey. lia.
      * eapply List.Forall_impl; [|exact Hall]. intros z Hz Hzx.
        unfold not_older in Hz, Hzx. rewrite Ey in Hz. rewrite Ex in Hzx.
        destruct (date z); [lia|tauto].
    + rewrite !(filter_head (dated_at v) y).
      rewrite IH by (try assumption; unfold valid_date; congruence).
      rewrite app_assoc. reflexivity.
Qed.

Lemma sort_fold_sorted v : forall arr acc,
  Forall valid_date arr -> Forall valid_date acc -> StronglySorted not_older acc ->
  let out := fold_left (fun sorted x => sort_insert x sorted) arr acc in
  StronglySorted not_older out
  /\ List.filter (dated_at v) out = List.filter (dated_at v) acc ++ List.filter (dated_at v) arr.
Proof.
  induction arr as [|x rest IH]; intros acc Harr Hacc Hs.
  - cbn. rewrite app_nil_r. auto.
  - inversion Harr as [|? ? Hx Hrest]; subst. cbn [fold_left].
    destruct (IH (sort_insert x acc) Hrest (sort_insert_valid x acc Hx Hacc)
                (sort_insert_sorted x acc Hx Hacc Hs)) as [H1 H2].
    split; [exact H1|]. cbv zeta in H2. rewrite H2.
    rewrite sort_insert_filter by assumption.
    rewrite <- app_assoc, (filter_head (dated_at v) x rest). reflexivity.
Qed.

Lemma sort_articles_valid {L : Libs} arr :
  Forall valid_date arr -> sort_articles arr = stable_sort arr.
Proof.
  intros H. unfold sort_articles.
  replace (forallb has_valid_date arr) with true; [reflexivity|].
  symmetry. apply forallb_forall. rewrite List.Forall_forall in H.
  intros a Ha. specialize (H a Ha). unfold valid_date in H. unfold has_valid_date.
  destruct (date a); [reflexivity|congruence].
Qed.

End Sorting.

(** X8.  The index page lists the articles from new to old, and articles of
    the same instant stay in the order the scan found them, provided
    every date is a valid one. *)
Theorem index_lists_newest_first {L : Libs} (articles : list Article)
    (templates : Templates) (styles : jsstring) :
  Forall valid_date articles ->
  let sorted := fst (generateIndexHTML articles templates styles) in
  StronglySorted not_older sorted
  /\ (forall v, List.filter (dated_at v) sorted = List.filter (dated_at v) articles).
Proof.
  intros Hv sorted. unfold generateIndexHTML in *. cbn [fst snd] in *.
  subst sorted. rewrite (sort_articles_valid articles Hv).
  split; [apply (sort_fold_sorted 0%Z articles [] Hv); constructor|].
  intros v. apply (sort_fold_sorted v articles [] Hv); constructor.
Qed.

Lemma index_lists_newest_first_witness :
  let old := new_Article (L := Sample.libs) 0 (str "Old news.")
               {| fm_title := Some (VStr (str "Old"));
                  fm_date := Some (DateString (str "01-01-2024"));
                  fm_description := None; fm_tags := None |} (str "articles/old.md") in
  let new := new_Article (L := Sample.libs) 0 (str "Fresh news.")
               {| fm_title := Some (VStr (str "New"));
                  fm_date := Some (DateString (str "01-01-2025"));
                  fm_description := None; fm_tags := None |} (str "articles/new.md") in
  StronglySorted not_older
    (fst (generateIndexHTML (L := Sample.libs) [old; new]
            {| t_layout := []; t_index := []; t_article := []; t_projects := [];
               t_404 := [] |} [])).
Proof.
  intros old new.
  apply (index_lists_newest_first (L := Sample.libs) [old; new]).
  repeat constructor; discriminate.
Defined.

(** * The sections of the projects page *)

Section Grouping.

Lemma strval_eqb_eq a b : strval_eqb a b = true <-> a = b.
Proof.
  destruct a, b; cbn; try (split; congruence).
  rewrite jsstring_eqb_eq. split; congruence.
Qed.

Lemma strval_eqb_refl a : strval_eqb a a = true.
Proof. apply strval_eqb_eq. reflexivity. Qed.

Lemma strval_eqb_sym a b : strval_eqb a b = strval_eqb b a.
Proof.
  destruct (strval_eqb a b) eqn:E.
  - apply strval_eqb_eq in E. subst. symmetry. apply strval_eqb_refl.
  - symmetry. apply not_true_is_false. intros H. apply strval_eqb_eq in H. subst.
    rewrite strval_eqb_refl in E. discriminate.
Qed.

Lemma existsb_strval k l : existsb (strval_eqb k) l = true <-> In k l.
Proof.
  rewrite existsb_exists. split.
  - intros (y & Hy & E). apply strval_eqb_eq in E. subst. exact Hy.
  - intros H. exists k. split; [exact H|apply strval_eqb_refl].
Qed.

Lemma firsts_In k : forall l, In k (firsts l) <-> In k l.
Proof.
  induction l as [|x t IH]; [tauto|].
  cbn [firsts]. cbn [In]. rewrite filter_In, IH.
  destruct (strval_eqb k x) eqn:E.
  - apply strval_eqb_eq in E. subst. tauto.
  - cbn [negb]. split; [tauto|]. intros [->|H]; [rewrite strval_eqb_refl in E; discriminate|tauto].
Qed.

Lemma NoDup_list_filter {A} (f : A -> bool) l : List.NoDup l -> List.NoDup (List.filter f l).
Proof.
  induction 1 as [|x l Hx _ IH]; [constructor|].
  cbn [List.filter]. destruct (f x); [|exact IH].
  constructor; [|exact IH]. intros H. apply filter_In in H as [H _]. exact (Hx H).
Qed.

Lemma firsts_NoDup : forall l, List.NoDup (firsts l).
Proof.
  induction l as [|x t IH]; [constructor|].
  cbn [firsts]. constructor.
  - intros H. apply filter_In in H as [_ H]. rewrite strval_eqb_refl in H. discriminate.
  - apply NoDup_list_filter, IH.
Qed.

Lemma firsts_snoc x : forall l,
  firsts (l ++ [x]) = if existsb (strval_eqb x) l then firsts l else firsts l ++ [x].
Proof.
  induction l as [|y t IH]; [reflexivity|].
  cbn [app firsts existsb]. rewrite IH.
  destruct (strval_eqb x y) eqn:Exy; cbn [orb].
  - destruct (existsb (strval_eqb x) t); [reflexivity|].
    rewrite List.filter_app. cbn [List.filter]. rewrite Exy. cbn [negb].
    rewrite app_nil_r. reflexivity.
  - destruct (existsb (strval_eqb x) t); [reflexivity|].
    rewrite List.filter_app. cbn [List.filter]. rewrite Exy. reflexivity.
Qed.

Lemma map_push_map k a (F : strval -> list Article) : forall ks,
  List.NoDup ks ->
  map_push k a (List.map (fun k' => (k', F k')) ks)
  = List.map (fun k' => (k', F k' ++ (if strval_eqb k k' then [a] else []))) ks
    ++ (if existsb (strval_eqb k) ks then [] else [(k, [a])]).
Proof.
  induction ks as [|k' rest IH]; intros Hnd; [reflexivity|].
  inversion Hnd as [|? ? Hk' Hrest]; subst.
  cbn [List.map map_push existsb]. destruct (strval_eqb k k') eqn:E; cbn [orb].
  - rewrite app_nil_r. f_equal. apply map_ext_in. intros k'' Hin.
    apply strval_eqb_eq in E. subst k'.
    replace (strval_eqb k k'') with false; [rewrite app_nil_r; reflexivity|].
    symmetry. apply not_true_is_false. intros H. apply strval_eqb_eq in H. subst.
    exact (Hk' Hin).
  - rewrite (IH Hrest), app_nil_r. reflexivity.
Qed.

Lemma filter_none {A} (f : A -> bool) l :
  (forall x, In x l -> f x = false) -> List.filter f l = [].
Proof.
  induction l as [|x t IH]; intros H; [reflexivity|].
  cbn [List.filter]. rewrite (H x (or_introl eq_refl)). apply IH.
  intros y Hy. apply H. right. exact Hy.
Qed.

Lemma groups_fold : forall l,
  fold_left (fun mp a => map_push (projectName a) a mp) l []
  = List.map (fun k => (k, List.filter (in_project k) l)) (firsts (List.map projectName l)).
Proof.
  induction l as [|a l IH] using rev_ind; [reflexivity|].
  rewrite fold_left_app. cbn [fold_left]. rewrite IH.
  rewrite map_push_map by apply firsts_NoDup.
  rewrite map_app. cbn [List.map]. rewrite firsts_snoc.
  assert (Hmap : forall ks,
    List.map (fun k' => (k', List.filter (in_project k') l
                             ++ (if strval_eqb (projectName a) k' then [a] else []))) ks
    = List.map (fun k => (k, List.filter (in_project k) (l ++ [a]))) ks).
  { intros ks. apply map_ext. intros k. rewrite List.filter_app. cbn [List.filter].
    unfold in_project at 3. destruct (strval_eqb (projectName a) k); reflexivity. }
  rewrite Hmap.
  destruct (existsb (strval_eqb (projectName a)) (List.map projectName l)) eqn:Ex.
  - replace (existsb (strval_eqb (projectName a)) (firsts (List.map projectName l)))
      with true; [apply app_nil_r|].
    symmetry. apply existsb_strval, firsts_In. apply (proj1 (existsb_strval _ _)), Ex.
  - replace (existsb (strval_eqb (projectName a)) (firsts (List.map projectName l)))
      with false.
    + rewrite map_app. cbn [List.map]. f_equal. f_equal. f_equal.
      rewrite List.filter_app. cbn [List.filter]. unfold in_project at 2.
      rewrite strval_eqb_refl. rewrite filter_none; [reflexivity|].
      intros x Hx. unfold in_project. apply not_true_is_false. intros H.
      apply strval_eqb_eq in H.
      assert (Hin : existsb (strval_eqb (projectName a)) (List.map projectName l) = true).
      { apply existsb_strval. rewrite <- H. apply in_map, Hx. }
      congruence.
    + symmetry. apply not_true_is_false. intros H.
      apply (proj1 (existsb_strval _ _)) in H. apply (proj1 (firsts_In _ _)) in H.
      apply (proj2 (existsb_strval _ _)) in H. rewrite H in Ex. discriminate Ex.
Qed.

End Grouping.

(** X9.  The projects page has one section per project name, in the order in
    which the names first occur among the project articles; a section
    lists the articles of its project, sorted from new to old, and is
    never empty.  Articles outside projects do not appear, and every
    project article is in the section of its project. *)
Theorem projects_page_groups {L : Libs} (articles : list Article)
    (templates : Templates) (styles : jsstring) :
  let projectArticles := List.filter isProject articles in
  let groups :=
    List.map (fun k => (k, sort_articles (List.filter (in_project k) projectArticles)))
      (firsts (List.map projectName projectArticles)) in
  generateProjectsHTML articles templates styles
  = bind (mapM project_section groups) (fun sections =>
      inr (layout_page templates (VStr (str "Albert BF's Projects"))
             (VStr (str "A collection of my projects and their related articles"))
             (renderTemplate (t_projects templates)
                (<[str "projects" := VStr (JS.join [] sections)]> ∅))
             styles))
  /\ List.NoDup (List.map fst groups)
  /\ Forall (fun g => snd g <> [] /\ Forall (fun a => isProject a = true) (snd g)) groups
  /\ (forall a, In a articles -> isProject a = true ->
       exists g, In g groups /\ fst g = projectName a /\ In a (snd g)).
Proof.
  intros projectArticles groups.
  assert (Hfst : List.map fst groups = firsts (List.map projectName projectArticles)).
  { unfold groups. rewrite map_map. cbn [fst]. apply map_id. }
  split; [|split; [|split]].
  - unfold generateProjectsHTML. fold projectArticles.
    rewrite groups_fold, map_map. cbn [fst snd]. reflexivity.
  - rewrite Hfst. apply firsts_NoDup.
  - apply List.Forall_forall. intros [k g] Hg. apply in_map_iff in Hg as (k' & E & Hk).
    injection E as <- <-. cbn [snd].
    apply firsts_In, in_map_iff in Hk as (a & <- & Ha).
    split.
    + intros Hnil.
      assert (Hin : In a (sort_articles (List.filter (in_project (projectName a)) projectArticles))).
      { apply (Permutation_in a (sort_articles_permutation _)).
        apply filter_In. split; [exact Ha|apply strval_eqb_refl]. }
      rewrite Hnil in Hin. destruct Hin.
    + apply List.Forall_forall. intros b Hb.
      apply (Permutation_in b (Permutation_sym (sort_articles_permutation _))) in Hb.
      apply filter_In in Hb as [Hb _]. apply filter_In in Hb as [_ Hb]. exact Hb.
  - intros a Ha Hp.
    assert (Hpa : In a projectArticles) by (apply filter_In; auto).
    exists (projectName a,
            sort_articles (List.filter (in_project (projectName a)) projectArticles)).
    split; [|split; [reflexivity|]].
    + unfold groups. apply in_map_iff. exists (projectName a). split; [reflexivity|].
      apply firsts_In, in_map, Hpa.
    + cbn [snd]. apply (Permutation_in a (sort_articles_permutation _)).
      apply filter_In. split; [exact Hpa|apply strval_eqb_refl].
Qed.

(** * The languages of an article *)

Section Languages.
Context {L : Libs}.

Lemma renderer_code_langs langs lang text :
  fst (renderer_code langs lang text)
  = match lang with
    | Some (c :: l) =>
        if existsb (jsstring_eqb (c :: l)) SUPPORTED_LANGUAGES
        then set_add (c :: l) langs else langs
    | _ => langs
    end.
Proof.
  unfold renderer_code. destruct lang as [[|c l]|]; try reflexivity.
  destruct (existsb (jsstring_eqb (c :: l)) SUPPORTED_LANGUAGES); [|reflexivity].
  destruct (hljs_getLanguage (c :: l)); [|reflexivity].
  destruct (hljs_highlight text (c :: l)); reflexivity.
Qed.

Lemma set_add_In x y s : In y (set_add x s) <-> y = x \/ In y s.
Proof.
  unfold set_add. destruct (existsb (jsstring_eqb x) s) eqn:E.
  - apply existsb_eqb_In in E. split; [tauto|]. intros [->|H]; assumption.
  - rewrite in_app_iff. cbn [In]. split; [intros [H|[<-|[]]]; auto|intros [->|H]; auto].
Qed.

Lemma set_add_NoDup x s : List.NoDup s -> List.NoDup (set_add x s).
Proof.
  intros H. unfold set_add. destruct (existsb (jsstring_eqb x) s) eqn:E; [exact H|].
  assert (Hn : ~ In x s).
  { intros Hin. apply existsb_eqb_In in Hin. congruence. }
  clear E. induction H as [|y s Hy Hs IH]; cbn [app].
  - constructor; [intros []|constructor].
  - constructor.
    + rewrite in_app_iff. cbn [In]. intros [H|[<-|[]]]; [exact (Hy H)|].
      apply Hn. left. reflexivity.
    + apply IH. intros Hin. apply Hn. right. exact Hin.
Qed.

Lemma render_token_langs g out tok g' out' :
  render_token (g, out) tok = inr (g', out') ->
  currentArticleForRenderer g' = currentArticleForRenderer g
  /\ (List.NoDup (currentArticleLanguages g) -> List.NoDup (currentArticleLanguages g'))
  /\ forall l, In l (currentArticleLanguages g')
       <-> In l (currentArticleLanguages g) \/ token_language tok l.
Proof.
  unfold token_language.
  destruct tok as [h|lang text|href title text]; cbn [render_token].
  - intros H. injection H as <- _. split; [reflexivity|]. split; [auto|].
    intros l. split; [auto|]. intros [H|(_ & _ & t & E)]; [exact H|discriminate].
  - pose proof (renderer_code_langs (currentArticleLanguages g) lang text) as E.
    destruct (renderer_code (currentArticleLanguages g) lang text) as [langs h].
    cbn [fst] in E. intros H. injection H as <- _.
    cbn [currentArticleForRenderer currentArticleLanguages]. subst langs.
    split; [reflexivity|].
    destruct lang as [[|c l0]|].
    + split; [auto|]. intros l. split; [auto|].
      intros [H|(Hne & _ & t & E)]; [exact H|]. injection E as <- _. congruence.
    + destruct (existsb (jsstring_eqb (c :: l0)) SUPPORTED_LANGUAGES) eqn:Ex.
      * split; [apply set_add_NoDup|]. intros l. rewrite set_add_In. split.
        -- intros [->|H]; [|auto]. right. split; [discriminate|]. split.
           ++ apply existsb_eqb_In, Ex.
           ++ exists text. reflexivity.
        -- intros [H|(_ & _ & t & E)]; [auto|]. injection E as <- _. auto.
      * split; [auto|]. intros l. split; [auto|].
        intros [H|(_ & Hin & t & E)]; [exact H|]. injection E as <- _.
        apply existsb_eqb_In in Hin. congruence.
    + split; [auto|]. intros l. split; [auto|].
      intros [H|(_ & _ & t & E)]; [exact H|discriminate].
  - destruct (renderer_image _ _ _ _) as [e|h]; cbn [bind]; [discriminate|].
    intros H. injection H as <- _. split; [reflexivity|]. split; [auto|].
    intros l. split; [auto|]. intros [H|(_ & _ & t & E)]; [exact H|discriminate].
Qed.

Lemma fold_render_langs : forall toks g out g' out',
  foldM render_token toks (g, out) = inr (g', out') ->
  currentArticleForRenderer g' = currentArticleForRenderer g
  /\ (List.NoDup (currentArticleLanguages g) -> List.NoDup (currentArticleLanguages g'))
  /\ forall l, In l (currentArticleLanguages g')
       <-> In l (currentArticleLanguages g) \/ exists tok, In tok toks /\ token_language tok l.
Proof.
  induction toks as [|tok rest IH]; intros g out g' out' H.
  - cbn [foldM] in H. injection H as <- _.
    split; [reflexivity|]. split; [auto|]. intros l. split; [auto|].
    intros [H|(tok & [] & _)]. exact H.
  - cbn [foldM] in H.
    destruct (render_token (g, out) tok) as [e|[g1 out1]] eqn:E; [discriminate|].
    cbn [bind] in H.
    destruct (render_token_langs g out tok g1 out1 E) as (H1 & H2 & H3).
    destruct (IH g1 out1 g' out' H) as (I1 & I2 & I3).
    split; [congruence|]. split; [auto|].
    intros l. rewrite I3, H3. split.
    + intros [[Hl|Hl]|(t & Ht & Hl)]; [auto| |].
      * right. exists tok. split; [left; reflexivity|exact Hl].
      * right. exists t. split; [right; exact Ht|exact Hl].
    + intros [Hl|(t & [<-|Ht] & Hl)]; [auto|auto|].
      right. exists t. auto.
Qed.

End Languages.

(** X10.  The languages recorded for a parsed article are the supported
    languages that tag its code blocks: each once, whatever the articles
    parsed before it used.  The renderer is left without a current
    article. *)
Theorem parsed_languages {L : Libs} (now : Z) (g : Globals) (path : jsstring)
    (file : option jsstring) (g' : Globals) (a : Article) :
  parseMarkdownFile now g path file = inr (g', a) ->
  List.NoDup (languages a)
  /\ (forall l, In l (languages a) <->
        l <> [] /\ In l SUPPORTED_LANGUAGES
        /\ exists text, In (CodeTok (Some l) text) (marked_tokens (content a)))
  /\ currentArticleLanguages g' = languages a
  /\ currentArticleForRenderer g' = None.
Proof.
  intros H. apply parseMarkdownFile_inr in H
    as (content_ & cs & fm & g2 & out & _ & _ & _ & Hm & -> & ->).
  cbn [languages content set_languages set_images currentArticleLanguages
       currentArticleForRenderer].
  change (content (new_Article now (cap 2 cs) fm path)) with (cap 2 cs).
  unfold marked_parse in Hm.
  apply fold_render_langs in Hm as (_ & H2 & H3).
  cbn [currentArticleLanguages] in H2, H3.
  split; [apply H2; constructor|]. split; [|split; reflexivity].
  intros l. rewrite H3. unfold token_language. split.
  - intros [[]|(tok & Hin & Hne & Hs & text & ->)]. split; [exact Hne|]. split; [exact Hs|].
    exists text. exact Hin.
  - intros (Hne & Hs & text & Hin). right. exists (CodeTok (Some l) text).
    split; [exact Hin|]. split; [exact Hne|]. split; [exact Hs|]. exists text. reflexivity.
Qed.

Lemma parsed_languages_witness :
  exists g a,
    parseMarkdownFile (L := Sample2.libs) 0 initial_globals (str "articles/code.md")
      (Some Sample2.code_file) = inr (g, a)
    /\ List.NoDup (languages a)
    /\ (In (str "go") (languages a) /\ ~ In (str "rust") (languages a)).
Proof.
  assert (Hp : exists g a,
             parseMarkdownFile (L := Sample2.libs) 0 initial_globals (str "articles/code.md")
               (Some Sample2.code_file) = inr (g, a)).
  { eexists. eexists. vm_compute. reflexivity. }
  destruct Hp as (g & a & Hp). exists g, a. split; [exact Hp|].
  destruct (parsed_languages (L := Sample2.libs) 0 initial_globals
              (str "articles/code.md") (Some Sample2.code_file) g a Hp)
    as (Hnd & Hin & _).
  split; [exact Hnd|]. split.
  - apply Hin. split; [discriminate|]. split; [left; reflexivity|].
    exists (str "package main").
    assert (Hc : content a = str "```go
package main
```
```rust
fn main() {}
```
```go
func f() {}
```").
    { vm_compute in Hp. injection Hp as _ <-. reflexivity. }
    rewrite Hc. left. reflexivity.
  - intros H. apply Hin in H as (_ & [E|[E|[]]] & _); discriminate E.
Defined.

(** * The outcome of the build *)

Section BuildStatus.
Context {L : Libs}.




Lemma sort_articles_Forall (P : Article -> Prop) l :
  Forall P l -> Forall P (sort_articles l).
Proof.
  intros H. apply List.Forall_forall. intros a Ha.
  apply (Permutation_in a (Permutation_sym (sort_articles_permutation l))) in Ha.
  rewrite List.Forall_forall in H. apply H, Ha.
Qed.






End BuildStatus.

(** * The loop over the articles *)

Section ArticleLoop.
Context {L : Libs}.















End ArticleLoop.




Section ParseAll.
Context {L : Libs}.

Lemma parseMarkdownFile_path now g path data g' a :
  parseMarkdownFile now g path data = inr (g', a) -> filePath a = path.
Proof.
  destruct data as [file|]; [|discriminate]. intros H.
  apply (parse_article _ _ _ _ _ _ H).
Qed.

End ParseAll.

(** X13.  The article array holds one article per markdown file, in the order
    of the scan: no file is dropped, none is taken twice. *)
Theorem articles_match_files {L : Libs} (now : Z) (files : list (jsstring * option jsstring))
    (g g' : Globals) (articles : list Article) :
  parse_all now g files = inr (g', articles) ->
  List.map filePath articles = List.map fst files
  /\ Forall2 (fun f a => exists g0 g1, parseMarkdownFile now g0 (fst f) (snd f) = inr (g1, a))
       files articles.
Proof.
  revert g g' articles.
  induction files as [|[path data] rest IH]; intros g g' articles H; cbn [parse_all] in H.
  - injection H as _ <-. split; [reflexivity|constructor].
  - destruct (parseMarkdownFile now g path data) as [e|[g1 a]] eqn:Hp; [discriminate|].
    cbn [bind fst snd] in H.
    destruct (parse_all now g1 rest) as [e|[g2 others]] eqn:Hr; [discriminate|].
    cbn [bind fst snd] in H. injection H as _ <-.
    destruct (IH _ _ _ Hr) as [IH1 IH2]. split.
    + cbn [List.map fst]. rewrite IH1, (parseMarkdownFile_path _ _ _ _ _ _ Hp). reflexivity.
    + constructor; [|exact IH2]. exists g, g1. exact Hp.
Qed.

Lemma articles_match_files_witness :
  exists g articles,
    parse_all (L := Sample.libs) 0 initial_globals
      (findMarkdownFiles ARTICLES_DIR Sample.two_tree) = inr (g, articles)
    /\ List.map filePath articles = [str "articles/old.md"; str "articles/new.md"].
Proof.
  assert (Hp : exists g articles,
             parse_all (L := Sample.libs) 0 initial_globals
               (findMarkdownFiles ARTICLES_DIR Sample.two_tree) = inr (g, articles)).
  { eexists. eexists. vm_compute. reflexivity. }
  destruct Hp as (g & articles & Hp). exists g, articles. split; [exact Hp|].
  destruct (articles_match_files (L := Sample.libs) 0 _ _ _ _ Hp) as [E _].
  rewrite E. reflexivity.
Defined.

(** X14.  What a completed build has done, in order: it has created [dist],
    written the page of every article with its images, then written
    [dist/index.html], created [dist/projects] and written its index,
    created [dist/images] and copied [./src/images] into it, and written
    [dist/search-index.json] and [dist/404.html]. *)
Theorem completed_build_writes {L : Libs} (w : World) (now : Z) :
  final (build w now) = Completed ->
  exists styles templates entries g articles indexHTML projectsHTML records,
    styles_css w = Some styles
    /\ loadTemplates w = inr templates
    /\ articles_tree w = Some entries
    /\ parse_all now initial_globals (findMarkdownFiles ARTICLES_DIR entries)
       = inr (g, articles)
    /\ snd (generateIndexHTML articles templates styles) = inr indexHTML
    /\ generateProjectsHTML (sort_articles articles) templates styles = inr projectsHTML
    /\ generateSearchIndex (sort_articles articles) = inr records
    /\ effects (build w now)
       = fst (fold_left (write_article templates styles) articles
                ([Mkdir (str "./dist")], inr g))
         ++ [WriteFile (str "dist/index.html") indexHTML;
             Mkdir (str "dist/projects");
             WriteFile (str "dist/projects/index.html") projectsHTML;
             Mkdir (str "dist/images");
             CpRecursive (str "./src/images") (str "dist/images");
             WriteFile (str "dist/search-index.json") (JSON_stringify records);
             WriteFile (str "dist/404.html") (generate404HTML templates styles)].
Proof.
  unfold build.
  destruct (styles_css w) as [styles|] eqn:Hs; [|discriminate].
  destruct (loadTemplates w) as [e|templates] eqn:Ht; [discriminate|].
  destruct (articles_tree w) as [entries|] eqn:He; [|discriminate].
  destruct (parse_all now initial_globals (findMarkdownFiles ARTICLES_DIR entries))
    as [e|[g articles]] eqn:Hp; [discriminate|].
  change (Mkdir DIST_DIR) with (Mkdir (str "./dist")).
  destruct (fold_left (write_article templates styles) articles
              ([Mkdir (str "./dist")], inr g)) as [fx1 [e|g1]] eqn:Ef; [discriminate|].
  unfold generateIndexHTML.
  destruct (bind (mapM article_card (sort_articles articles)) _) as [e|indexHTML] eqn:Ei;
    [discriminate|].
  destruct (generateProjectsHTML (sort_articles articles) templates styles)
    as [e|projectsHTML] eqn:Epr; [discriminate|].
  destruct (generateSearchIndex (sort_articles articles)) as [e|records] eqn:Er;
    [discriminate|].
  intros _. exists styles, templates, entries, g, articles, indexHTML, projectsHTML, records.
  split; [reflexivity|]. split; [reflexivity|]. split; [reflexivity|].
  split; [exact Hp|]. split; [cbn [snd]; exact Ei|].
  split; [exact Epr|]. split; [exact Er|].
  rewrite Ef. cbn [effects fst]. rewrite <- !app_assoc. reflexivity.
Qed.

Lemma completed_build_writes_witness :
  exists page,
    In (WriteFile (str "dist/index.html") page)
       (effects (build (L := Sample.libs)
                   (Sample.site (Sample.foo_tree (str "Some text."))) 0)).
Proof.
  destruct (completed_build_writes (L := Sample.libs)
              (Sample.site (Sample.foo_tree (str "Some text."))) 0)
    as (styles & templates & entries & g & articles & indexHTML & projectsHTML
        & records & _ & _ & _ & _ & _ & _ & _ & E).
  - vm_compute. reflexivity.
  - exists indexHTML. rewrite E. apply in_or_app. right. left. reflexivity.
Defined.

(** * The text of an index card *)

Section CleanContent.
Context {L : Libs}.






End CleanContent.

Section CleanTail.
Context {L : Libs}.


End CleanTail.


(** * The split at the frontmatter *)

Section FrontmatterSplit.

Lemma run_spaces ws rest :
  Forall (fun c => is_space c = true) ws -> starts_black rest ->
  run is_space (ws ++ rest) = length ws.
Proof.
  intros Hws Hrest. rewrite run_app by exact Hws.
  destruct rest as [|c t]; [simpl; lia|]. cbn [run]. cbn in Hrest. rewrite Hrest. lia.
Qed.

Lemma exec_bodyPattern i s cs :
  m bodyPattern i s cs kid
  = match s with
    | c :: body =>
        if N.eqb 10 c then Some ((S i + length body)%nat, [], (2%nat, body) :: cs) else None
    | [] => None
    end.
Proof.
  unfold bodyPattern.
  change (m (Seq (chr 10) (Group 2 (Star true (Chr (fun _ => true))))) i s cs kid)
    with (match s with
          | c :: t =>
              if N.eqb 10 c
              then m (Star true (Chr (fun _ => true))) (S i) t cs
                     (fun i' s' cs' => kid i' s' ((2%nat, firstn (i' - S i) t) :: cs'))
              else None
          | [] => None
          end).
  destruct s as [|c body]; [reflexivity|]. destruct (N.eqb 10 c); [|reflexivity].
  rewrite m_star_greedy.
  rewrite (pick_greedy_at _ _ _ _ _ (length body)).
  - unfold kid. rewrite skipn_all.
    replace (S i + length body - S i)%nat with (length body) by lia.
    rewrite firstn_all. reflexivity.
  - rewrite run_all_true. lia.
  - discriminate.
  - intros n'. rewrite run_all_true. lia.
Qed.

Lemma exec_second_run i ws' body cs :
  Forall (fun c => is_space c = true) ws' -> starts_black body ->
  m (Seq (Star true (Chr is_space)) bodyPattern) i (ws' ++ 10%N :: body) cs kid
  = Some ((S (i + length ws') + length body)%nat, [], (2%nat, body) :: cs).
Proof.
  intros Hws Hbody.
  change (m (Seq (Star true (Chr is_space)) bodyPattern) i (ws' ++ 10%N :: body) cs kid)
    with (m (Star true (Chr is_space)) i (ws' ++ 10%N :: body) cs
            (fun i' s' cs' => m bodyPattern i' s' cs' kid)).
  rewrite m_star_greedy.
  assert (Hrun : run is_space (ws' ++ 10%N :: body) = S (length ws')).
  { change (ws' ++ 10%N :: body) with (ws' ++ [10%N] ++ body). rewrite app_assoc.
    rewrite run_spaces; [rewrite length_app; simpl; lia| |exact Hbody].
    apply Forall_app. split; [exact Hws|repeat constructor]. }
  assert (Hskip : skipn (length ws') (ws' ++ 10%N :: body) = 10%N :: body).
  { rewrite skipn_app, skipn_all, Nat.sub_diag. reflexivity. }
  rewrite (pick_greedy_at _ _ _ _ _ (length ws')).
  - rewrite Hskip, exec_bodyPattern. reflexivity.
  - lia.
  - rewrite Hskip, exec_bodyPattern. discriminate.
  - intros n' Hn'. assert (n' = S (length ws')) by lia. subst n'.
    replace (skipn (S (length ws')) (ws' ++ 10%N :: body)) with body.
    + rewrite exec_bodyPattern. destruct body as [|c t]; [reflexivity|].
      cbn in Hbody. destruct (N.eqb_spec 10 c) as [<-|]; [discriminate Hbody|reflexivity].
    + change (S (length ws')) with (1 + length ws')%nat.
      rewrite <- skipn_skipn, Hskip. reflexivity.
Qed.

Lemma exec_closingPattern i ws' body cs :
  Forall (fun c => is_space c = true) ws' -> starts_black body ->
  m closingPattern i (delimiter ++ ws' ++ 10%N :: body) cs kid
  = Some ((4 + i + length ws' + 1 + length body)%nat, [], (2%nat, body) :: cs).
Proof.
  intros Hws Hbody. unfold closingPattern, delimiter. cbn [app].
  apply fwd_chr, fwd_chr, fwd_chr, fwd_chr.
  rewrite exec_second_run by assumption. f_equal. f_equal. f_equal. lia.
Qed.

Lemma closingPattern_needs_delimiter i s cs :
  m closingPattern i s cs kid <> None -> exists t, s = delimiter ++ t.
Proof.
  unfold closingPattern. intros H.
  apply ok_chr in H as (t1 & -> & H). apply ok_chr in H as (t2 & -> & H).
  apply ok_chr in H as (t3 & -> & H). apply ok_chr in H as (t4 & -> & H).
  exists t4. reflexivity.
Qed.

Lemma delimiter_inside metadata rest j t :
  (j < length metadata)%nat ->
  skipn j (metadata ++ delimiter ++ rest) = delimiter ++ t ->
  infix_of delimiter metadata.
Proof.
  intros Hj E. rewrite skipn_app in E.
  replace (j - length metadata)%nat with O in E by lia. cbn [skipn] in E.
  assert (Hu : skipn j metadata <> []).
  { intros Hnil. apply (f_equal (@length N)) in Hnil. rewrite length_skipn in Hnil.
    simpl in Hnil. lia. }
  exists (firstn j metadata).
  destruct (skipn j metadata) as [|a [|b [|c [|d u]]]] eqn:Eu; [congruence| | | |];
    unfold delimiter in *; cbn [app] in E; try (injection E; intros; subst; discriminate).
  injection E as -> -> -> -> _. exists u.
  rewrite <- (firstn_skipn j metadata) at 1. rewrite Eu. reflexivity.
Qed.

Lemma exec_metadataPattern i metadata ws' body cs :
  ~ infix_of delimiter metadata ->
  Forall (fun c => is_space c = true) ws' -> starts_black body ->
  m metadataPattern i (10%N :: metadata ++ delimiter ++ ws' ++ 10%N :: body) cs kid
  = Some ((S i + length metadata + 4 + length ws' + 1 + length body)%nat, [],
          (2%nat, body) :: (1%nat, metadata) :: cs).
Proof.
  intros Hno Hws Hbody. unfold metadataPattern. apply fwd_chr.
  set (s := metadata ++ delimiter ++ ws' ++ 10%N :: body).
  change (m (Seq (Group 1 (Star false (Chr (fun _ => true)))) closingPattern) (S i) s cs kid)
    with (m (Star false (Chr (fun _ => true))) (S i) s cs
            (fun i' s' cs' => m closingPattern i' s' ((1%nat, firstn (i' - S i) s) :: cs') kid)).
  rewrite m_star_lazy.
  assert (Hskip : skipn (length metadata) s = delimiter ++ ws' ++ 10%N :: body).
  { unfold s. rewrite skipn_app, skipn_all, Nat.sub_diag. reflexivity. }
  assert (Hfirst : firstn (S i + length metadata - S i) s = metadata).
  { replace (S i + length metadata - S i)%nat with (length metadata) by lia.
    unfold s. rewrite firstn_app, firstn_all, Nat.sub_diag. cbn [firstn].
    apply app_nil_r. }
  rewrite (pick_lazy_at _ _ _ _ _ (length metadata)).
  - rewrite Hskip, Hfirst, exec_closingPattern by assumption. f_equal. f_equal. f_equal. lia.
  - rewrite run_all_true. unfold s. rewrite length_app. lia.
  - rewrite Hskip, Hfirst, exec_closingPattern by assumption. discriminate.
  - intros n' Hn'.
    destruct (m closingPattern (S i + n') (skipn n' s) ((1%nat, firstn (S i + n' - S i) s) :: cs) kid)
      eqn:E; [|reflexivity].
    exfalso. apply Hno.
    destruct (closingPattern_needs_delimiter (S i + n') (skipn n' s)
                ((1%nat, firstn (S i + n' - S i) s) :: cs)) as (t & Ht); [congruence|].
    eapply delimiter_inside; eassumption.
Qed.

Lemma exec_frontmatter ws metadata ws' body :
  Forall (fun c => is_space c = true) ws ->
  Forall (fun c => is_space c = true) ws' ->
  metadata <> [] -> starts_black metadata ->
  ~ infix_of delimiter metadata ->
  starts_black body ->
  exists e,
    exec_at frontmatterRegex 0
      (str "---" ++ ws ++ [10%N] ++ metadata ++ [10%N] ++ str "---" ++ ws' ++ [10%N] ++ body)
    = Some (e, [], [(2%nat, body); (1%nat, metadata)]).
Proof.
  intros Hws Hws' Hne Hmeta Hno Hbody. eexists.
  rewrite frontmatter_exec_unfold.
  match goal with
  | |- m (Seq Bol ?r) 0 ?s ?cs ?k = _ =>
      change (m (Seq Bol r) 0 s cs k) with (m r 0 s cs kid)
  end.
  change (str "---" ++ ws ++ [10%N] ++ metadata ++ [10%N] ++ str "---" ++ ws' ++ [10%N] ++ body)
    with (45%N :: 45%N :: 45%N
          :: ws ++ 10%N :: metadata ++ delimiter ++ ws' ++ 10%N :: body).
  apply fwd_chr, fwd_chr, fwd_chr.
  set (tail := 10%N :: metadata ++ delimiter ++ ws' ++ 10%N :: body).
  match goal with
  | |- m (Seq (Star true (Chr is_space)) ?r) ?i ?s ?cs ?k = _ =>
      change (m (Seq (Star true (Chr is_space)) r) i s cs k)
        with (m (Star true (Chr is_space)) i s cs (fun i' s' cs' => m metadataPattern i' s' cs' kid))
  end.
  rewrite m_star_greedy.
  assert (Hrun : run is_space (ws ++ tail) = S (length ws)).
  { unfold tail. change (ws ++ 10%N :: ?x) with (ws ++ [10%N] ++ x). rewrite app_assoc.
    rewrite run_spaces; [rewrite length_app; simpl; lia| |].
    - apply Forall_app. split; [exact Hws|repeat constructor].
    - destruct metadata as [|c t]; [congruence|exact Hmeta]. }
  assert (Hskip : skipn (length ws) (ws ++ tail) = tail).
  { rewrite skipn_app, skipn_all, Nat.sub_diag. reflexivity. }
  rewrite (pick_greedy_at _ _ _ _ _ (length ws)).
  - rewrite Hskip. unfold tail. rewrite exec_metadataPattern by assumption. reflexivity.
  - lia.
  - rewrite Hskip. unfold tail. rewrite exec_metadataPattern by assumption. discriminate.
  - intros n' Hn'. assert (n' = S (length ws)) by lia. subst n'.
    replace (skipn (S (length ws)) (ws ++ tail))
      with (metadata ++ delimiter ++ ws' ++ 10%N :: body).
    + destruct metadata as [|c t]; [congruence|]. cbn in Hmeta. unfold metadataPattern.
      cbn [app].
      change (m (Seq (chr 10) ?r) ?i (c :: ?x) ?cs ?k)
        with (if N.eqb 10 c then m r (S i) x cs k else None).
      destruct (N.eqb_spec 10 c) as [<-|]; [discriminate Hmeta|reflexivity].
    + change (S (length ws)) with (1 + length ws)%nat.
      rewrite <- skipn_skipn, Hskip. reflexivity.
Qed.

End FrontmatterSplit.

Section ParseSplit.
Context {L : Libs}.

Lemma is_infix_here x s : startsWith x s = true -> is_infix x s = true.
Proof. intros H. destruct s; cbn [is_infix]; rewrite H; reflexivity. Qed.

Lemma is_infix_complete x s : infix_of x s -> is_infix x s = true.
Proof.
  intros (a & b & ->). induction a as [|c a IH].
  - cbn [app]. apply is_infix_here, startsWith_prefix.
  - cbn [app is_infix]. rewrite IH. apply orb_true_r.
Qed.

Lemma search_here r i s st : exec_at r i s = Some st -> search r i s = Some (i, st).
Proof. intros H. destruct s; cbn [search]; rewrite H; reflexivity. Qed.

End ParseSplit.

Section ParseLayout.
Context {L : Libs}.

(** A file of the frontmatter layout is split at its delimiters; what
    marked meets in the body decides the rest. *)
Lemma parse_layout now g path ws metadata ws' body fm :
  Forall (fun c => is_space c = true) ws ->
  Forall (fun c => is_space c = true) ws' ->
  metadata <> [] -> starts_black metadata ->
  is_infix delimiter metadata = false ->
  starts_black body ->
  yaml_load metadata = YamlMapping fm ->
  let file := str "---" ++ ws ++ [10%N] ++ metadata ++ [10%N] ++ str "---" ++ ws'
              ++ [10%N] ++ body in
  if existsb is_image (marked_tokens body)
  then parseMarkdownFile now g path (Some file) = inl TypeError
  else exists g' a,
         parseMarkdownFile now g path (Some file) = inr (g', a)
         /\ content a = body
         /\ title a = or_value (fm_title fm) (VStr (str "Untitled"))
         /\ description a = or_value (fm_description fm) (VStr [])
         /\ tags a = or_value (fm_tags fm) (VArr [])
         /\ date a = parse_date now (fm_date fm)
         /\ filePath a = path
         /\ images a = extract_images body.
Proof.
  intros Hws Hws' Hne Hmeta Hno Hbody Hyaml file.
  assert (Hno' : ~ infix_of delimiter metadata).
  { intros H. apply is_infix_complete in H. congruence. }
  destruct (exec_frontmatter ws metadata ws' body Hws Hws' Hne Hmeta Hno' Hbody) as (e & E).
  apply search_here in E. fold file in E.
  destruct (existsb is_image (marked_tokens body)) eqn:Hi.
  - apply (image_aborts_parse now g path file _ _ _ _ fm E); [exact Hyaml|exact Hi].
  - unfold parseMarkdownFile. rewrite E.
    cbn [cap Nat.eqb]. rewrite Hyaml. cbv zeta.
    change (content (set_images (new_Article now body fm path) (extract_images body)))
      with body.
    match goal with
    | |- context [marked_parse ?g1 body] =>
        destruct (marked_parse_plain g1 _ body eq_refl Hi) as (g2 & out & Em & _);
        rewrite Em
    end.
    cbn [bind]. eexists _, _. split; [reflexivity|]. repeat split.
Qed.

End ParseLayout.



(** X17.  An image in the body of one article stops the whole build.  A
    file of the frontmatter layout whose metadata loads, in whose body
    marked meets an image, does not parse, and the build exits with code
    1 having only created [dist]: no page is written, of this article or
    of any other. *)
Theorem image_token_aborts_build {L : Libs} (w : World) (now : Z)
    (entries : list (jsstring * node)) (path : jsstring)
    (ws metadata ws' body : jsstring) (fm : Frontmatter) :
  articles_tree w = Some entries ->
  In (path, Some (str "---" ++ ws ++ [10%N] ++ metadata ++ [10%N] ++ str "---" ++ ws'
                  ++ [10%N] ++ body))
     (findMarkdownFiles ARTICLES_DIR entries) ->
  Forall (fun c => is_space c = true) ws ->
  Forall (fun c => is_space c = true) ws' ->
  metadata <> [] -> starts_black metadata ->
  is_infix delimiter metadata = false ->
  starts_black body ->
  yaml_load metadata = YamlMapping fm ->
  existsb is_image (marked_tokens body) = true ->
  build w now = {| effects := [Mkdir DIST_DIR]; final := Exit 1 |}.
Proof.
  intros Htree Hin Hws Hws' Hne Hmeta Hno Hbody Hyaml Hi.
  pose proof (parse_layout now initial_globals path ws metadata ws' body fm
                Hws Hws' Hne Hmeta Hno Hbody Hyaml) as Hfail.
  cbv zeta in Hfail. rewrite Hi in Hfail.
  unfold build. destruct (styles_css w); [|reflexivity].
  destruct (loadTemplates w); [reflexivity|].
  rewrite Htree.
  destruct (parse_all_fails now path _ TypeError _ initial_globals Hin Hfail) as (e' & E).
  rewrite E. reflexivity.
Qed.

Lemma image_token_aborts_build_witness :
  build (L := Sample.libs)
    (Sample.site (Sample.foo_tree (str "Intro.

![A picture](./pic.png)"))) 0
  = {| effects := [Mkdir DIST_DIR]; final := Exit 1 |}.
Proof.
  apply (image_token_aborts_build (L := Sample.libs) _ 0%Z
           (Sample.foo_tree (str "Intro.

![A picture](./pic.png)"))
           (str "articles/2025/foo.md") [] (str "title: Hello
date: 2025-01-15") [] (str "Intro.

![A picture](./pic.png)")
           {| fm_title := Some (VStr (str "Hello"));
              fm_date := Some (DateObject (Some 1736899200000%Z));
              fm_description := None; fm_tags := None |}).
  - reflexivity.
  - vm_compute. left. reflexivity.
  - constructor.
  - constructor.
  - discriminate.
  - reflexivity.
  - reflexivity.
  - reflexivity.
  - reflexivity.
  - reflexivity.
Defined.

(** * The copies of the images *)

(** X19.  An image recorded for an article is copied next to the page under
    its base name alone.  For an image in a directory beside the
    article, [d1/.../dk/name], the copy reads [d1/.../dk/name] under the
    directory of the article's file and writes [name] into the directory
    of the page: the directories of the image are dropped, so images of
    one name in different directories are copied onto one file. *)
Theorem nested_image_is_flattened (a : Article)
    (segs dirs idirs : list jsstring) (file name : jsstring) :
  url a = Path.slash :: path_of segs ->
  segs <> [] -> Forall (fun s => clean s = true) segs ->
  filePath a = path_of (dirs ++ [file]) ->
  dirs <> [] -> Forall (fun s => clean s = true) dirs -> clean file = true ->
  idirs <> [] -> Forall (fun s => clean s = true) idirs -> clean name = true ->
  copy_image a (path_of (idirs ++ [name]))
  = Cp (path_of (dirs ++ idirs ++ [name])) (path_of (str "dist" :: segs ++ [name])).
Proof.
  intros Hurl Hne Hc Hpath Hdne Hdc Hfile Hine Hic Hname.
  assert (Hi : Forall (fun s => clean s = true) (idirs ++ [name])).
  { apply Forall_app. split; [exact Hic|repeat constructor; exact Hname]. }
  assert (Hi0 : idirs ++ [name] <> []) by (destruct idirs; discriminate).
  destruct (output_location a segs Hurl Hne Hc) as (_ & _ & Hcp).
  rewrite Hcp by (rewrite basename_path_of; assumption).
  rewrite basename_path_of by exact Hname.
  rewrite Hpath, dirname_path_of by assumption.
  rewrite join_path_of by assumption. reflexivity.
Qed.

Lemma nested_image_is_flattened_witness :
  let a := new_Article (L := Sample.libs) 0 [] Sample2.plain_frontmatter
             (str "articles/2025/foo.md") in
  copy_image a (str "img/pic.png")
  = Cp (str "articles/2025/img/pic.png") (str "dist/articles/2025/foo/pic.png").
Proof.
  intros a.
  apply (nested_image_is_flattened a
           [str "articles"; str "2025"; str "foo"] [str "articles"; str "2025"]
           [str "img"] (str "foo.md") (str "pic.png")).
  - reflexivity.
  - discriminate.
  - repeat constructor.
  - reflexivity.
  - discriminate.
  - repeat constructor.
  - reflexivity.
  - discriminate.
  - repeat constructor.
  - reflexivity.
Defined.

(** Such copies are made by a build that completes: the parse pass
    records image syntax wherever it stands, also in a code block, where
    marked meets no image. *)
Lemma code_block_images_are_copied :
  let out := build (L := Sample2.libs)
               (Sample.site (Sample.foo_tree (str "```md
![Diagram](img/pic.png)
![Logo](./logo.png)
```"))) 0 in
  final out = Completed
  /\ In (Cp (str "articles/2025/img/pic.png") (str "dist/articles/2025/foo/pic.png"))
        (effects out)
  /\ In (Cp (str "articles/2025/logo.png") (str "dist/articles/2025/foo/logo.png"))
        (effects out).
Proof.
  cbv zeta. split; [vm_compute; reflexivity|]. split.
  - vm_compute. right. right. right. left. reflexivity.
  - vm_compute. right. right. right. right. left. reflexivity.
Qed.

(** * The pages of the articles *)


